(** * cbThreadPool: the worker-thread pool of src/sdk/cbthreadpool.cpp

    A shallow embedding of the pool controller ([cbThreadPool]) and of its
    worker ([PrivateThread]).  The pool is a record of its member variables
    together with the thread objects it has allocated; the worker's [Entry]
    loop is a step function with one step per statement group (each critical
    section is one step), so that workers can be interleaved with each other
    at will, and with the controller at each of its sleeps and, while it
    shuts the workers down (the first lines of [AbortAllTasks] and of the
    destructor, and the first loop of [FreeThreads]), between any two of
    its statements.  Calls that leave the translation unit
    (wxPostEvent, Execute, Abort, delete, wxMilliSleep, wxThread::Run/Kill)
    are recorded, in order, in a log. *)

From stdpp Require Import base list numbers countable.
From Equations Require Import Equations.
From Stdlib Require Import ZArith Lia.

Set Default Proof Using "Type".

(** ** Data model *)

(** A task object is known to the pool only by its address. A
    [cbThreadPoolTask*] is an [option]: [None] is the null pointer. *)
Definition cbThreadPoolTask := nat.

(** Modelled from the spec: the declaration of [cbTaskElement] is in
    cbthreadpool.h, which is not among the sources.  A queue entry pairs a
    task reference with an auto-delete flag; [AddTask] builds it so (line
    215) and [Entry] reads these two fields (lines 77, 82, 94). *)
Record cbTaskElement := mkElement {
  task : option cbThreadPoolTask;
  autoDelete : bool }.

(** Modelled from the spec: the default constructor of [cbTaskElement] is
    in the missing header too.  This is the element of line 75;
    [GetNextElement] overwrites its [task] before anything reads it, and
    its [autoDelete] is read only after a non-null task was fetched. *)
Definition no_element : cbTaskElement := mkElement None false.

(** What the pool does to the outside world. *)
Inductive event :=
| THREADTASK_ENDED (id : Z)            (* wxPostEvent(m_pOwner, cbEVT_THREADTASK_ENDED) *)
| THREADTASK_ALLDONE (id : Z)          (* wxPostEvent(m_pOwner, cbEVT_THREADTASK_ALLDONE) *)
| Execute (t : cbThreadPoolTask)       (* t->Execute() is entered *)
| TaskAbort (t : cbThreadPoolTask)     (* t->Abort() *)
| TaskDelete (t : cbThreadPoolTask)    (* delete t *)
| MilliSleep (ms : nat)                (* wxMilliSleep(ms) *)
| ThreadCreate (tid : nat)             (* thr->Create() *)
| ThreadRun (tid : nat)                (* thread->Run() *)
| ThreadKill (tid : nat)               (* thread->Kill() *)
| DebugLog (n : Z).                    (* the DebugLog of SetConcurrentThreads *)

Global Instance event_eq_dec : EqDecision event.
Proof. solve_decision. Defined.

(** Number of times [e] was logged. *)
Definition occurrences (e : event) (l : list event) : nat :=
  count_occ event_eq_dec l e.

Definition is_Execute (e : event) : bool :=
  match e with Execute _ => true | _ => false end.

(** The state wxThread keeps for a joinable thread. *)
Inductive wxThreadState := Created | Running | Exited | Killed.

Global Instance wxThreadState_eq_dec : EqDecision wxThreadState.
Proof. solve_decision. Defined.

(** Program points of [PrivateThread::Entry] (lines 56-104). *)
Inductive label :=
| L_while     (* 59     while(!Aborted()) *)
| L_reset     (* 61-63  m_pTask = 0, under the counter lock *)
| L_check1    (* 64     if (Aborted()) break *)
| L_check2    (* 68     if (Aborted()) break *)
| L_fetch     (* 74-78  GetNextElement(elem); if (!elem.task) break *)
| L_busy      (* 80-83  ++m_Counter; m_pTask = elem.task, under the counter lock *)
| L_exec      (* 85-86  if (!Aborted()) m_pTask->Execute() *)
| L_running   (*        inside Execute(); 87 on return *)
| L_idle      (* 90-93  m_pTask = 0; --m_Counter, under the counter lock *)
| L_delete    (* 94-95  if (elem.autoDelete) delete elem.task *)
| L_notify.   (* 97-101 if (doneWork) OnThreadTaskDone(this) *)

Global Instance label_eq_dec : EqDecision label.
Proof. solve_decision. Defined.

(** A [PrivateThread] object: its two members, the locals of [Entry], the
    program point, and the part of wxThread's state the pool observes. *)
Record PrivateThread := mkThread {
  m_pTask : option cbThreadPoolTask;
  m_Abort : bool;
  th_state : wxThreadState;      (* what IsRunning() reports *)
  th_delete : bool;              (* what TestDestroy() reports *)
  th_pc : label;
  elem : cbTaskElement;          (* local of Entry *)
  doneWork : bool }.             (* local of Entry *)

(** The thread object right after [new PrivateThread(pool)] and [Create()]. *)
Definition new_PrivateThread : PrivateThread :=
  mkThread None false Created false L_while no_element false.

(** The pool: the members the .cpp file uses (the class declaration is in
    the missing header).  [m_Threads] holds addresses into [heap], the
    thread objects allocated so far (an address is an index; objects are
    never freed: [m_Threads.Clear()] drops the pointers only).  [posted] is
    the log and [clock] the number of sleeps so far.  The two [int]
    members are integers: [m_Counter] only moves by one between zero and
    the number of thread objects, and [m_ConcurrentThreads] is only
    assigned and compared. *)
Record cbThreadPool := mkPool {
  m_ID : Z;
  m_Done : bool;
  m_Batching : bool;
  m_Counter : Z;
  m_Aborting : bool;
  m_ConcurrentThreads : Z;
  m_Threads : list nat;
  m_TaskQueue : list cbTaskElement;
  heap : list PrivateThread;
  posted : list event;
  clock : nat }.

Definition set_Done (b : bool) (p : cbThreadPool) : cbThreadPool :=
  mkPool (m_ID p) b (m_Batching p) (m_Counter p) (m_Aborting p)
    (m_ConcurrentThreads p) (m_Threads p) (m_TaskQueue p) (heap p) (posted p) (clock p).
Definition set_Batching (b : bool) (p : cbThreadPool) : cbThreadPool :=
  mkPool (m_ID p) (m_Done p) b (m_Counter p) (m_Aborting p)
    (m_ConcurrentThreads p) (m_Threads p) (m_TaskQueue p) (heap p) (posted p) (clock p).
Definition set_Counter (c : Z) (p : cbThreadPool) : cbThreadPool :=
  mkPool (m_ID p) (m_Done p) (m_Batching p) c (m_Aborting p)
    (m_ConcurrentThreads p) (m_Threads p) (m_TaskQueue p) (heap p) (posted p) (clock p).
Definition set_Aborting (b : bool) (p : cbThreadPool) : cbThreadPool :=
  mkPool (m_ID p) (m_Done p) (m_Batching p) (m_Counter p) b
    (m_ConcurrentThreads p) (m_Threads p) (m_TaskQueue p) (heap p) (posted p) (clock p).
Definition set_ConcurrentThreads (n : Z) (p : cbThreadPool) : cbThreadPool :=
  mkPool (m_ID p) (m_Done p) (m_Batching p) (m_Counter p) (m_Aborting p)
    n (m_Threads p) (m_TaskQueue p) (heap p) (posted p) (clock p).
Definition set_Threads (l : list nat) (p : cbThreadPool) : cbThreadPool :=
  mkPool (m_ID p) (m_Done p) (m_Batching p) (m_Counter p) (m_Aborting p)
    (m_ConcurrentThreads p) l (m_TaskQueue p) (heap p) (posted p) (clock p).
Definition set_TaskQueue (q : list cbTaskElement) (p : cbThreadPool) : cbThreadPool :=
  mkPool (m_ID p) (m_Done p) (m_Batching p) (m_Counter p) (m_Aborting p)
    (m_ConcurrentThreads p) (m_Threads p) q (heap p) (posted p) (clock p).
Definition set_heap (h : list PrivateThread) (p : cbThreadPool) : cbThreadPool :=
  mkPool (m_ID p) (m_Done p) (m_Batching p) (m_Counter p) (m_Aborting p)
    (m_ConcurrentThreads p) (m_Threads p) (m_TaskQueue p) h (posted p) (clock p).
Definition set_clock (n : nat) (p : cbThreadPool) : cbThreadPool :=
  mkPool (m_ID p) (m_Done p) (m_Batching p) (m_Counter p) (m_Aborting p)
    (m_ConcurrentThreads p) (m_Threads p) (m_TaskQueue p) (heap p) (posted p) n.

(** Append one entry to the log. *)
Definition emit (e : event) (p : cbThreadPool) : cbThreadPool :=
  mkPool (m_ID p) (m_Done p) (m_Batching p) (m_Counter p) (m_Aborting p)
    (m_ConcurrentThreads p) (m_Threads p) (m_TaskQueue p) (heap p)
    (posted p ++ [e]) (clock p).

(** [delete t] for a possibly null pointer: deleting null does nothing. *)
Definition delete_task (t : option cbThreadPoolTask) (p : cbThreadPool) : cbThreadPool :=
  match t with
  | Some a => emit (TaskDelete a) p
  | None => p
  end.

(** Update of the thread object at address [tid]. *)
Definition upd_thread (tid : nat) (f : PrivateThread → PrivateThread)
    (p : cbThreadPool) : cbThreadPool :=
  set_heap (alter f tid (heap p)) p.

Definition th_set_pTask (t : option cbThreadPoolTask) (th : PrivateThread) :=
  mkThread t (m_Abort th) (th_state th) (th_delete th) (th_pc th) (elem th) (doneWork th).
Definition th_set_Abort (b : bool) (th : PrivateThread) :=
  mkThread (m_pTask th) b (th_state th) (th_delete th) (th_pc th) (elem th) (doneWork th).
Definition th_set_state (s : wxThreadState) (th : PrivateThread) :=
  mkThread (m_pTask th) (m_Abort th) s (th_delete th) (th_pc th) (elem th) (doneWork th).
Definition th_set_pc (l : label) (th : PrivateThread) :=
  mkThread (m_pTask th) (m_Abort th) (th_state th) (th_delete th) l (elem th) (doneWork th).
Definition th_set_elem (e : cbTaskElement) (th : PrivateThread) :=
  mkThread (m_pTask th) (m_Abort th) (th_state th) (th_delete th) (th_pc th) e (doneWork th).
Definition th_set_doneWork (b : bool) (th : PrivateThread) :=
  mkThread (m_pTask th) (m_Abort th) (th_state th) (th_delete th) (th_pc th) (elem th) b.

(** ** wxThread, as the pool uses it

    wxWidgets is an external library.  The pool relies on: [IsRunning()] is
    true between a successful [Run()] and the return of [Entry] or a
    [Kill()]; [Run()] starts a thread that was created and not yet run, and
    fails otherwise; [Kill()] stops a running thread at once. *)

Definition IsRunning (tid : nat) (p : cbThreadPool) : bool :=
  match heap p !! tid with
  | Some th => bool_decide (th_state th = Running)
  | None => false
  end.

Definition start (th : PrivateThread) : PrivateThread :=
  match th_state th with
  | Created => th_set_state Running th
  | _ => th
  end.

Definition wxThread_Run (tid : nat) (p : cbThreadPool) : cbThreadPool :=
  upd_thread tid start (emit (ThreadRun tid) p).

Definition wxThread_Kill (tid : nat) (p : cbThreadPool) : cbThreadPool :=
  upd_thread tid (th_set_state Killed) (emit (ThreadKill tid) p).

(** [wxThread::This()] is the calling thread: [None] for the main thread,
    [Some tid] when a worker calls into the pool from a task. *)
Definition is_This (this : option nat) (tid : nat) : bool :=
  bool_decide (this = Some tid).

(** ** PrivateThread *)

(** [PrivateThread::Abort] (lines 46-54), one critical section. *)
Definition Abort (tid : nat) (p : cbThreadPool) : cbThreadPool :=
  match heap p !! tid with
  | Some th =>
      let p1 := match m_pTask th with
                | Some t => emit (TaskAbort t) p
                | None => p
                end in
      upd_thread tid (th_set_Abort true) p1
  | None => p
  end.

(** [PrivateThread::Aborted] (lines 34-44). *)
Definition Aborted (tid : nat) (p : cbThreadPool) : bool * cbThreadPool :=
  match heap p !! tid with
  | Some th =>
      if m_Abort th then (true, p)
      else if th_delete th then (true, Abort tid p)
      else (false, p)
  | None => (true, p)
  end.

(** ** The pool operations the worker calls *)

(** [cbThreadPool::GetNextElement] (lines 233-247). Queue nodes are
    never null: [AddTask] is the only producer. *)
Definition GetNextElement (element : cbTaskElement) (p : cbThreadPool)
    : cbTaskElement * cbThreadPool :=
  let element := mkElement None (autoDelete element) in
  match m_TaskQueue p with
  | e :: rest => (e, set_TaskQueue rest p)
  | [] => (element, p)
  end.

(** [cbThreadPool::OnThreadTaskDone] (lines 154-179). *)
Definition OnThreadTaskDone (p : cbThreadPool) : cbThreadPool :=
  let p1 := emit (THREADTASK_ENDED (m_ID p)) p in
  match m_TaskQueue p1 with
  | [] =>
      let reallyDone := (m_Counter p1 =? 0)%Z in
      if reallyDone
      then emit (THREADTASK_ALLDONE (m_ID p1)) (set_Done true p1)
      else p1
  | _ :: _ => p1
  end.

(** ** One step of [PrivateThread::Entry] *)

Definition goto (tid : nat) (l : label) (p : cbThreadPool) : cbThreadPool :=
  upd_thread tid (th_set_pc l) p.

(** [return 0] / leaving the loop: the thread is no longer running. *)
Definition leave (tid : nat) (p : cbThreadPool) : cbThreadPool :=
  upd_thread tid (th_set_state Exited) p.

(** [if (Aborted()) break;] and the loop test. *)
Definition break_if_Aborted (tid : nat) (next : label) (p : cbThreadPool) : cbThreadPool :=
  let '(a, p1) := Aborted tid p in
  if a then leave tid p1 else goto tid next p1.

Definition Entry_at (tid : nat) (th : PrivateThread) (p : cbThreadPool) : cbThreadPool :=
  match th_pc th with
  | L_while => break_if_Aborted tid L_reset p
  | L_reset => goto tid L_check1 (upd_thread tid (th_set_pTask None) p)
  | L_check1 => break_if_Aborted tid L_check2 p
  | L_check2 => break_if_Aborted tid L_fetch p
  | L_fetch =>
      let '(e, p1) := GetNextElement no_element p in
      let p2 := upd_thread tid (fun t => th_set_elem e (th_set_doneWork false t)) p1 in
      match task e with
      | None => leave tid p2
      | Some _ => goto tid L_busy p2
      end
  | L_busy =>
      let p1 := set_Counter (m_Counter p + 1) p in
      goto tid L_exec (upd_thread tid (th_set_pTask (task (elem th))) p1)
  | L_exec =>
      let '(a, p1) := Aborted tid p in
      if a then goto tid L_idle (upd_thread tid (th_set_doneWork true) p1)
      else match m_pTask th with
           | Some t => goto tid L_running (emit (Execute t) p1)
           | None => goto tid L_running p1
           end
  | L_running => goto tid L_idle (upd_thread tid (th_set_doneWork true) p)
  | L_idle =>
      let p1 := upd_thread tid (th_set_pTask None) p in
      goto tid L_delete (set_Counter (m_Counter p1 - 1) p1)
  | L_delete =>
      goto tid L_notify
        (if autoDelete (elem th) then delete_task (task (elem th)) p else p)
  | L_notify =>
      goto tid L_while (if doneWork th then OnThreadTaskDone p else p)
  end.

(** The scheduler lets thread [tid] take one step; a thread that is not
    running does nothing. *)
Definition Entry_step (p : cbThreadPool) (tid : nat) : cbThreadPool :=
  match heap p !! tid with
  | Some th =>
      match th_state th with
      | Running => Entry_at tid th p
      | _ => p
      end
  | None => p
  end.

(** A schedule is the list of the threads that step, in order. *)
Definition run (sched : list nat) (p : cbThreadPool) : cbThreadPool :=
  foldl Entry_step p sched.

(** [for (int i = i0; i < n; ++i) body] *)
Equations? for_int (i n : Z) (body : cbThreadPool → cbThreadPool)
    (p : cbThreadPool) : cbThreadPool by wf (Z.to_nat (n - i)) lt :=
  for_int i n body p with decide (i < n)%Z => {
    | left _ => for_int (i + 1)%Z n body (body p)
    | right _ => p }.
Proof. lia. Qed.

(** ** The pool controller *)

(** The points at which other threads can run while a caller is in the
    pool's code are numbered by period and position; [slot] names each
    point by one number, no two points by the same. *)
Definition slot (period point : nat) : nat := encode_nat (period, point).

Section Controller.

(** What the other threads do while the caller is in the pool's code.  The
    caller's sleeps divide its history into periods; in period [c] the
    others can run at the points [k = 1, 2, ...] between two of the
    caller's statements, and during the sleep that ends the period
    ([k = 0]): the threads [env (slot c k)] step there, in that order.  Any
    interleaving of the workers with the caller at these points is some
    [env]. *)
Variable env : nat → list nat.

(** The value of [wxThread::GetCPUCount()]. *)
Variable cpu_count : Z.

(** [wxMilliSleep(ms)] called by [this]: the caller does not run; the
    others do. *)
Definition wxMilliSleep (this : option nat) (ms : nat) (p : cbThreadPool) : cbThreadPool :=
  let p1 := emit (MilliSleep ms) p in
  run (filter (fun tid => this ≠ Some tid) (env (slot (clock p1) 0)))
      (set_clock (S (clock p1)) p1).

(** Between two statements of the caller [this] that no lock ties
    together, at point [k] of the current period: the others may run. *)
Definition yield (this : option nat) (k : nat) (p : cbThreadPool) : cbThreadPool :=
  run (filter (fun tid => this ≠ Some tid) (env (slot (clock p) k))) p.

(** The [while(thread->IsRunning())] loop of [FreeThreads] (lines 310-324);
    [count] is the local of that name. *)
Equations? retry_abort (this : option nat) (tid : nat) (count : nat)
    (p : cbThreadPool) : cbThreadPool by wf (11 - count) lt :=
  retry_abort this tid count p with IsRunning tid p => {
    | false => p
    | true with decide (10 < S count) => {
        | left _ =>
            let p1 := wxMilliSleep this 1 (Abort tid p) in
            if IsRunning tid p1 then wxThread_Kill tid p1 else p1
        | right _ =>
            retry_abort this tid (S count) (wxMilliSleep this 1 (Abort tid p)) } }.
Proof. lia. Qed.

(** The first loop of [FreeThreads] (lines 288-292), over the array [l]:
    each [Abort()] is a critical section of its own, and the others may run
    after it, at the points [k], [k + 1], ... *)
Fixpoint abort_each (this : option nat) (k : nat) (l : list nat)
    (p : cbThreadPool) : cbThreadPool :=
  match l with
  | [] => p
  | tid :: l' => abort_each this (S k) l' (yield this k (Abort tid p))
  end.

(** The second loop of [FreeThreads] (lines 302-325), over the array [l]. *)
Definition wait_each (this : option nat) (l : list nat) (p : cbThreadPool) : cbThreadPool :=
  foldl (fun q tid =>
           if is_This this tid then q
           else retry_abort this tid 0 q) p l.

(** [cbThreadPool::FreeThreads] (lines 284-327).  Neither loop body
    changes [m_Threads], so both loops range over the array as it is on
    entry. *)
Definition FreeThreads (this : option nat) (p : cbThreadPool) : cbThreadPool :=
  let p1 := abort_each this 3 (m_Threads p) p in
  let p2 := wxMilliSleep this 21 p1 in
  let p3 := wait_each this (m_Threads p) p2 in
  set_Threads [] p3.

(** The body of the loop of [AllocThreads]: [new], [Create()], [Add]. *)
Definition alloc_thread (p : cbThreadPool) : cbThreadPool :=
  let thr := length (heap p) in
  let p1 := set_heap (heap p ++ [new_PrivateThread]) p in
  let p2 := emit (ThreadCreate thr) p1 in
  set_Threads (m_Threads p2 ++ [thr]) p2.

(** [cbThreadPool::AllocThreads] (lines 272-282). *)
Definition AllocThreads (this : option nat) (p : cbThreadPool) : cbThreadPool :=
  let p1 := FreeThreads this p in
  for_int 0 (m_ConcurrentThreads p1) alloc_thread p1.

(** [cbThreadPool::SetConcurrentThreads] (lines 135-151). *)
Definition SetConcurrentThreads (this : option nat) (concurrentThreads : Z)
    (p : cbThreadPool) : cbThreadPool :=
  let p1 := if (concurrentThreads =? -1)%Z
            then set_ConcurrentThreads cpu_count p
            else set_ConcurrentThreads concurrentThreads p in
  let p2 := if (m_ConcurrentThreads p1 =? -1)%Z
            then set_ConcurrentThreads 1 p1
            else p1 in
  let p3 := emit (DebugLog (m_ConcurrentThreads p2)) p2 in
  AllocThreads this p3.

(** The constructor (lines 116-126).  [m_ConcurrentThreads] has no
    initialiser; [SetConcurrentThreads] assigns it before it is read. *)
Definition cbThreadPool_new (id : Z) (concurrentThreads : Z) : cbThreadPool :=
  SetConcurrentThreads None concurrentThreads
    (mkPool id true false 0 false 0 [] [] [] [] 0).

(** [cbThreadPool::ClearTaskQueue] (lines 258-270). *)
Definition ClearTaskQueue (p : cbThreadPool) : cbThreadPool :=
  let p1 := foldl (fun q e =>
                     if autoDelete e then delete_task (task e) q else q)
                  p (m_TaskQueue p) in
  set_TaskQueue [] p1.

(** The destructor (lines 128-133).  No lock is held from one of its
    three statements to the next: the others may run in between. *)
Definition cbThreadPool_delete (this : option nat) (p : cbThreadPool) : cbThreadPool :=
  let p1 := yield this 1 (set_Aborting true p) in
  let p2 := yield this 2 (ClearTaskQueue p1) in
  FreeThreads this p2.

(** [cbThreadPool::RunThreads] (lines 193-204). Entries of [m_Threads]
    are never null. *)
Definition RunThreads (this : option nat) (p : cbThreadPool) : cbThreadPool :=
  foldl (fun q tid =>
           if negb (m_Aborting q) && negb (IsRunning tid q) && negb (is_This this tid)
           then wxThread_Run tid q
           else q) p (m_Threads p).

(** [cbThreadPool::BatchBegin] and [BatchEnd] (lines 181-191). *)
Definition BatchBegin (p : cbThreadPool) : cbThreadPool :=
  set_Batching true p.

Definition BatchEnd (this : option nat) (p : cbThreadPool) : cbThreadPool :=
  RunThreads this (set_Batching false p).

(** [cbThreadPool::AddTask] (lines 206-229). *)
Definition AddTask (this : option nat) (task : option cbThreadPoolTask)
    (autoDelete : bool) (p : cbThreadPool) : bool * cbThreadPool :=
  if m_Aborting p then
    (false, if autoDelete then delete_task task p else p)
  else
    let elem := mkElement task autoDelete in
    let p1 := set_Done false (set_TaskQueue (m_TaskQueue p ++ [elem]) p) in
    (true, if negb (m_Batching p1) then RunThreads this p1 else p1).

(** [cbThreadPool::AbortAllTasks] (lines 249-256).  No lock is held from
    line 251 to line 252 or from there to the first [Abort()] of
    [FreeThreads]: the others may run in between. *)
Definition AbortAllTasks (this : option nat) (p : cbThreadPool) : cbThreadPool :=
  let p1 := yield this 1 (set_Aborting true p) in
  let p2 := yield this 2 (ClearTaskQueue p1) in
  let p3 := FreeThreads this p2 in
  let p4 := AllocThreads this p3 in
  set_Aborting false p4.

(** ** Histories

    What the owner, the tasks and the scheduler can do to a pool. *)
Inductive action :=
| Do_AddTask (this : option nat) (task : option cbThreadPoolTask) (autoDelete : bool)
| Do_BatchBegin
| Do_BatchEnd (this : option nat)
| Do_AbortAllTasks (this : option nat)
| Do_SetConcurrentThreads (this : option nat) (concurrentThreads : Z)
| Do_step (tid : nat).

Definition perform (p : cbThreadPool) (a : action) : cbThreadPool :=
  match a with
  | Do_AddTask this t d => snd (AddTask this t d p)
  | Do_BatchBegin => BatchBegin p
  | Do_BatchEnd this => BatchEnd this p
  | Do_AbortAllTasks this => AbortAllTasks this p
  | Do_SetConcurrentThreads this n => SetConcurrentThreads this n p
  | Do_step tid => Entry_step p tid
  end.

(** The pools that exist: a constructed pool after any history. *)
Inductive reachable : cbThreadPool → Prop :=
| reach_new id n : reachable (cbThreadPool_new id n)
| reach_perform p a : reachable p → reachable (perform p a).

End Controller.

(** ** Notions the properties are stated with *)

(** A worker is busy from the increment of the counter (line 81) to its
    decrement (line 92): the program points in between. *)
Definition in_flight (l : label) : bool :=
  match l with
  | L_exec | L_running | L_idle => true
  | _ => false
  end.

Definition Busy (th : PrivateThread) : bool := in_flight (th_pc th).

(** The number of busy workers among the thread objects. *)
Fixpoint busy_count (h : list PrivateThread) : Z :=
  match h with
  | [] => 0
  | th :: h' => ((if Busy th then 1 else 0) + busy_count h')%Z
  end.

(** The in-flight reference of a worker agrees with its program point. *)
Definition thread_ok (th : PrivateThread) : Prop :=
  (is_Some (m_pTask th) ↔ Busy th = true) ∧
  (Busy th = true → m_pTask th = task (elem th)) ∧
  (th_pc th = L_busy → is_Some (task (elem th))).

(** The done flag says: nothing queued and nobody busy. *)
Definition done_iff (p : cbThreadPool) : Prop :=
  m_Done p = true ↔ m_TaskQueue p = [] ∧ m_Counter p = 0%Z.

Definition done_implies_idle (p : cbThreadPool) : Prop :=
  m_Done p = true → m_TaskQueue p = [] ∧ m_Counter p = 0%Z.

(** The part of the log written between [p] and a later [p']. *)
Definition new_events (p p' : cbThreadPool) : list event :=
  drop (length (posted p)) (posted p').

(** A use of the queue: a submission, or a worker asking for the next
    element. *)
Inductive queue_op :=
| Push (task : option cbThreadPoolTask) (autoDelete : bool)
| Pop.

Definition pushed (op : queue_op) : list cbTaskElement :=
  match op with
  | Push t d => [mkElement t d]
  | Pop => []
  end.

(** Runs the uses in order; returns the entries the [Pop]s took out of the
    queue, in order, and the pool. *)
Fixpoint queue_run (this : option nat) (ops : list queue_op) (p : cbThreadPool)
    : list cbTaskElement * cbThreadPool :=
  match ops with
  | [] => ([], p)
  | Push t d :: ops' => queue_run this ops' (snd (AddTask this t d p))
  | Pop :: ops' =>
      let '(e, p1) := GetNextElement no_element p in
      let '(out, p2) := queue_run this ops' p1 in
      (match m_TaskQueue p with [] => out | _ :: _ => e :: out end, p2)
  end.

(** [n] calls of [GetNextElement] in a row: what they return. *)
Fixpoint drain (n : nat) (p : cbThreadPool) : list cbTaskElement * cbThreadPool :=
  match n with
  | O => ([], p)
  | S n' =>
      let '(e, p1) := GetNextElement no_element p in
      let '(es, p2) := drain n' p1 in
      (e :: es, p2)
  end.

(** Submitting the tasks [ts] one after the other. *)
Definition submit_all (this : option nat) (ts : list (option cbThreadPoolTask * bool))
    (p : cbThreadPool) : cbThreadPool :=
  foldl (fun q td => snd (AddTask this (fst td) (snd td) q)) p ts.

Definition element_of (td : option cbThreadPoolTask * bool) : cbTaskElement :=
  mkElement (fst td) (snd td).

(** [RunThreads] calls [Run()] on the workers of the set that are not
    running and are not the caller. *)
Definition eligible (this : option nat) (p : cbThreadPool) (tid : nat) : bool :=
  negb (IsRunning tid p) && negb (is_This this tid).

(** The worker calls and the wxThread calls leave the controller's own
    members alone. *)
Definition same_config (p q : cbThreadPool) : Prop :=
  m_ID q = m_ID p ∧ m_Batching q = m_Batching p ∧ m_Aborting q = m_Aborting p ∧
  m_ConcurrentThreads q = m_ConcurrentThreads p ∧ m_Threads q = m_Threads p.

(** Nothing but the thread objects and the log differs. *)
Definition same_members (p q : cbThreadPool) : Prop :=
  same_config p q ∧ m_Done q = m_Done p ∧ m_Counter q = m_Counter p ∧
  m_TaskQueue q = m_TaskQueue p ∧ clock q = clock p.

(** A property of the pool that the steps of a teardown keep. *)
Record teardown_stable (env : nat → list nat) (this : option nat)
    (P : cbThreadPool → Prop) : Prop := {
  ts_Abort : ∀ q tid, P q → P (Abort tid q);
  ts_sleep : ∀ q ms, P q → P (wxMilliSleep env this ms q);
  ts_Kill : ∀ q tid, P q → P (wxThread_Kill tid q);
  ts_yield : ∀ q k, P q → P (yield env this k q) }.

(** The pool as [ClearTaskQueue] finds it (line 252) in a call of
    [AbortAllTasks] or of the destructor by [this] on [p]. *)
Definition at_the_clear (env : nat → list nat) (this : option nat)
    (p : cbThreadPool) : cbThreadPool :=
  yield env this 1 (set_Aborting true p).

(** Every thread object has been told to stop. *)
Definition all_aborted (p : cbThreadPool) : Prop :=
  Forall (fun th => m_Abort th = true) (heap p).

(** The [Execute] calls logged so far. *)
Definition executions (p : cbThreadPool) : list event :=
  List.filter is_Execute (posted p).

Definition b2z (b : bool) : Z := if b then 1%Z else 0%Z.

(** The log entries a worker writes. *)
Definition worker_event (e : event) : Prop :=
  match e with
  | THREADTASK_ENDED _ | THREADTASK_ALLDONE _ | Execute _ | TaskAbort _
  | TaskDelete _ => True
  | _ => False
  end.

(** How one step of a worker relates the pool before and after: only the
    stepping thread's object [th] changes, into [th']. *)
Record step_effect (p p' : cbThreadPool) (th th' : PrivateThread) : Prop := {
  se_config : same_config p p';
  se_clock : clock p' = clock p;
  se_Abort : m_Abort th = true → m_Abort th' = true;
  se_ok : thread_ok th → thread_ok th';
  se_Counter : m_Counter p' = (m_Counter p + b2z (Busy th') - b2z (Busy th))%Z;
  se_state : th_state th' = Running ∨ th_state th' = Exited;
  se_queue : m_TaskQueue p = [] → m_TaskQueue p' = [];
  se_posted : ∃ evs, posted p' = posted p ++ evs ∧ Forall worker_event evs;
  se_exec : m_Abort th = true → executions p' = executions p;
  se_busy : th_pc th = L_busy →
            th_pc th' = L_exec ∧ m_pTask th' = task (elem th) ∧
            m_Counter p' = (m_Counter p + 1)%Z;
  se_idle : th_pc th = L_idle →
            th_pc th' = L_delete ∧ m_pTask th' = None ∧
            m_Counter p' = (m_Counter p - 1)%Z;
  se_other : th_pc th ≠ L_busy → th_pc th ≠ L_idle →
             Busy th' = Busy th ∧ m_Counter p' = m_Counter p ∧
             (m_pTask th' = m_pTask th ∨ th_pc th = L_reset ∧ m_pTask th' = None);
  se_Execute : ∀ t, Execute t ∈ new_events p p' →
               th_pc th = L_exec ∧ m_pTask th = Some t ∧ th_pc th' = L_running }.

(** A property of the pool that neither the workers nor a caller that
    signals and sleeps disturb. *)
Record worker_stable (P : cbThreadPool → Prop) : Prop := {
  ws_sleep : ∀ q ms, P q → P (emit (MilliSleep ms) q);
  ws_clock : ∀ q n, P q → P (set_clock n q);
  ws_step : ∀ q tid, P q → P (Entry_step q tid);
  ws_Abort : ∀ q tid, P q → P (Abort tid q) }.

(** The worker set is well formed: its entries are distinct addresses of
    thread objects, and a thread object that is no longer in the set was
    told to stop when it was dropped. *)
Definition threads_known (p : cbThreadPool) : Prop :=
  NoDup (m_Threads p) ∧
  (∀ tid, tid ∈ m_Threads p → tid < length (heap p)) ∧
  (∀ tid th, heap p !! tid = Some th → tid ∉ m_Threads p → m_Abort th = true).

(** The in-flight references and the busy counter are consistent. *)
Definition busy_consistent (p : cbThreadPool) : Prop :=
  Forall thread_ok (heap p) ∧ m_Counter p = busy_count (heap p).

(** What holds of every pool that exists. *)
Definition pool_inv (p : cbThreadPool) : Prop :=
  busy_consistent p ∧ threads_known p.

(** The worker count [SetConcurrentThreads] settles on (lines 137-145). *)
Definition resolved (cpu_count concurrentThreads : Z) : Z :=
  if (concurrentThreads =? -1)%Z
  then (if (cpu_count =? -1)%Z then 1%Z else cpu_count)
  else concurrentThreads.

(** The members other than the worker set agree. *)
Definition same_config_but_threads (p q : cbThreadPool) : Prop :=
  m_ID q = m_ID p ∧ m_Batching q = m_Batching p ∧ m_Aborting q = m_Aborting p ∧
  m_ConcurrentThreads q = m_ConcurrentThreads p.

(** ** A pool with one worker

    The worker holds a fetched element from line 76 until it has reported
    the task (line 100). *)
Definition holding (l : label) : bool :=
  match l with
  | L_busy | L_exec | L_running | L_idle | L_delete | L_notify => true
  | _ => false
  end.

Definition past_Execute (l : label) : bool :=
  match l with
  | L_idle | L_delete | L_notify => true
  | _ => false
  end.

(** The steps a lone worker still takes before its loop ends: eleven for
    each queued task, and what is left of the current iteration. *)
Definition steps_left (q : cbThreadPool) (th : PrivateThread) : nat :=
  match th_state th with
  | Running =>
      length (m_TaskQueue q) * 11 +
      match th_pc th with
      | L_while => 5 | L_reset => 4 | L_check1 => 3 | L_check2 => 2
      | L_fetch => 1 | L_busy => 11 | L_exec => 10 | L_running => 9
      | L_idle => 8 | L_delete => 7 | L_notify => 6
      end
  | _ => 0
  end.

(** The states of a pool [id] whose only thread object is [th], working
    through [N] submitted tasks with nobody asking it to stop. *)
Record single_worker (id : Z) (N : nat) (q : cbThreadPool) (th : PrivateThread)
    : Prop := {
  sw_heap : heap q = [th];
  sw_id : m_ID q = id;
  sw_Abort : m_Abort th = false;
  sw_delete : th_delete th = false;
  sw_queue : Forall (fun e => is_Some (task e)) (m_TaskQueue q);
  sw_Counter : m_Counter q = b2z (Busy th);
  sw_elem : holding (th_pc th) = true → is_Some (task (elem th));
  sw_pTask : Busy th = true → m_pTask th = task (elem th);
  sw_doneWork : past_Execute (th_pc th) = true → doneWork th = true;
  sw_alldone : occurrences (THREADTASK_ALLDONE id) (posted q) =
               if m_Done q then 1 else 0;
  sw_ended : occurrences (THREADTASK_ENDED id) (posted q) +
             length (m_TaskQueue q) +
             (if holding (th_pc th) then 1 else 0) = N;
  sw_done : m_Done q = true → m_TaskQueue q = [] ∧ holding (th_pc th) = false;
  sw_not_done : m_Done q = false →
                th_state th = Running ∧
                (holding (th_pc th) = false → m_TaskQueue q ≠ []);
  sw_state : th_state th = Running ∨ th_state th = Exited }.

(** The thread object at [tid], if any, has been told to stop. *)
Definition signalled (tid : nat) (p : cbThreadPool) : Prop :=
  ∀ th, heap p !! tid = Some th → m_Abort th = true.

(** How often [Kill()] was called on [tid]. *)
Definition kills (tid : nat) (p : cbThreadPool) : nat :=
  occurrences (ThreadKill tid) (posted p).

(** The [delete] calls [ClearTaskQueue] makes on the queue [q]. *)
Definition deletions (q : list cbTaskElement) : list event :=
  omap (fun e => if autoDelete e then TaskDelete <$> task e else None) q.

(** What can happen to a pool short of resetting or reconfiguring it:
    submissions, batches, and steps of the workers. *)
Definition ordinary (a : action) : Prop :=
  match a with
  | Do_AddTask _ _ _ | Do_BatchBegin | Do_BatchEnd _ | Do_step _ => True
  | Do_AbortAllTasks _ | Do_SetConcurrentThreads _ _ => False
  end.

(** ** Example pools *)

(** No other thread gets to run while the caller sleeps. *)
Definition quiet : nat → list nat := fun _ => [].

(** A pool of two workers on a four-processor machine. *)
Definition pool_of_two : cbThreadPool := cbThreadPool_new quiet 4 7 2.

(** ... in which a batch was begun and one task submitted. *)
Definition pool_pending : cbThreadPool :=
  snd (AddTask None (Some 5) true (BatchBegin pool_of_two)).

(** Two tasks for it, and a schedule: each worker fetches and executes
    its task and leaves the counter (nine steps each); then each deletes and
    reports (two steps each). *)
Definition two_tasks : list (option cbThreadPoolTask * bool) :=
  [(Some 100, true); (Some 101, false)].

Definition both_finish_then_report : list nat :=
  replicate 9 0 ++ replicate 9 1 ++ [0; 0; 1; 1].

(** A pool without workers in which every thread object was told to stop;
    [E] are the executions so far. *)
Definition dormant (E : list event) (p : cbThreadPool) : Prop :=
  m_Threads p = [] ∧ all_aborted p ∧ executions p = E.

(** A pool in the middle of [AbortAllTasks], after line 252. *)
Definition pool_mid_abort : cbThreadPool :=
  ClearTaskQueue (set_Aborting true pool_pending).

(** The pool of two after two submissions and six steps of worker 0:
    worker 0 is busy with task 100, task 101 is pending with auto-delete. *)
Definition pool_busy : cbThreadPool :=
  foldl (perform quiet 4) pool_of_two
    ([Do_AddTask None (Some 100) false; Do_AddTask None (Some 101) true]
     ++ map Do_step (replicate 6 0)).

(** A pool of one worker with the two tasks submitted. *)
Definition pool_of_one_loaded : cbThreadPool :=
  submit_all None two_tasks (cbThreadPool_new quiet 4 7 1).

(** The pool of two reconfigured with a negative count. *)
Definition pool_negative : cbThreadPool :=
  SetConcurrentThreads quiet 4 None (-5) pool_of_two.

(** The pool of two after one submission and seven steps of worker 0:
    worker 0 is inside [Execute] of task 100. *)
Definition pool_in_task : cbThreadPool :=
  foldl (perform quiet 4) pool_of_two
    (Do_AddTask None (Some 100) false :: map Do_step (replicate 7 0)).

(** The pool of two with a null task queued before task 5, and worker 0
    about to fetch (four steps into its loop). *)
Definition pool_null_first : cbThreadPool :=
  foldl (perform quiet 4) pool_of_two
    ([Do_AddTask None None false; Do_AddTask None (Some 5) false]
     ++ map Do_step (replicate 4 0)).

(** [AbortAllTasks] called while worker 0 is inside [Execute] of task 100
    and does not come back. *)
Definition pool_killed : cbThreadPool := AbortAllTasks quiet None pool_in_task.

(** The pool of two after two submissions, ten steps of worker 1 (it has
    executed task 100 and is about to report) and five steps of worker 0
    (it has fetched task 101 and is about to count itself busy). *)
Definition pool_race : cbThreadPool :=
  foldl (perform quiet 4) pool_of_two
    ([Do_AddTask None (Some 100) false; Do_AddTask None (Some 101) false]
     ++ map Do_step (replicate 10 1 ++ replicate 5 0)).

(** Two submissions to a pool, then twenty steps of worker 0. *)
Definition submit_two_then_work : list action :=
  [Do_AddTask None (Some 100) false; Do_AddTask None (Some 101) true]
  ++ map Do_step (replicate 20 0).

(** Task 101 is handed over and worker 0 works it off (ten steps, up to
    and including the [delete]); then the pool goes on without it. *)
Definition hand_over_and_work : list action :=
  Do_AddTask None (Some 101) true :: map Do_step (replicate 10 0).

Definition carry_on : list action :=
  map Do_step (replicate 5 0) ++ [Do_AbortAllTasks None].

(** A scheduler under which worker 1 takes seven steps right after the
    first statement of a shutdown begun in period 1, and nobody runs
    otherwise. *)
Definition eager : nat → list nat :=
  fun k => if k =? slot 1 1 then replicate 7 1 else [].

(** Worker 0 has reconfigured the pool from inside its task 100: it is
    no longer in the worker set, and still inside [Execute]. *)
Definition pool_orphan : cbThreadPool :=
  SetConcurrentThreads quiet 4 (Some 0) 2 pool_in_task.

(** A pool of one worker that has executed task 100, found the queue
    empty and left its loop (sixteen steps). *)
Definition pool_drained : cbThreadPool :=
  foldl (perform quiet 4) (cbThreadPool_new quiet 4 7 1)
    (Do_AddTask None (Some 100) false :: map Do_step (replicate 16 0)).

(** ** Further notions: what the workers do with a task *)

(** How often [t->Execute()] was entered. *)
Definition executed (t : cbThreadPoolTask) (p : cbThreadPool) : nat :=
  occurrences (Execute t) (posted p).

(** How many queue entries refer to [t]. *)
Definition queued (t : cbThreadPoolTask) (q : list cbTaskElement) : nat :=
  length (List.filter (fun e => bool_decide (task e = Some t)) q).

(** A worker that has fetched [t] and has not yet reached the test of line
    85 may still execute it. *)
Definition awaiting (t : cbThreadPoolTask) (th : PrivateThread) : nat :=
  match th_pc th with
  | L_busy | L_exec => if bool_decide (task (elem th) = Some t) then 1 else 0
  | _ => 0
  end.

Fixpoint awaiting_sum (t : cbThreadPoolTask) (h : list PrivateThread) : nat :=
  match h with
  | [] => 0
  | th :: h' => awaiting t th + awaiting_sum t h'
  end.

(** The executions of [t] so far and those that may still come. *)
Definition claims_on (t : cbThreadPoolTask) (p : cbThreadPool) : nat :=
  executed t p + queued t (m_TaskQueue p) + awaiting_sum t (heap p).

(** The steps a worker that was told to stop still takes, at most, before
    its loop ends. *)
Definition abort_rank (l : label) : nat :=
  match l with
  | L_fetch => 7 | L_busy => 6 | L_exec => 5 | L_running => 5 | L_idle => 4
  | L_delete => 3 | L_notify => 2 | L_reset => 2
  | L_while => 1 | L_check1 => 1 | L_check2 => 1
  end.

Definition is_ALLDONE (e : event) : bool :=
  match e with THREADTASK_ALLDONE _ => true | _ => false end.

(** The "all tasks done" notifications posted so far. *)
Definition all_done_posts (p : cbThreadPool) : list event :=
  List.filter is_ALLDONE (posted p).

(** The task a worker has fetched and has yet to execute. *)
Definition fetched (th : PrivateThread) : list cbThreadPoolTask :=
  match th_pc th with
  | L_busy | L_exec => match task (elem th) with Some t => [t] | None => [] end
  | _ => []
  end.

(** How often [delete] was called on [t]. *)
Definition deleted (t : cbThreadPoolTask) (p : cbThreadPool) : nat :=
  occurrences (TaskDelete t) (posted p).

(** How many queue entries hand [t] over to the pool (auto-delete). *)
Definition owned (t : cbThreadPoolTask) (q : list cbTaskElement) : nat :=
  length (List.filter (fun e => autoDelete e && bool_decide (task e = Some t)) q).

(** A worker that has fetched [t] with auto-delete and has not yet passed
    line 95 will delete it. *)
Definition to_delete (t : cbThreadPoolTask) (th : PrivateThread) : nat :=
  match th_pc th with
  | L_busy | L_exec | L_running | L_idle | L_delete =>
      if autoDelete (elem th) && bool_decide (task (elem th) = Some t) then 1 else 0
  | _ => 0
  end.

Fixpoint to_delete_sum (t : cbThreadPoolTask) (h : list PrivateThread) : nat :=
  match h with
  | [] => 0
  | th :: h' => to_delete t th + to_delete_sum t h'
  end.

(** The deletions of [t] so far and those that may still come. *)
Definition deletes_due (t : cbThreadPoolTask) (p : cbThreadPool) : nat :=
  deleted t p + owned t (m_TaskQueue p) + to_delete_sum t (heap p).

(** A worker has [t] in hand from the fetch until it is past line 95. *)
Definition in_hand (t : cbThreadPoolTask) (th : PrivateThread) : nat :=
  match th_pc th with
  | L_busy | L_exec | L_running | L_idle | L_delete =>
      if bool_decide (task (elem th) = Some t) then 1 else 0
  | _ => 0
  end.

Fixpoint in_hand_sum (t : cbThreadPoolTask) (h : list PrivateThread) : nat :=
  match h with
  | [] => 0
  | th :: h' => in_hand t th + in_hand_sum t h'
  end.

(** The deletions of [t] so far, and the references to [t] the pool still
    works with. *)
Definition accounted (t : cbThreadPoolTask) (p : cbThreadPool) : nat :=
  deleted t p + queued t (m_TaskQueue p) + in_hand_sum t (heap p).

(** More of what one step of a worker does. *)
Record step_detail (p p' : cbThreadPool) (th th' : PrivateThread) : Prop := {
  sd_queue : m_TaskQueue p' = m_TaskQueue p ∨
             (th_pc th = L_fetch ∧
              ∃ e, m_TaskQueue p = e :: m_TaskQueue p' ∧ elem th' = e ∧
                   (task e = None → th_state th' = Exited ∧ posted p' = posted p));
  sd_rank : m_Abort th = true →
            th_state th' = Exited ∨
            (th_state th' = Running ∧ abort_rank (th_pc th') < abort_rank (th_pc th));
  sd_once : ∀ t, (Busy th = true → m_pTask th = task (elem th)) →
            executed t p' + queued t (m_TaskQueue p') + awaiting t th' ≤
            executed t p + queued t (m_TaskQueue p) + awaiting t th;
  sd_alldone : all_done_posts p' = all_done_posts p ∨
               (m_Counter p = 0%Z ∧ m_TaskQueue p = [] ∧ th_pc th = L_notify);
  sd_done : m_Done p' = true → m_Done p = true ∨ m_TaskQueue p' = [];
  sd_delete : ∀ t, deleted t p' + owned t (m_TaskQueue p') + to_delete t th' ≤
                   deleted t p + owned t (m_TaskQueue p) + to_delete t th;
  sd_accounted : ∀ t, deleted t p' + queued t (m_TaskQueue p') + in_hand t th' ≤
                      deleted t p + queued t (m_TaskQueue p) + in_hand t th;
  sd_order : m_Abort th = false → th_delete th = false →
             (Busy th = true → m_pTask th = task (elem th)) →
             m_Abort th' = false ∧ th_delete th' = false ∧
             executions p' ++ map Execute (fetched th' ++ omap task (m_TaskQueue p')) =
             executions p ++ map Execute (fetched th ++ omap task (m_TaskQueue p)) }.

(** What a worker that was told to stop still has before it, in steps of
    its own: nothing once it is not running. *)
Definition steps_to_stop (tid : nat) (p : cbThreadPool) : nat :=
  match heap p !! tid with
  | Some th =>
      match th_state th with
      | Running => abort_rank (th_pc th)
      | _ => 0
      end
  | None => 0
  end.

(** A worker was killed while busy. *)
Definition stuck (p : cbThreadPool) : Prop :=
  ∃ tid th, heap p !! tid = Some th ∧ th_state th = Killed ∧ Busy th = true.

(** How often [t] was submitted in a history. *)
Definition submitted (t : cbThreadPoolTask) (a : action) : nat :=
  match a with
  | Do_AddTask _ (Some t') _ => if bool_decide (t' = t) then 1 else 0
  | _ => 0
  end.

Definition submissions (t : cbThreadPoolTask) (acts : list action) : nat :=
  sum_list (map (submitted t) acts).

(** How often [t] was handed over to the pool (submitted with
    auto-delete) in a history. *)
Definition handed_over (t : cbThreadPoolTask) (a : action) : nat :=
  match a with
  | Do_AddTask _ (Some t') true => if bool_decide (t' = t) then 1 else 0
  | _ => 0
  end.

Definition hand_overs (t : cbThreadPoolTask) (acts : list action) : nat :=
  sum_list (map (handed_over t) acts).

(** The tasks a history submits, in order. *)
Definition submitted_task (a : action) : option cbThreadPoolTask :=
  match a with
  | Do_AddTask _ t _ => t
  | _ => None
  end.

Definition tasks_of (acts : list action) : list cbThreadPoolTask :=
  omap submitted_task acts.

(** A pool with a single thread object, never told to stop: [L] is what it
    has executed, followed by what it has fetched and what is queued. *)
Definition lone_worker (L : list event) (q : cbThreadPool) : Prop :=
  ∃ th, heap q = [th] ∧ m_Abort th = false ∧ th_delete th = false ∧
        executions q ++ map Execute (fetched th ++ omap task (m_TaskQueue q)) = L.

(** ** The plugin hooks of src/sdk/cbplugin.h

    The macros [CB_IMPLEMENT_PLUGIN], [CB_IMPLEMENT_PLUGINS_1], [_2] and
    [_3] (lines 452-548) define the hooks a plugin library exports.  A
    class name stands both for the string [PluginName] returns and for the
    class of the object [CreatePlugin] allocates; [index] is a [size_t]. *)

Inductive plugin_macro (class : Type) :=
  | CB_IMPLEMENT_PLUGIN (name : class)
  | CB_IMPLEMENT_PLUGINS_1 (name : class)
  | CB_IMPLEMENT_PLUGINS_2 (name1 name2 : class)
  | CB_IMPLEMENT_PLUGINS_3 (name1 name2 name3 : class).

Arguments CB_IMPLEMENT_PLUGIN {class} name.
Arguments CB_IMPLEMENT_PLUGINS_1 {class} name.
Arguments CB_IMPLEMENT_PLUGINS_2 {class} name1 name2.
Arguments CB_IMPLEMENT_PLUGINS_3 {class} name1 name2 name3.

(** What [cbThrow] is called with. *)
Inductive plugin_error :=
  | Invalid_plugin_index_in_PluginName
  | Invalid_plugin_index_in_CreatePlugin.

Definition PluginName {class} (m : plugin_macro class) (index : N)
    : plugin_error + class :=
  match m with
  | CB_IMPLEMENT_PLUGIN name | CB_IMPLEMENT_PLUGINS_1 name => inr name
  | CB_IMPLEMENT_PLUGINS_2 name1 name2 =>
      match index with
      | 0%N => inr name1
      | 1%N => inr name2
      | _ => inl Invalid_plugin_index_in_PluginName
      end
  | CB_IMPLEMENT_PLUGINS_3 name1 name2 name3 =>
      match index with
      | 0%N => inr name1
      | 1%N => inr name2
      | 2%N => inr name3
      | _ => inl Invalid_plugin_index_in_PluginName
      end
  end.

Definition GetPluginsCount {class} (m : plugin_macro class) : N :=
  match m with
  | CB_IMPLEMENT_PLUGIN _ | CB_IMPLEMENT_PLUGINS_1 _ => 1
  | CB_IMPLEMENT_PLUGINS_2 _ _ => 2
  | CB_IMPLEMENT_PLUGINS_3 _ _ _ => 3
  end.

Definition CreatePlugin {class} (m : plugin_macro class) (index : N)
    : plugin_error + class :=
  match m with
  | CB_IMPLEMENT_PLUGIN name | CB_IMPLEMENT_PLUGINS_1 name => inr name
  | CB_IMPLEMENT_PLUGINS_2 name1 name2 =>
      match index with
      | 0%N => inr name1
      | 1%N => inr name2
      | _ => inl Invalid_plugin_index_in_CreatePlugin
      end
  | CB_IMPLEMENT_PLUGINS_3 name1 name2 name3 =>
      match index with
      | 0%N => inr name1
      | 1%N => inr name2
      | 2%N => inr name3
      | _ => inl Invalid_plugin_index_in_CreatePlugin
      end
  end.

(** The macros that export one plugin. *)
Definition exports_one {class} (m : plugin_macro class) : bool :=
  match m with
  | CB_IMPLEMENT_PLUGIN _ | CB_IMPLEMENT_PLUGINS_1 _ => true
  | _ => false
  end.

(** ** Elementary facts *)

Lemma slot_inj c k c' k' : slot c k = slot c' k' → c = c' ∧ k = k'.
Proof. unfold slot. intros H%(inj encode_nat). by simplify_eq/=. Qed.

Lemma foldl_stable {A B} (P : A → Prop) (f : A → B → A) (l : list B) (a : A) :
  P a → (∀ b x, x ∈ l → P b → P (f b x)) → P (foldl f a l).
Proof.
  revert a. induction l as [|x l IH]; intros a Ha Hf; simpl; [done|].
  apply IH.
  - apply Hf; [left | done].
  - intros b y Hy. apply Hf. by right.
Qed.

Lemma for_int_iter i n body p :
  for_int i n body p = Nat.iter (Z.to_nat (n - i)) body p.
Proof.
  funelim (for_int i n body p).
  - rewrite H. replace (Z.to_nat (n - i)) with (S (Z.to_nat (n - (i + 1)))) by lia.
    by rewrite Nat.iter_succ_r.
  - replace (Z.to_nat (n - i)) with 0 by lia. done.
Qed.

Lemma occurrences_app e l1 l2 :
  occurrences e (l1 ++ l2) = occurrences e l1 + occurrences e l2.
Proof. apply count_occ_app. Qed.

Lemma same_members_refl p : same_members p p.
Proof. by repeat split. Qed.

Lemma same_members_trans p q r :
  same_members p q → same_members q r → same_members p r.
Proof.
  unfold same_members, same_config. intros H1 H2.
  destruct_and!. repeat split; congruence.
Qed.

Lemma same_config_trans p q r :
  same_config p q → same_config q r → same_config p r.
Proof.
  unfold same_config. intros H1 H2. destruct_and!. repeat split; congruence.
Qed.

Lemma same_members_config p q : same_members p q → same_config p q.
Proof. by intros [? _]. Qed.

Lemma alter_absent {A} (f : A → A) (l : list A) i : l !! i = None → alter f i l = l.
Proof.
  intros H. apply list_eq. intros j. rewrite list_lookup_alter.
  case_decide; [subst; by rewrite H | done].
Qed.

(** *** [Abort], [Run], [Kill] *)

Lemma Abort_heap tid p : heap (Abort tid p) = alter (th_set_Abort true) tid (heap p).
Proof.
  unfold Abort. destruct (heap p !! tid) as [th|] eqn:E.
  - by destruct (m_pTask th).
  - by rewrite alter_absent.
Qed.

Lemma Abort_members tid p : same_members p (Abort tid p).
Proof.
  unfold Abort. destruct (heap p !! tid) as [th|]; [|apply same_members_refl].
  by destruct (m_pTask th).
Qed.

Lemma Abort_posted tid p :
  posted (Abort tid p) =
  posted p ++ match heap p !! tid with
              | Some th => match m_pTask th with Some t => [TaskAbort t] | None => [] end
              | None => []
              end.
Proof.
  unfold Abort. destruct (heap p !! tid) as [th|]; [|by rewrite app_nil_r].
  destruct (m_pTask th); simpl; [done|by rewrite app_nil_r].
Qed.

Lemma Run_members tid p : same_members p (wxThread_Run tid p).
Proof. by repeat split. Qed.

(** *** [RunThreads] *)

Lemma RunThreads_members this p : same_members p (RunThreads this p).
Proof.
  unfold RunThreads. apply foldl_stable; [apply same_members_refl|].
  intros b x _ Hb. case_match; [|done].
  eapply same_members_trans; [done|apply Run_members].
Qed.

(** *** [AddTask] *)

Lemma AddTask_accepts this t d p :
  m_Aborting p = false →
  ∃ p', AddTask this t d p = (true, p') ∧
        m_TaskQueue p' = m_TaskQueue p ++ [mkElement t d] ∧
        m_Done p' = false ∧ m_Counter p' = m_Counter p ∧
        m_Aborting p' = false.
Proof.
  intros Ha. unfold AddTask. rewrite Ha. eexists. split; [done|].
  set (p1 := set_Done false _).
  destruct (negb (m_Batching p1)); [|by rewrite ?Ha].
  destruct (RunThreads_members this p1) as ((_&_&Hab&_&_)&Hd&Hc&Hq&_).
  rewrite Hq, Hd, Hc, Hab. by rewrite ?Ha.
Qed.

(** C3. A task submitted while the aborting flag is set is refused:
    [AddTask] returns false and the queue is as before; with [autoDelete]
    the pool deletes the task, and that is all it does; without, nothing
    changes. *)
Theorem AddTask_rejected_while_aborting this t d p :
  m_Aborting p = true →
  fst (AddTask this t d p) = false ∧
  m_TaskQueue (snd (AddTask this t d p)) = m_TaskQueue p ∧
  (∀ a, d = true → t = Some a →
        snd (AddTask this t d p) = emit (TaskDelete a) p) ∧
  (d = false → snd (AddTask this t d p) = p).
Proof.
  intros Ha. unfold AddTask. rewrite Ha. simpl. repeat split.
  - destruct d; [|done]. by destruct t.
  - intros a -> ->. done.
  - by intros ->.
Qed.

(** *** The queue *)

Lemma GetNextElement_empty element p :
  m_TaskQueue p = [] →
  GetNextElement element p = (mkElement None (autoDelete element), p).
Proof. intros H. unfold GetNextElement. by rewrite H. Qed.

Lemma GetNextElement_head element e rest p :
  m_TaskQueue p = e :: rest →
  GetNextElement element p = (e, set_TaskQueue rest p).
Proof. intros H. unfold GetNextElement. by rewrite H. Qed.

Lemma submit_all_queue this ts p :
  m_Aborting p = false →
  m_TaskQueue (submit_all this ts p) = m_TaskQueue p ++ map element_of ts ∧
  m_Aborting (submit_all this ts p) = false.
Proof.
  revert p. induction ts as [|[t d] ts IH]; intros p Ha; simpl.
  - by rewrite app_nil_r.
  - destruct (AddTask_accepts this t d p Ha) as (p'&E&Hq&_&_&Ha').
    unfold submit_all in *. simpl. rewrite E. simpl.
    destruct (IH p' Ha') as [-> ->]. rewrite Hq, <- app_assoc. done.
Qed.

Lemma drain_queue p :
  drain (length (m_TaskQueue p)) p = (m_TaskQueue p, set_TaskQueue [] p).
Proof.
  remember (m_TaskQueue p) as q eqn:E. revert p E.
  induction q as [|e q IH]; intros p E; simpl.
  - rewrite E. by destruct p.
  - rewrite (GetNextElement_head _ e q) by done.
    rewrite (IH (set_TaskQueue q p)) by done. done.
Qed.

Lemma queue_run_fifo this ops p :
  m_Aborting p = false →
  fst (queue_run this ops p) ++ m_TaskQueue (snd (queue_run this ops p)) =
  m_TaskQueue p ++ concat (map pushed ops).
Proof.
  revert p. induction ops as [|[t d|] ops IH]; intros p Ha; simpl.
  - by rewrite app_nil_r.
  - destruct (AddTask_accepts this t d p Ha) as (p'&E&Hq&_&_&Ha').
    rewrite E. simpl. rewrite IH by done. rewrite Hq, <- app_assoc. done.
  - destruct (m_TaskQueue p) as [|e rest] eqn:Eq.
    + rewrite GetNextElement_empty by done.
      specialize (IH p Ha). destruct (queue_run this ops p) as [out p2].
      simpl in *. by rewrite IH, Eq.
    + rewrite (GetNextElement_head _ e rest) by done.
      specialize (IH (set_TaskQueue rest p) Ha).
      destruct (queue_run this ops (set_TaskQueue rest p)) as [out p2].
      simpl in *. by rewrite IH.
Qed.

(** C4. The queue is first in, first out.  [AddTask] appends at the tail;
    [GetNextElement] takes the head; so in any interleaving of submissions
    and removals, what was taken out followed by what is still queued is
    what was queued followed by what was submitted, in order.  In
    particular the tasks T1..Tn submitted in a row come out as T1..Tn,
    leaving the queue empty.  On an empty queue [GetNextElement] returns a
    null task and changes nothing, and a worker that gets it leaves its loop
    (it is no longer running). *)
Theorem queue_is_fifo this p :
  m_Aborting p = false →
  (∀ ops,
     fst (queue_run this ops p) ++ m_TaskQueue (snd (queue_run this ops p)) =
     m_TaskQueue p ++ concat (map pushed ops)) ∧
  (∀ ts,
     let p' := submit_all this ts p in
     m_TaskQueue p' = m_TaskQueue p ++ map element_of ts ∧
     drain (length (m_TaskQueue p')) p' = (m_TaskQueue p', set_TaskQueue [] p')) ∧
  (∀ q element,
     m_TaskQueue q = [] →
     task (fst (GetNextElement element q)) = None ∧
     snd (GetNextElement element q) = q) ∧
  (∀ q tid th,
     heap q !! tid = Some th → th_state th = Running → th_pc th = L_fetch →
     m_TaskQueue q = [] →
     IsRunning tid (Entry_step q tid) = false ∧
     new_events q (Entry_step q tid) = []).
Proof.
  intros Ha. split_and!.
  - intros ops. by apply queue_run_fifo.
  - intros ts. split; [by apply submit_all_queue | apply drain_queue].
  - intros q element Hq. by rewrite GetNextElement_empty.
  - intros q tid th Hth Hrun Hpc Hq.
    unfold Entry_step, Entry_at. rewrite Hth, Hrun, Hpc.
    rewrite GetNextElement_empty by done. simpl. split.
    + unfold IsRunning, leave, upd_thread. simpl.
      rewrite !list_lookup_alter, !decide_True by done.
      by rewrite Hth.
    + unfold new_events. simpl. by rewrite drop_all.
Qed.

(** *** One step of a worker *)

Lemma alter_insert {A} (f : A → A) (l : list A) i x :
  l !! i = Some x → alter f i l = <[i := f x]> l.
Proof.
  intros H. apply list_eq. intros j.
  rewrite list_lookup_alter, list_lookup_insert.
  case_decide as E.
  - subst. rewrite H. simpl. rewrite decide_True; [done|].
    split; [done|]. by eapply lookup_lt_Some.
  - rewrite decide_False; [done|]. by intros [? _].
Qed.

Lemma executions_emit e p :
  executions (emit e p) = executions p ++ (if is_Execute e then [e] else []).
Proof. unfold executions. simpl. rewrite List.filter_app. simpl. by destruct (is_Execute e). Qed.

Lemma Entry_step_effect p tid th :
  heap p !! tid = Some th → th_state th = Running →
  ∃ th', heap (Entry_step p tid) = <[tid := th']> (heap p) ∧
         step_effect p (Entry_step p tid) th th'.
Proof.
  intros Hth Hrun. unfold Entry_step. rewrite Hth, Hrun. unfold Entry_at.
  destruct th as [pt ab st de pc el dw]; simpl in *; subst st.
  destruct pc, ab, de; simpl;
    unfold break_if_Aborted, Aborted, Abort, GetNextElement, OnThreadTaskDone,
      goto, leave, upd_thread, delete_task; simpl; rewrite ?Hth; simpl.
  all: repeat case_match; simplify_eq/=.
  all: rewrite ?list_alter_alter_eq.
  all: erewrite (alter_insert _ _ _ _ Hth).
  all: eexists; split; [reflexivity|].
  all: split; simpl; try done.
  all: try (by left). all: try (by right).
  all: try (unfold b2z, Busy; simpl; lia).
  all: try congruence.
  all: try (eexists; split;
            [ rewrite <- ?app_assoc; try reflexivity; symmetry; apply app_nil_r
            | by repeat constructor ]).
  all: try (unfold new_events; cbn -[drop length app];
            rewrite <- ?app_assoc, ?drop_app_length, ?drop_all;
            intros t Ht; apply list_elem_of_In in Ht; simpl in Ht;
            repeat destruct Ht as [Ht|Ht]; try contradiction; by simplify_eq/=).
  all: try (unfold executions; simpl; rewrite ?List.filter_app; simpl;
            by rewrite ?app_nil_r).
  all: try (unfold thread_ok, Busy, is_Some; simpl;
            intros ([H1a H1b]&H2&H3); split_and!; try split; intros;
            repeat match goal with
                   | H : ∃ _, _ |- _ => destruct H
                   | H : ?a = ?a → _ |- _ => specialize (H eq_refl)
                   end; simplify_eq/=; eauto; try congruence;
            try (exfalso; eauto; fail);
            try (destruct pt; eauto; discriminate (H1a (ex_intro _ _ eq_refl)))).
Qed.

Lemma Entry_step_cases p tid :
  Entry_step p tid = p ∨
  ∃ th th', heap p !! tid = Some th ∧ th_state th = Running ∧
            heap (Entry_step p tid) = <[tid := th']> (heap p) ∧
            step_effect p (Entry_step p tid) th th'.
Proof.
  destruct (heap p !! tid) as [th|] eqn:Hth.
  - destruct (decide (th_state th = Running)) as [Hr|Hr].
    + right. destruct (Entry_step_effect p tid th Hth Hr) as (th'&?&?). eauto 6.
    + left. unfold Entry_step. rewrite Hth. by destruct (th_state th).
  - left. unfold Entry_step. by rewrite Hth.
Qed.

Lemma run_stable (P : cbThreadPool → Prop) sched p :
  (∀ q tid, P q → P (Entry_step q tid)) → P p → P (run sched p).
Proof. intros Hs Hp. unfold run. apply foldl_stable; [done|]. intros b x _. apply Hs. Qed.

Lemma yield_stable env this (P : cbThreadPool → Prop) k p :
  (∀ q tid, P q → P (Entry_step q tid)) → P p → P (yield env this k p).
Proof. intros Hs Hp. unfold yield. by apply run_stable. Qed.

(** The pool as the teardown of [AbortAllTasks] and of the destructor
    finds it, after lines 251-252 (130-131). *)
Lemma before_teardown_stable env this (P : cbThreadPool → Prop) p :
  (∀ q tid, P q → P (Entry_step q tid)) → (∀ q, P q → P (ClearTaskQueue q)) →
  P (set_Aborting true p) →
  P (yield env this 2 (ClearTaskQueue (yield env this 1 (set_Aborting true p)))).
Proof. intros Hs Hc Hp. by apply yield_stable, Hc, yield_stable. Qed.

Lemma worker_teardown_stable env this P :
  worker_stable P → (∀ q tid, P q → P (wxThread_Kill tid q)) →
  teardown_stable env this P.
Proof.
  intros [Hs Hc Hst Ha] Hk. split; [done| |done|].
  - intros q ms Hq. unfold wxMilliSleep. apply run_stable; [done|].
    apply Hc. by apply Hs.
  - intros q k Hq. unfold yield. by apply run_stable.
Qed.

(** *** Teardown *)

Lemma retry_abort_stable env this P tid count p :
  teardown_stable env this P → P p → P (retry_abort env this tid count p).
Proof.
  intros [Ha Hs Hk Hy]. funelim (retry_abort env this tid count p); intros Hp.
  - done.
  - simpl. case_match; [apply Hk|]; apply Hs, Ha, Hp.
  - apply H; try done. apply Hs, Ha, Hp.
Qed.

Lemma abort_each_stable env this (P : cbThreadPool → Prop) k l p :
  (∀ q tid, P q → P (Abort tid q)) → (∀ q j, P q → P (yield env this j q)) →
  P p → P (abort_each env this k l p).
Proof.
  intros Ha Hy. revert k p. induction l as [|x l IH]; intros k p Hp; [done|].
  simpl. by apply IH, Hy, Ha.
Qed.

Lemma abort_each_worker_stable env this (P : cbThreadPool → Prop) k l p :
  worker_stable P → P p → P (abort_each env this k l p).
Proof.
  intros HP Hp. apply abort_each_stable; [apply (ws_Abort _ HP)| |done].
  intros q j Hq. apply yield_stable; [apply (ws_step _ HP)|done].
Qed.

Lemma wait_each_stable env this P l p :
  teardown_stable env this P → P p → P (wait_each env this l p).
Proof.
  intros Hts Hp. unfold wait_each. apply foldl_stable; [done|].
  intros b x _ Hb. case_match; [done|]. by apply retry_abort_stable.
Qed.

Lemma FreeThreads_stable env this P p :
  teardown_stable env this P →
  (∀ q, P q → P (set_Threads [] q)) →
  P p → P (FreeThreads env this p).
Proof.
  intros Hts Hc Hp. unfold FreeThreads.
  apply Hc, wait_each_stable; [done|].
  apply (ts_sleep _ _ _ Hts).
  apply abort_each_stable; [apply (ts_Abort _ _ _ Hts)|apply (ts_yield _ _ _ Hts)|done].
Qed.

Lemma for_int_stable (P : cbThreadPool → Prop) i n body p :
  (∀ q, P q → P (body q)) → P p → P (for_int i n body p).
Proof.
  intros Hb Hp. rewrite for_int_iter.
  induction (Z.to_nat (n - i)) as [|k IH]; simpl; [done|]. by apply Hb.
Qed.

Lemma AllocThreads_stable env this P p :
  teardown_stable env this P →
  (∀ q, P q → P (set_Threads [] q)) →
  (∀ q, P q → P (alloc_thread q)) →
  P p → P (AllocThreads env this p).
Proof.
  intros Hts Hc Hal Hp. unfold AllocThreads.
  apply for_int_stable; [done|]. by apply FreeThreads_stable.
Qed.

(** *** Properties that workers and teardown keep *)

Lemma busy_count_insert h i th th' :
  h !! i = Some th →
  busy_count (<[i := th']> h) = (busy_count h + b2z (Busy th') - b2z (Busy th))%Z.
Proof.
  revert i. induction h as [|x h IH]; intros [|i] Hi; simplify_eq/=.
  - unfold b2z. repeat case_match; lia.
  - rewrite (IH i Hi). lia.
Qed.

Lemma busy_count_alter h i f :
  (∀ th, Busy (f th) = Busy th) → busy_count (alter f i h) = busy_count h.
Proof.
  intros Hf. revert i. induction h as [|x h IH]; intros [|i]; simpl; try done.
  - by rewrite Hf.
  - f_equal. apply IH.
Qed.

Lemma busy_count_app h1 h2 :
  busy_count (h1 ++ h2) = (busy_count h1 + busy_count h2)%Z.
Proof. induction h1 as [|x h1 IH]; simpl; [done|]. rewrite IH. lia. Qed.

Lemma Kill_heap tid p :
  heap (wxThread_Kill tid p) = alter (th_set_state Killed) tid (heap p).
Proof. done. Qed.

Lemma queue_empty_stable : worker_stable (fun q => m_TaskQueue q = []).
Proof.
  split; try done.
  - intros q tid Hq. destruct (Entry_step_cases q tid) as [->|(th&th'&_&_&_&He)]; [done|].
    by apply (se_queue _ _ _ _ He).
  - intros q tid Hq. by destruct (Abort_members tid q) as (_&_&_&->&_).
Qed.

Lemma same_config_stable p : worker_stable (same_config p).
Proof.
  split; try done.
  - intros q tid Hq. destruct (Entry_step_cases q tid) as [->|(th&th'&_&_&_&He)]; [done|].
    eapply same_config_trans; [done|]. apply (se_config _ _ _ _ He).
  - intros q tid Hq. eapply same_config_trans; [done|].
    apply same_members_config, Abort_members.
Qed.

Lemma busy_consistent_stable : worker_stable busy_consistent.
Proof.
  split; try done.
  - intros q tid [Hok Hc].
    destruct (Entry_step_cases q tid) as [->|(th&th'&Hth&_&Hh&He)]; [done|].
    split.
    + rewrite Hh. apply Forall_insert; [done|].
      apply (se_ok _ _ _ _ He). by eapply Forall_lookup_1.
    + rewrite (se_Counter _ _ _ _ He), Hh, (busy_count_insert _ _ th) by done.
      by rewrite Hc.
  - intros q tid [Hok Hc]. destruct (Abort_members tid q) as (_&_&Hm&_&_).
    split; rewrite Abort_heap.
    + apply Forall_alter; [done|]. by intros [] _.
    + by rewrite Hm, busy_count_alter.
Qed.

Lemma busy_consistent_Kill q tid :
  busy_consistent q → busy_consistent (wxThread_Kill tid q).
Proof.
  intros [Hok Hc]. split; rewrite Kill_heap.
  - apply Forall_alter; [done|]. by intros [] _.
  - simpl. by rewrite busy_count_alter.
Qed.

Lemma all_aborted_stable : worker_stable all_aborted.
Proof.
  unfold all_aborted. split; try done.
  - intros q tid Hq.
    destruct (Entry_step_cases q tid) as [->|(th&th'&Hth&_&Hh&He)]; [done|].
    rewrite Hh. apply Forall_insert; [done|].
    apply (se_Abort _ _ _ _ He). by eapply (Forall_lookup_1 _ _ _ _ Hq).
  - intros q tid Hq. rewrite Abort_heap. apply Forall_alter; [done|]. by intros [].
Qed.

Lemma all_aborted_Kill q tid : all_aborted q → all_aborted (wxThread_Kill tid q).
Proof.
  unfold all_aborted. intros Hq. rewrite Kill_heap.
  apply Forall_alter; [done|]. by intros [].
Qed.

(** Once every thread has been told to stop, no task is executed. *)
Lemma no_execution_stable p :
  worker_stable (fun q => all_aborted q ∧ executions q = executions p).
Proof.
  pose proof all_aborted_stable as [Hs Hc Hst Ha].
  split.
  - intros q ms [H1 H2]. split; [by apply Hs|]. by rewrite executions_emit, app_nil_r.
  - intros q n [H1 H2]. split; [by apply Hc|done].
  - intros q tid [H1 H2]. split; [by apply Hst|].
    destruct (Entry_step_cases q tid) as [->|(th&th'&Hth&_&Hh&He)]; [done|].
    rewrite (se_exec _ _ _ _ He); [done|].
    by eapply (Forall_lookup_1 _ _ _ _ H1).
  - intros q tid [H1 H2]. split; [by apply Ha|].
    unfold executions. rewrite Abort_posted, List.filter_app.
    repeat case_match; simpl; by rewrite app_nil_r.
Qed.

Lemma no_execution_Kill p q tid :
  all_aborted q ∧ executions q = executions p →
  all_aborted (wxThread_Kill tid q) ∧ executions (wxThread_Kill tid q) = executions p.
Proof.
  intros [H1 H2]. split; [by apply all_aborted_Kill|].
  unfold executions in *. simpl. rewrite List.filter_app. simpl.
  by rewrite app_nil_r.
Qed.

Lemma heap_length_stable n : worker_stable (fun q => length (heap q) = n).
Proof.
  split; try done.
  - intros q tid Hq.
    destruct (Entry_step_cases q tid) as [->|(th&th'&Hth&_&Hh&He)]; [done|].
    by rewrite Hh, length_insert.
  - intros q tid Hq. by rewrite Abort_heap, length_alter.
Qed.

Lemma heap_length_Kill n q tid :
  length (heap q) = n → length (heap (wxThread_Kill tid q)) = n.
Proof. intros Hq. by rewrite Kill_heap, length_alter. Qed.

Lemma log_grows_stable_from l : worker_stable (fun q => l `prefix_of` posted q).
Proof.
  split; try done.
  - intros q ms Hq. by apply prefix_app_r.
  - intros q tid Hq.
    destruct (Entry_step_cases q tid) as [->|(th&th'&Hth&_&Hh&He)]; [done|].
    destruct (se_posted _ _ _ _ He) as (evs&->&_). by apply prefix_app_r.
  - intros q tid Hq. rewrite Abort_posted. by apply prefix_app_r.
Qed.

Lemma log_grows_stable p : worker_stable (fun q => posted p `prefix_of` posted q).
Proof. apply log_grows_stable_from. Qed.

(** *** The invariant of the pool *)

Lemma pool_inv_ext p q :
  heap q = heap p → m_Counter q = m_Counter p → m_Threads q = m_Threads p →
  pool_inv p → pool_inv q.
Proof.
  unfold pool_inv, busy_consistent, threads_known.
  intros -> -> ->. done.
Qed.

Lemma threads_known_alter f tid p :
  (∀ th, m_Abort th = true → m_Abort (f th) = true) →
  threads_known p → threads_known (upd_thread tid f p).
Proof.
  intros Hf (Hnd&Hlt&Ho). split_and!; simpl; [done| |].
  - intros i Hi. rewrite length_alter. by apply Hlt.
  - intros i th. rewrite list_lookup_alter. case_decide as E.
    + subst. destruct (heap p !! i) as [th0|] eqn:E0; [|done].
      simpl. intros [= <-] Hi. apply Hf. by eapply Ho.
    + apply Ho.
Qed.

Lemma threads_known_stable : worker_stable threads_known.
Proof.
  split; try done.
  - intros q tid (Hnd&Hlt&Ho).
    destruct (Entry_step_cases q tid) as [->|(th&th'&Hth&_&Hh&He)]; [done|].
    destruct (se_config _ _ _ _ He) as (_&_&_&_&Hm).
    unfold threads_known. rewrite Hm, Hh. split_and!; [done| |].
    + intros i Hi. rewrite length_insert. by apply Hlt.
    + intros i thi Hi Hni. apply list_lookup_insert_Some in Hi as [(->&->&_)|[_ Hi]].
      * apply (se_Abort _ _ _ _ He). by eapply Ho.
      * by eapply Ho.
  - intros q tid Hq. unfold Abort. destruct (heap q !! tid) as [th|]; [|done].
    apply threads_known_alter; [done|]. by destruct (m_pTask th).
Qed.

Lemma pool_inv_stable : worker_stable pool_inv.
Proof.
  destruct busy_consistent_stable as [A1 A2 A3 A4].
  destruct threads_known_stable as [B1 B2 B3 B4].
  split; intros q ? [H1 H2]; split; auto.
Qed.

Lemma pool_inv_Run q tid : pool_inv q → pool_inv (wxThread_Run tid q).
Proof.
  intros [[Hok Hc] H2]. split; [split|].
  - simpl. apply Forall_alter; [done|]. intros [] _; unfold start; simpl.
    by case_match.
  - simpl. rewrite busy_count_alter; [done|]. intros []; unfold start; simpl.
    by case_match.
  - apply (threads_known_alter start tid (emit (ThreadRun tid) q)); [|done].
    intros []; unfold start; simpl. by case_match.
Qed.

Lemma aborted_outside_yield env this k (L : list nat) q :
  (∀ tid th, heap q !! tid = Some th → tid ∉ L → m_Abort th = true) →
  ∀ tid th, heap (yield env this k q) !! tid = Some th → tid ∉ L → m_Abort th = true.
Proof.
  intros Hq0. unfold yield.
  apply (run_stable (fun q => ∀ tid th, heap q !! tid = Some th → tid ∉ L →
                                m_Abort th = true)); [|done].
  intros q' tid' Hq.
  destruct (Entry_step_cases q' tid') as [->|(th0&th'&Hth&_&Hh&He)]; [done|].
  intros tid th. rewrite Hh. intros Hi Hni.
  apply list_lookup_insert_Some in Hi as [(->&->&_)|[_ Hi]].
  - apply (se_Abort _ _ _ _ He). by eapply Hq.
  - by eapply Hq.
Qed.

Lemma abort_each_all_aborted env this k l q :
  (∀ tid th, heap q !! tid = Some th → tid ∉ l → m_Abort th = true) →
  all_aborted (abort_each env this k l q).
Proof.
  revert k q. induction l as [|x l IH]; intros k q Hq.
  - apply Forall_lookup_2. intros i th Hi. eapply Hq; [done|]. apply not_elem_of_nil.
  - simpl. apply IH. apply aborted_outside_yield.
    intros tid th. rewrite Abort_heap, list_lookup_alter.
    case_decide as E.
    + subst. destruct (heap q !! tid); [|done]. by intros [= <-].
    + intros Hi Hni. eapply Hq; [done|]. by apply not_elem_of_cons.
Qed.

Lemma FreeThreads_after_signal env this P p :
  teardown_stable env this P →
  (∀ q, P q → P (set_Threads [] q)) →
  P (abort_each env this 3 (m_Threads p) p) → P (FreeThreads env this p).
Proof.
  intros Hts Hc Hp. unfold FreeThreads.
  apply Hc, wait_each_stable; [done|]. by apply (ts_sleep _ _ _ Hts).
Qed.

Lemma FreeThreads_all_aborted env this p :
  threads_known p → all_aborted (FreeThreads env this p).
Proof.
  intros (_&_&Ho). apply FreeThreads_after_signal.
  - apply worker_teardown_stable; [apply all_aborted_stable|apply all_aborted_Kill].
  - done.
  - by apply abort_each_all_aborted.
Qed.

Lemma threads_known_empty p :
  m_Threads p = [] → all_aborted p → threads_known p.
Proof.
  intros Hm Ha. unfold threads_known. rewrite Hm. split_and!.
  - apply NoDup_nil_2.
  - intros tid Hi. by apply elem_of_nil in Hi.
  - intros tid th Hi _. by eapply (Forall_lookup_1 _ _ _ _ Ha).
Qed.

Lemma pool_inv_FreeThreads env this p :
  pool_inv p → pool_inv (FreeThreads env this p).
Proof.
  intros [H1 H2]. split.
  - apply FreeThreads_stable; [|done|done].
    apply worker_teardown_stable; [apply busy_consistent_stable|apply busy_consistent_Kill].
  - apply threads_known_empty; [done|]. by apply FreeThreads_all_aborted.
Qed.

Lemma pool_inv_alloc p : pool_inv p → pool_inv (alloc_thread p).
Proof.
  intros [[Hok Hc] (Hnd&Hlt&Ho)]. split; [split|split_and!]; simpl.
  - apply Forall_app. split; [done|]. apply Forall_singleton.
    unfold thread_ok, Busy, is_Some. simpl. split_and!; [|done|done].
    split; [by intros [? ?]|done].
  - rewrite busy_count_app. simpl. lia.
  - apply list.NoDup_app. split_and!; [done| |apply NoDup_singleton].
    intros x Hx Hx'. apply list_elem_of_singleton in Hx'. subst.
    apply Hlt in Hx. lia.
  - intros tid Hi. rewrite length_app. simpl.
    apply elem_of_app in Hi as [Hi|Hi]; [apply Hlt in Hi; lia|].
    apply list_elem_of_singleton in Hi. lia.
  - intros tid th Hi Hni. apply not_elem_of_app in Hni as [Hni Hne].
    apply lookup_app_Some in Hi as [Hi|[Hge Hi]]; [by eapply Ho|].
    apply list_lookup_singleton_Some in Hi as [Hz _].
    exfalso. apply Hne, list_elem_of_singleton. lia.
Qed.

Lemma pool_inv_AllocThreads env this p :
  pool_inv p → pool_inv (AllocThreads env this p).
Proof.
  intros Hp. unfold AllocThreads. apply for_int_stable; [apply pool_inv_alloc|].
  by apply pool_inv_FreeThreads.
Qed.

Lemma pool_inv_RunThreads this p : pool_inv p → pool_inv (RunThreads this p).
Proof.
  intros Hp. unfold RunThreads. apply foldl_stable; [done|].
  intros b x _ Hb. case_match; [by apply pool_inv_Run|done].
Qed.

Lemma ClearTaskQueue_heap p :
  heap (ClearTaskQueue p) = heap p ∧ m_Counter (ClearTaskQueue p) = m_Counter p ∧
  same_config p (ClearTaskQueue p) ∧ m_Done (ClearTaskQueue p) = m_Done p ∧
  clock (ClearTaskQueue p) = clock p.
Proof.
  unfold ClearTaskQueue. simpl.
  apply (foldl_stable (fun q => heap q = heap p ∧ m_Counter q = m_Counter p ∧
                                same_config p q ∧ m_Done q = m_Done p ∧
                                clock q = clock p)).
  - by repeat split.
  - intros b x _ Hb. destruct (autoDelete x); [|done]. by destruct (task x).
Qed.

Lemma pool_inv_SetConcurrentThreads env cpu this n p :
  pool_inv p → pool_inv (SetConcurrentThreads env cpu this n p).
Proof.
  intros Hp. unfold SetConcurrentThreads. apply pool_inv_AllocThreads.
  eapply pool_inv_ext; [..|exact Hp]; by repeat case_match.
Qed.

Lemma pool_inv_AbortAllTasks env this p :
  pool_inv p → pool_inv (AbortAllTasks env this p).
Proof.
  intros Hp. unfold AbortAllTasks.
  eapply pool_inv_ext; [done..|].
  apply pool_inv_AllocThreads, pool_inv_FreeThreads, before_teardown_stable.
  - apply (ws_step _ pool_inv_stable).
  - intros q Hq. destruct (ClearTaskQueue_heap q) as (Hh&Hc&(_&_&_&_&Hm)&_).
    by eapply pool_inv_ext; [exact Hh|exact Hc|exact Hm|].
  - by eapply pool_inv_ext; [..|exact Hp].
Qed.

Lemma pool_inv_AddTask this t d p :
  pool_inv p → pool_inv (snd (AddTask this t d p)).
Proof.
  intros Hp. unfold AddTask. destruct (m_Aborting p); simpl.
  - destruct d; [|done]. by destruct t.
  - case_match; [apply pool_inv_RunThreads|]; by eapply pool_inv_ext; [..|exact Hp].
Qed.

Lemma pool_inv_perform env cpu p a :
  pool_inv p → pool_inv (perform env cpu p a).
Proof.
  intros Hp. destruct a; simpl.
  - by apply pool_inv_AddTask.
  - done.
  - apply pool_inv_RunThreads. by eapply pool_inv_ext; [..|exact Hp].
  - by apply pool_inv_AbortAllTasks.
  - by apply pool_inv_SetConcurrentThreads.
  - by apply (ws_step _ pool_inv_stable).
Qed.

Lemma reachable_inv env cpu p : reachable env cpu p → pool_inv p.
Proof.
  induction 1 as [id n|p a _ IH].
  - apply pool_inv_SetConcurrentThreads. split; [split|split_and!]; simpl.
    + constructor.
    + done.
    + apply NoDup_nil_2.
    + intros tid Hi. by apply elem_of_nil in Hi.
    + intros tid th Hi. by rewrite lookup_nil in Hi.
  - by apply pool_inv_perform.
Qed.


(** *** Construction *)

Lemma Entry_step_no_thread p tid : heap p !! tid = None → Entry_step p tid = p.
Proof. intros H. unfold Entry_step. by rewrite H. Qed.

Lemma run_no_threads sched p : heap p = [] → run sched p = p.
Proof.
  intros Hp. unfold run. induction sched as [|x l IH]; simpl; [done|].
  rewrite Entry_step_no_thread; [done|]. by rewrite Hp.
Qed.

Lemma FreeThreads_fresh env this p :
  m_Threads p = [] → heap p = [] →
  FreeThreads env this p =
  set_Threads [] (set_clock (S (clock p)) (emit (MilliSleep 21) p)).
Proof.
  intros Hm Hh. unfold FreeThreads. rewrite Hm. simpl.
  unfold wxMilliSleep. by rewrite run_no_threads.
Qed.

Lemma alloc_iter_frame k p :
  let q := Nat.iter k alloc_thread p in
  same_config_but_threads p q ∧ m_Done q = m_Done p ∧ m_Counter q = m_Counter p ∧
  m_TaskQueue q = m_TaskQueue p ∧ clock q = clock p ∧
  m_Threads q = m_Threads p ++ seq (length (heap p)) k ∧
  heap q = heap p ++ replicate k new_PrivateThread.
Proof.
  induction k as [|k IH].
  - simpl. by rewrite !app_nil_r.
  - rewrite seq_S. replace (replicate (S k) new_PrivateThread)
      with (replicate k new_PrivateThread ++ [new_PrivateThread])
      by (symmetry; apply (replicate_cons_app k new_PrivateThread)).
    change (Nat.iter (S k) alloc_thread p)
      with (alloc_thread (Nat.iter k alloc_thread p)).
    cbv zeta in IH. set (q := Nat.iter k alloc_thread p) in *.
    destruct IH as ((I1&I2&I3&I4)&I5&I6&I7&I8&I9&I10).
    unfold same_config_but_threads, alloc_thread. cbn -[seq replicate].
    rewrite I1, I2, I3, I4, I5, I6, I7, I8, I9, I10. split_and!; try done.
    + rewrite <- app_assoc. f_equal. by rewrite length_app, length_replicate.
    + by rewrite <- app_assoc.
Qed.

Lemma cbThreadPool_new_eq env cpu id n :
  cbThreadPool_new env cpu id n =
  Nat.iter (Z.to_nat (resolved cpu n)) alloc_thread
    (mkPool id true false 0 false (resolved cpu n) [] [] []
       [DebugLog (resolved cpu n); MilliSleep 21] 1).
Proof.
  unfold cbThreadPool_new, SetConcurrentThreads, AllocThreads, resolved.
  rewrite for_int_iter, Z.sub_0_r.
  destruct (n =? -1)%Z eqn:En.
  - destruct (cpu =? -1)%Z eqn:Ec; cbn [m_ConcurrentThreads set_ConcurrentThreads];
      rewrite ?Ec; rewrite !FreeThreads_fresh by done; done.
  - cbn [m_ConcurrentThreads set_ConcurrentThreads].
    rewrite En. rewrite !FreeThreads_fresh by done. done.
Qed.

(** *** The done flag *)

Lemma quiet_sleep env this ms q :
  (∀ k, env k = []) →
  wxMilliSleep env this ms q = set_clock (S (clock q)) (emit (MilliSleep ms) q).
Proof. intros He. unfold wxMilliSleep. by rewrite He. Qed.

Lemma quiet_yield env this k q : (∀ k, env k = []) → yield env this k q = q.
Proof. intros He. unfold yield. by rewrite He. Qed.

Lemma AbortAllTasks_queue env this p : m_TaskQueue (AbortAllTasks env this p) = [].
Proof.
  unfold AbortAllTasks. cbn [m_TaskQueue set_Aborting].
  pose proof (worker_teardown_stable env this _ queue_empty_stable
                (fun q tid H => H)) as Hts.
  apply AllocThreads_stable; [done..|]. apply FreeThreads_stable; [done..|].
  apply yield_stable; [apply (ws_step _ queue_empty_stable)|done].
Qed.

Lemma AbortAllTasks_quiet env this p :
  (∀ k, env k = []) →
  m_Done (AbortAllTasks env this p) = m_Done p ∧
  m_Counter (AbortAllTasks env this p) = m_Counter p.
Proof.
  intros He. unfold AbortAllTasks.
  set (P := fun q => m_Done q = m_Done p ∧ m_Counter q = m_Counter p).
  assert (teardown_stable env this P) as Hts.
  { split.
    - intros q tid [H1 H2]. destruct (Abort_members tid q) as (_&Hd&Hc&_).
      split; congruence.
    - intros q ms Hq. by rewrite quiet_sleep.
    - done.
    - intros q k Hq. by rewrite quiet_yield. }
  rewrite !quiet_yield by done.
  change (P (AllocThreads env this
               (FreeThreads env this (ClearTaskQueue (set_Aborting true p))))).
  apply AllocThreads_stable; [done..|]. apply FreeThreads_stable; [done..|].
  by destruct (ClearTaskQueue_heap (set_Aborting true p)) as (_&Hc&_&Hd&_).
Qed.

Lemma cbThreadPool_new_idle env cpu id n :
  m_Done (cbThreadPool_new env cpu id n) = true ∧
  m_TaskQueue (cbThreadPool_new env cpu id n) = [] ∧
  m_Counter (cbThreadPool_new env cpu id n) = 0%Z.
Proof.
  rewrite cbThreadPool_new_eq.
  by destruct (alloc_iter_frame (Z.to_nat (resolved cpu n))
    (mkPool id true false 0 false (resolved cpu n) [] [] []
       [DebugLog (resolved cpu n); MilliSleep 21] 1)) as (_&->&->&->&_).
Qed.

(** C1, as the code has it. The constructor establishes the equivalence
    between the done flag and (queue empty and busy counter zero);
    [AddTask] and [OnThreadTaskDone] preserve it.  [AbortAllTasks] always
    leaves the queue empty but never writes the done flag: when no worker
    runs during the call, the flag and the counter are as before, so of the
    equivalence only the direction from the flag to (empty and zero) is
    preserved. *)
Theorem done_flag_preservation env cpu :
  (∀ id n, done_iff (cbThreadPool_new env cpu id n)) ∧
  (∀ this t d p, done_iff p → done_iff (snd (AddTask this t d p))) ∧
  (∀ p, done_iff p → done_iff (OnThreadTaskDone p)) ∧
  (∀ this p,
     m_TaskQueue (AbortAllTasks env this p) = [] ∧
     ((∀ k, env k = []) →
      m_Done (AbortAllTasks env this p) = m_Done p ∧
      m_Counter (AbortAllTasks env this p) = m_Counter p ∧
      (done_implies_idle p → done_implies_idle (AbortAllTasks env this p)))).
Proof.
  split_and!.
  - intros id n. destruct (cbThreadPool_new_idle env cpu id n) as (Hd&Hq&Hc).
    unfold done_iff. by rewrite Hd, Hq, Hc.
  - intros this t d p Hp. destruct (m_Aborting p) eqn:Ha.
    + unfold AddTask. rewrite Ha. simpl. destruct d; [|done]. by destruct t.
    + destruct (AddTask_accepts this t d p Ha) as (p'&->&Hq&Hd&_). simpl.
      unfold done_iff. rewrite Hq, Hd. split; [done|].
      intros [Hnil _]. by apply app_nil in Hnil as [_ ?].
  - intros p Hp. unfold OnThreadTaskDone, done_iff in *. simpl.
    destruct (m_TaskQueue p) as [|e q] eqn:Eq; simpl.
    + destruct (Z.eqb_spec (m_Counter p) 0) as [Hc|Hc]; simpl; rewrite ?Eq.
      * by rewrite Hc.
      * done.
    + by rewrite Eq.
  - intros this p. split; [apply AbortAllTasks_queue|].
    intros He. destruct (AbortAllTasks_quiet env this p He) as [Hd Hc].
    split_and!; [done..|].
    unfold done_implies_idle. rewrite Hd, Hc, AbortAllTasks_queue.
    intros Hp Hdone. by destruct (Hp Hdone).
Qed.

(** C1 fails for [AbortAllTasks]: with one task pending and no worker busy,
    the equivalence holds before the call; after it the queue is empty and
    the counter zero, but the done flag is still false. *)
Lemma AbortAllTasks_breaks_done_iff :
  done_iff pool_pending ∧
  m_TaskQueue (AbortAllTasks quiet None pool_pending) = [] ∧
  m_Counter (AbortAllTasks quiet None pool_pending) = 0%Z ∧
  m_Done (AbortAllTasks quiet None pool_pending) = false ∧
  ¬ done_iff (AbortAllTasks quiet None pool_pending).
Proof.
  split_and!; try by vm_compute.
  - split; [by vm_compute|]. intros [H _]. by vm_compute in H.
  - intros [_ H]. assert (false = true) as Hf; [|done].
    apply H. by vm_compute.
Qed.

(** *** One worker on its own *)

Lemma occurrences_snoc_eq e l : occurrences e (l ++ [e]) = S (occurrences e l).
Proof.
  rewrite occurrences_app. unfold occurrences at 2. simpl.
  destruct (event_eq_dec e e); [lia|done].
Qed.

Lemma occurrences_snoc_ne e e' l : e' ≠ e → occurrences e (l ++ [e']) = occurrences e l.
Proof.
  intros Hne. rewrite occurrences_app. unfold occurrences at 2. simpl.
  destruct (event_eq_dec e' e); [done|lia].
Qed.

Lemma single_worker_step id N q th :
  single_worker id N q th → th_state th = Running →
  ∃ th', single_worker id N (Entry_step q 0) th' ∧
         S (steps_left (Entry_step q 0) th') = steps_left q th.
Proof.
  intros [Hh Hid Hab Hde Hq Hc Hel Hpt Hdw Hall Hend Hd Hnd Hst] Hrun.
  destruct q as [id' dn bt cnt ab ct ths tq hp ps ck].
  destruct th as [pt ab' st de pc el dw]. unfold Busy in *. simpl in *.
  subst hp id' ab' de st cnt.
  unfold Entry_step, steps_left. simpl.
  destruct pc; simpl in *;
    unfold Entry_at, break_if_Aborted, Aborted, Abort, GetNextElement,
      OnThreadTaskDone, goto, leave, upd_thread, delete_task; simpl.
  all: try specialize (Hel eq_refl); try specialize (Hpt eq_refl);
       try specialize (Hdw eq_refl); subst.
  all: repeat match goal with
       | H : is_Some _ |- _ => destruct H as [? H]
       end; simplify_eq/=.
  all: try match goal with
       | |- context [match ?x with [] => _ | _ :: _ => _ end] =>
           is_var x; destruct x as [|e tq']; simpl in *
       end.
  all: try match goal with
       | H : Forall _ (_ :: _) |- _ =>
           apply list.Forall_cons in H as [[? He] H]; rewrite ?He
       end.
  all: repeat case_match; simplify_eq/=.
  all: repeat match goal with
       | H : ?a = ?a → _ |- _ => specialize (H eq_refl)
       | H : _ ∧ _ |- _ => destruct H
       end; simplify_eq/=.
  all: eexists; (split; [split|]); try reflexivity.
  all: unfold Busy, b2z; simpl; try done; try lia.
  all: repeat (rewrite occurrences_snoc_eq || rewrite occurrences_snoc_ne by done).
  all: try done; try lia; try (by left); try (by right); try (by eexists).
Qed.

Lemma single_worker_other id N q th tid :
  single_worker id N q th → tid ≠ 0 → Entry_step q tid = q.
Proof.
  intros Hsw Hne. apply Entry_step_no_thread. rewrite (sw_heap _ _ _ _ Hsw).
  by destruct tid.
Qed.

Lemma single_worker_stopped id N q th :
  single_worker id N q th → th_state th ≠ Running → Entry_step q 0 = q.
Proof.
  intros Hsw Hne. unfold Entry_step. rewrite (sw_heap _ _ _ _ Hsw). simpl.
  by destruct (th_state th).
Qed.

Lemma steps_left_stopped q th : th_state th ≠ Running → steps_left q th = 0.
Proof. unfold steps_left. by destruct (th_state th). Qed.

Lemma steps_left_0 q th : steps_left q th = 0 → th_state th ≠ Running.
Proof.
  unfold steps_left. intros H Hr. rewrite Hr in H.
  destruct (th_pc th); lia.
Qed.

Lemma single_worker_run id N sched q th :
  single_worker id N q th →
  ∃ th', single_worker id N (run sched q) th' ∧
         steps_left (run sched q) th' =
         steps_left q th - count_occ Nat.eq_dec sched 0.
Proof.
  revert q th. induction sched as [|x l IH]; intros q th Hsw.
  - exists th. split; [done|]. simpl. lia.
  - change (run (x :: l) q) with (run l (Entry_step q x)).
    cbn [count_occ]. destruct (Nat.eq_dec x 0) as [->|Hx].
    + destruct (decide (th_state th = Running)) as [Hr|Hr].
      * destruct (single_worker_step id N q th Hsw Hr) as (th1&Hsw1&Hs1).
        destruct (IH _ _ Hsw1) as (th'&Hsw'&Hs'). exists th'. split; [done|]. lia.
      * rewrite (single_worker_stopped id N q th) by done.
        destruct (IH _ _ Hsw) as (th'&Hsw'&Hs'). exists th'. split; [done|].
        rewrite Hs', (steps_left_stopped q th) by done. lia.
    + rewrite (single_worker_other id N q th) by done. by apply IH.
Qed.

Lemma single_worker_finished id N q th :
  single_worker id N q th → th_state th ≠ Running →
  m_Done q = true ∧
  occurrences (THREADTASK_ALLDONE id) (posted q) = 1 ∧
  occurrences (THREADTASK_ENDED id) (posted q) = N ∧
  ∀ more, run more q = q.
Proof.
  intros Hsw Hr.
  assert (m_Done q = true) as Hd.
  { destruct (m_Done q) eqn:E; [done|].
    by destruct (sw_not_done _ _ _ _ Hsw E). }
  split_and!; [done| | |].
  - by rewrite (sw_alldone _ _ _ _ Hsw), Hd.
  - destruct (sw_done _ _ _ _ Hsw Hd) as [Hq Hh].
    pose proof (sw_ended _ _ _ _ Hsw) as He. rewrite Hq, Hh in He. simpl in He. lia.
  - intros more. unfold run. induction more as [|x l IH]; simpl; [done|].
    destruct (decide (x = 0)) as [->|Hx].
    + by rewrite (single_worker_stopped id N q th).
    + by rewrite (single_worker_other id N q th).
Qed.

Lemma submit_all_single this ts p th :
  heap p = [th] → th_state th = Running → m_Threads p = [0] →
  m_Aborting p = false → m_Batching p = false →
  let p' := submit_all this ts p in
  heap p' = [th] ∧ posted p' = posted p ∧ m_Counter p' = m_Counter p ∧
  m_ID p' = m_ID p ∧ m_TaskQueue p' = m_TaskQueue p ++ map element_of ts ∧
  (m_Done p = false → m_Done p' = false).
Proof.
  revert p. induction ts as [|[t d] ts IH]; intros p Hh Hr Hm Ha Hb; simpl.
  - by rewrite app_nil_r.
  - unfold submit_all. simpl.
    assert (snd (AddTask this t d p) =
            set_Done false (set_TaskQueue (m_TaskQueue p ++ [mkElement t d]) p)) as ->.
    { unfold AddTask. rewrite Ha. simpl. rewrite Hb. simpl.
      unfold RunThreads. simpl. rewrite Hm. simpl. rewrite Ha. simpl.
      unfold IsRunning. simpl. rewrite Hh. simpl. rewrite Hr.
      by rewrite bool_decide_eq_true_2. }
    destruct (IH (set_Done false (set_TaskQueue (m_TaskQueue p ++ [mkElement t d]) p)))
      as (I1&I2&I3&I4&I5&I6); try done.
    unfold submit_all in *. rewrite I1, I2, I3, I4, I5. simpl.
    rewrite <- app_assoc. split_and!; try done. intros _. by apply I6.
Qed.

Lemma single_worker_start env cpu id ts :
  ts ≠ [] → Forall (fun td => is_Some (fst td)) ts →
  ∃ th, single_worker id (length ts)
          (submit_all None ts (cbThreadPool_new env cpu id 1)) th ∧
        steps_left (submit_all None ts (cbThreadPool_new env cpu id 1)) th =
        length ts * 11 + 5.
Proof.
  intros Hne Hts. rewrite cbThreadPool_new_eq.
  destruct ts as [|[t d] ts]; [done|]. apply list.Forall_cons in Hts as [Ht Hts].
  unfold submit_all. cbn [foldl fst snd].
  set (p1 := snd (AddTask None t d _)).
  set (th := mkThread None false Running false L_while no_element false).
  destruct (submit_all_single None ts p1 th) as (I1&I2&I3&I4&I5&I6); try done.
  unfold submit_all in *. exists th. split; [split|]; try done.
  - rewrite I5. simpl. constructor; [done|]. by apply Forall_fmap.
  - rewrite I2, I6 by done. by vm_compute.
  - rewrite I2, I5. simpl. rewrite length_map.
    cut (occurrences (THREADTASK_ENDED id) (posted p1) = 0); [lia|].
    unfold p1, occurrences. simpl. by repeat case_match.
  - by rewrite I6.
  - intros _. split; [done|]. intros _. by rewrite I5.
  - by left.
  - unfold steps_left. rewrite I5. simpl. rewrite length_map. lia.
Qed.



(** *** Bounded teardown *)

Lemma clock_step q tid : clock (Entry_step q tid) = clock q.
Proof.
  destruct (Entry_step_cases q tid) as [->|(th&th'&_&_&_&He)]; [done|].
  apply (se_clock _ _ _ _ He).
Qed.

Lemma clock_sleep env this ms q : clock (wxMilliSleep env this ms q) = S (clock q).
Proof.
  unfold wxMilliSleep. apply (run_stable (fun q' => clock q' = S (clock q))); [|done].
  intros q' tid Hq'. by rewrite clock_step.
Qed.

Lemma clock_Abort tid q : clock (Abort tid q) = clock q.
Proof. by destruct (Abort_members tid q) as (_&_&_&_&?). Qed.

Lemma worker_event_no_kill tid evs :
  Forall worker_event evs → occurrences (ThreadKill tid) evs = 0.
Proof.
  induction 1 as [|e evs He _ IH]; [done|].
  unfold occurrences in *. simpl. destruct (event_eq_dec e (ThreadKill tid)); [|done].
  by subst.
Qed.

Lemma kills_stable tid k : worker_stable (fun q => kills tid q = k).
Proof.
  unfold kills. split; try done.
  - intros q ms Hq. simpl. by rewrite occurrences_snoc_ne.
  - intros q tid' Hq.
    destruct (Entry_step_cases q tid') as [->|(th&th'&_&_&_&He)]; [done|].
    destruct (se_posted _ _ _ _ He) as (evs&->&Hevs).
    rewrite occurrences_app, (worker_event_no_kill _ _ Hevs).
    by rewrite Nat.add_0_r.
  - intros q tid' Hq. rewrite Abort_posted, occurrences_app.
    rewrite (worker_event_no_kill tid
               match heap q !! tid' with
               | Some th => match m_pTask th with Some t => [TaskAbort t] | None => [] end
               | None => []
               end); [by rewrite Nat.add_0_r|].
    repeat case_match; by repeat constructor.
Qed.

Lemma kills_sleep_Abort env this tid tid' q :
  kills tid (wxMilliSleep env this 1 (Abort tid' q)) = kills tid q.
Proof.
  pose proof (worker_teardown_stable env this _ (kills_stable tid (kills tid q))) as H.
  unfold wxMilliSleep. apply run_stable.
  - apply (ws_step _ (kills_stable tid (kills tid q))).
  - apply (ws_clock _ (kills_stable tid (kills tid q))),
          (ws_sleep _ (kills_stable tid (kills tid q))),
          (ws_Abort _ (kills_stable tid (kills tid q))). done.
Qed.

Lemma IsRunning_Kill tid q : IsRunning tid (wxThread_Kill tid q) = false.
Proof.
  unfold IsRunning, wxThread_Kill, upd_thread. simpl.
  rewrite list_lookup_alter, decide_True by done.
  by destruct (heap q !! tid).
Qed.

Lemma stopped_stable tid : worker_stable (fun q => IsRunning tid q = false).
Proof.
  unfold IsRunning. split; try done.
  - intros q tid' Hq.
    destruct (Entry_step_cases q tid') as [->|(th&th'&Hth&Hr&Hh&He)]; [done|].
    rewrite Hh. destruct (decide (tid' = tid)) as [->|Hne].
    + rewrite Hth in Hq. by rewrite bool_decide_eq_true_2 in Hq.
    + by rewrite list_lookup_insert_ne.
  - intros q tid' Hq. rewrite Abort_heap, list_lookup_alter.
    case_decide; [subst|done]. by destruct (heap q !! tid) as [[]|].
Qed.

Lemma stopped_Kill tid q tid' :
  IsRunning tid q = false → IsRunning tid (wxThread_Kill tid' q) = false.
Proof.
  unfold IsRunning. intros Hq. rewrite Kill_heap, list_lookup_alter.
  case_decide; [subst|done]. by destruct (heap q !! tid) as [[]|].
Qed.

Lemma signalled_stable tid : worker_stable (signalled tid).
Proof.
  unfold signalled. split; try done.
  - intros q tid' Hq th'.
    destruct (Entry_step_cases q tid') as [->|(th0&th1&Hth&Hr&Hh&He)]; [apply Hq|].
    rewrite Hh. intros [(->&->&_)|[_ Hl]]%list_lookup_insert_Some; [|by apply Hq].
    apply (se_Abort _ _ _ _ He). by apply Hq.
  - intros q tid' Hq th'. rewrite Abort_heap, list_lookup_alter.
    case_decide; [subst|apply Hq].
    destruct (heap q !! tid); [|done]. by intros [= <-].
Qed.

Lemma signalled_Kill tid q tid' :
  signalled tid q → signalled tid (wxThread_Kill tid' q).
Proof.
  unfold signalled. intros Hq th'. rewrite Kill_heap, list_lookup_alter.
  case_decide; [subst|apply Hq].
  destruct (heap q !! tid) as [th|] eqn:E; [|done]. intros [= <-]. simpl. by apply Hq.
Qed.

Lemma Abort_signals tid q : signalled tid (Abort tid q).
Proof.
  intros th'. rewrite Abort_heap, list_lookup_alter, decide_True by done.
  destruct (heap q !! tid); [|done]. by intros [= <-].
Qed.

Lemma abort_each_signals env this k l q tid :
  tid ∈ l → signalled tid (abort_each env this k l q).
Proof.
  revert k q. induction l as [|x l IH]; intros k q Hin; [by apply elem_of_nil in Hin|].
  simpl. destruct (decide (tid = x)) as [->|Hne].
  - apply abort_each_worker_stable; [apply signalled_stable|].
    apply yield_stable; [apply (ws_step _ (signalled_stable x))|].
    apply Abort_signals.
  - apply IH. apply elem_of_cons in Hin as [?|?]; done.
Qed.

Lemma retry_abort_spec env this tid count q :
  count ≤ 10 →
  IsRunning tid (retry_abort env this tid count q) = false ∧
  clock (retry_abort env this tid count q) ≤ clock q + (11 - count) ∧
  (kills tid (retry_abort env this tid count q) = kills tid q ∨
   kills tid (retry_abort env this tid count q) = S (kills tid q) ∧
   clock (retry_abort env this tid count q) = clock q + (11 - count)).
Proof.
  funelim (retry_abort env this tid count q); intros Hc.
  - split_and!; [done|lia|by left].
  - assert (count = 10) as -> by lia. simpl.
    destruct (IsRunning tid (wxMilliSleep env this 1 (Abort tid p))) eqn:E.
    + split_and!.
      * apply IsRunning_Kill.
      * simpl. rewrite clock_sleep, clock_Abort. lia.
      * right. split.
        -- unfold kills. simpl. rewrite occurrences_snoc_eq. f_equal.
           apply (kills_sleep_Abort env this tid tid p).
        -- simpl. rewrite clock_sleep, clock_Abort. lia.
    + split_and!; [done| |].
      * rewrite clock_sleep, clock_Abort. lia.
      * left. apply kills_sleep_Abort.
  - destruct H as (H1&H2&H3); [lia|].
    rewrite clock_sleep, clock_Abort, kills_sleep_Abort in *.
    split_and!; [done|lia|]. destruct H3 as [H3|[H3 H4]]; [by left|right]. split; [done|lia].
Qed.

Lemma new_events_prefix p p' k e :
  (posted p ++ k) `prefix_of` posted p' → e ∈ k → e ∈ new_events p p'.
Proof.
  intros [k' Hk] He. unfold new_events. rewrite Hk, <- app_assoc, drop_app_length.
  apply elem_of_app. by left.
Qed.

Lemma stopped_teardown_stable env this tid :
  teardown_stable env this (fun q => IsRunning tid q = false).
Proof.
  apply worker_teardown_stable; [apply stopped_stable|].
  intros q tid'. apply stopped_Kill.
Qed.

Lemma wait_each_spec env this l q :
  clock (wait_each env this l q) ≤ clock q + 11 * length l ∧
  (∀ tid, tid ∈ l → this ≠ Some tid → IsRunning tid (wait_each env this l q) = false).
Proof.
  revert q. induction l as [|x l IH]; intros q.
  - split; [simpl; lia|]. intros tid Hin. by apply elem_of_nil in Hin.
  - change (wait_each env this (x :: l) q)
      with (wait_each env this l
              (if is_This this x then q else retry_abort env this x 0 q)).
    set (q1 := if is_This this x then q else retry_abort env this x 0 q).
    destruct (IH q1) as [Hc Hr].
    assert (clock q1 ≤ clock q + 11) as Hc1.
    { unfold q1. destruct (is_This this x); [lia|].
      destruct (retry_abort_spec env this x 0 q) as (_&?&_); lia. }
    split; [simpl; lia|].
    intros tid Hin Hne. destruct (decide (tid = x)) as [->|Hx].
    + apply wait_each_stable; [apply stopped_teardown_stable|].
      unfold q1, is_This. rewrite bool_decide_eq_false_2 by done.
      destruct (retry_abort_spec env this x 0 q) as (?&_); [lia|done].
    + apply Hr; [|done]. apply elem_of_cons in Hin as [?|?]; done.
Qed.

Lemma clock_yield env this k q : clock (yield env this k q) = clock q.
Proof.
  apply (yield_stable env this (fun q' => clock q' = clock q)); [|done].
  intros q' tid Hq. by rewrite clock_step.
Qed.

Lemma abort_each_clock env this k l p : clock (abort_each env this k l p) = clock p.
Proof.
  apply (abort_each_stable env this (fun q => clock q = clock p)); [| |done].
  - intros q tid Hq. by rewrite clock_Abort.
  - intros q j Hq. by rewrite clock_yield.
Qed.

Lemma FreeThreads_clock env this p :
  clock (FreeThreads env this p) ≤ clock p + 1 + 11 * length (m_Threads p).
Proof.
  unfold FreeThreads. cbn [clock set_Threads].
  destruct (wait_each_spec env this (m_Threads p)
              (wxMilliSleep env this 21 (abort_each env this 3 (m_Threads p) p)))
    as [Hc _].
  rewrite clock_sleep, abort_each_clock in Hc. lia.
Qed.

Lemma FreeThreads_stops env this p tid :
  tid ∈ m_Threads p → this ≠ Some tid →
  IsRunning tid (FreeThreads env this p) = false.
Proof.
  intros Hin Hne. unfold FreeThreads.
  apply (proj2 (wait_each_spec env this (m_Threads p) _)); done.
Qed.

(** C9. Teardown is bounded.  [FreeThreads] first calls [Abort] on every
    worker of the set, so each has its stop flag set; then it sleeps 21 ms;
    then, for each worker other than the caller, it repeats [Abort] and a
    1 ms sleep while the worker is running, at most 11 times, and calls
    [Kill] only after the 11th round (the counter has passed 10) if the
    worker is still running.  So every such worker is stopped on return,
    the set is empty, and the whole call sleeps at most 1 + 11 n times for
    n workers. *)
Theorem teardown_is_bounded env this p :
  m_Threads (FreeThreads env this p) = [] ∧
  (∀ tid, tid ∈ m_Threads p → signalled tid (FreeThreads env this p)) ∧
  MilliSleep 21 ∈ new_events p (FreeThreads env this p) ∧
  (∀ tid, tid ∈ m_Threads p → this ≠ Some tid →
          IsRunning tid (FreeThreads env this p) = false) ∧
  clock (FreeThreads env this p) ≤ clock p + 1 + 11 * length (m_Threads p) ∧
  (∀ tid q,
     IsRunning tid (retry_abort env this tid 0 q) = false ∧
     clock (retry_abort env this tid 0 q) ≤ clock q + 11 ∧
     kills tid (retry_abort env this tid 0 q) ≤ S (kills tid q) ∧
     (kills tid (retry_abort env this tid 0 q) ≠ kills tid q →
      clock (retry_abort env this tid 0 q) = clock q + 11)).
Proof.
  split_and!.
  - done.
  - intros tid Hin. apply FreeThreads_after_signal.
    + apply worker_teardown_stable; [apply signalled_stable|].
      intros q tid'. apply signalled_Kill.
    + done.
    + by apply abort_each_signals.
  - unfold FreeThreads.
    set (p1 := abort_each env this 3 (m_Threads p) p).
    assert (posted p `prefix_of` posted p1) as [k Hk].
    { by apply abort_each_worker_stable; [apply log_grows_stable|]. }
    apply (new_events_prefix p _ (k ++ [MilliSleep 21]));
      [|apply elem_of_app; right; apply list_elem_of_here].
    cbn [posted set_Threads].
    apply (wait_each_stable env this
             (fun q => (posted p ++ k ++ [MilliSleep 21]) `prefix_of` posted q)).
    + apply worker_teardown_stable; [apply log_grows_stable_from|].
      intros q tid' Hq. by apply prefix_app_r.
    + unfold wxMilliSleep. apply run_stable.
      * apply (ws_step _ (log_grows_stable_from _)).
      * simpl. by rewrite Hk, <- app_assoc.
  - intros tid Hin Hne. by apply FreeThreads_stops.
  - apply FreeThreads_clock.
  - intros tid q.
    destruct (retry_abort_spec env this tid 0 q) as (H1&H2&H3); [lia|].
    split_and!; [done|lia| |].
    + destruct H3 as [->|[-> _]]; lia.
    + intros Hne. destruct H3 as [H3|[_ H3]]; [done|lia].
Qed.

(** *** Reallocation *)

Lemma concurrency_stable M : worker_stable (fun q => m_ConcurrentThreads q = M).
Proof.
  split; try done.
  - intros q tid Hq.
    destruct (Entry_step_cases q tid) as [->|(th&th'&_&_&_&He)]; [done|].
    destruct (se_config _ _ _ _ He) as (_&_&_&Hm&_). by rewrite Hm.
  - intros q tid Hq. destruct (Abort_members tid q) as ((_&_&_&Hm&_)&_). by rewrite Hm.
Qed.

Lemma aborting_stable b : worker_stable (fun q => m_Aborting q = b).
Proof.
  split; try done.
  - intros q tid Hq.
    destruct (Entry_step_cases q tid) as [->|(th&th'&_&_&_&He)]; [done|].
    destruct (se_config _ _ _ _ He) as (_&_&Hm&_&_). by rewrite Hm.
  - intros q tid Hq. destruct (Abort_members tid q) as ((_&_&Hm&_&_)&_). by rewrite Hm.
Qed.

Lemma stopped_alloc tid q :
  IsRunning tid q = false → IsRunning tid (alloc_thread q) = false.
Proof.
  unfold IsRunning. simpl. intros Hq.
  destruct (heap q !! tid) as [th|] eqn:E.
  - by rewrite (lookup_app_l_Some _ _ _ _ E).
  - destruct ((heap q ++ [new_PrivateThread]) !! tid) as [th|] eqn:E'; [|done].
    apply lookup_app_Some in E' as [E'|[_ E']]; [congruence|].
    by apply list_lookup_singleton_Some in E' as [_ <-].
Qed.

Lemma AllocThreads_spec env this p :
  m_ConcurrentThreads (AllocThreads env this p) = m_ConcurrentThreads p ∧
  m_Aborting (AllocThreads env this p) = m_Aborting p ∧
  m_Threads (AllocThreads env this p) =
    seq (length (heap p)) (Z.to_nat (m_ConcurrentThreads p)) ∧
  (∀ tid, tid ∈ m_Threads (AllocThreads env this p) →
          heap (AllocThreads env this p) !! tid = Some new_PrivateThread).
Proof.
  unfold AllocThreads. rewrite for_int_iter, Z.sub_0_r.
  set (p1 := FreeThreads env this p).
  assert (m_ConcurrentThreads p1 = m_ConcurrentThreads p) as HM.
  { apply FreeThreads_stable; [|done..].
    apply worker_teardown_stable; [apply concurrency_stable|done]. }
  assert (m_Aborting p1 = m_Aborting p) as HA.
  { apply FreeThreads_stable; [|done..].
    apply worker_teardown_stable; [apply aborting_stable|done]. }
  assert (length (heap p1) = length (heap p)) as HL.
  { apply FreeThreads_stable; [|done..].
    apply worker_teardown_stable; [apply heap_length_stable|].
    intros q tid. apply heap_length_Kill. }
  destruct (alloc_iter_frame (Z.to_nat (m_ConcurrentThreads p1)) p1)
    as ((_&_&I3&I4)&_&_&_&_&I9&I10).
  rewrite I3, I4, I9, I10, HM, HA, HL. split_and!; try done.
  intros tid [Hlo Hhi]%elem_of_seq.
  rewrite lookup_app_r by lia. apply lookup_replicate_2. lia.
Qed.

Lemma SetConcurrentThreads_config env cpu this n p :
  SetConcurrentThreads env cpu this n p =
  AllocThreads env this
    (emit (DebugLog (resolved cpu n)) (set_ConcurrentThreads (resolved cpu n) p)).
Proof.
  unfold SetConcurrentThreads, resolved.
  destruct (n =? -1)%Z eqn:En; cbn [m_ConcurrentThreads set_ConcurrentThreads].
  - by destruct (cpu =? -1)%Z eqn:Ec.
  - by rewrite En.
Qed.

(** C7, as the code has it. [SetConcurrentThreads(-1)] settles on the CPU
    count, or on 1 when that is -1 too; any other argument is taken as it
    is.  Every call tears the old worker set down (each old worker other
    than the calling thread is no longer running) and allocates anew:
    afterwards the set holds exactly max(M, 0) workers for the count M it
    settled on (M itself unless M is negative), all of them thread objects
    that did not exist before, created and not yet run, with no task. *)
Theorem SetConcurrentThreads_reallocates env cpu this n p :
  (n = (-1)%Z → cpu ≠ (-1)%Z →
     m_ConcurrentThreads (SetConcurrentThreads env cpu this n p) = cpu) ∧
  (n = (-1)%Z → cpu = (-1)%Z →
     m_ConcurrentThreads (SetConcurrentThreads env cpu this n p) = 1%Z) ∧
  (n ≠ (-1)%Z →
     m_ConcurrentThreads (SetConcurrentThreads env cpu this n p) = n) ∧
  Z.of_nat (length (m_Threads (SetConcurrentThreads env cpu this n p))) =
    Z.max 0 (m_ConcurrentThreads (SetConcurrentThreads env cpu this n p)) ∧
  (∀ tid, tid ∈ m_Threads (SetConcurrentThreads env cpu this n p) →
     length (heap p) ≤ tid ∧
     heap (SetConcurrentThreads env cpu this n p) !! tid = Some new_PrivateThread) ∧
  NoDup (m_Threads (SetConcurrentThreads env cpu this n p)) ∧
  (∀ tid, tid ∈ m_Threads p → this ≠ Some tid →
     IsRunning tid (SetConcurrentThreads env cpu this n p) = false).
Proof.
  rewrite SetConcurrentThreads_config.
  set (p0 := emit _ _).
  destruct (AllocThreads_spec env this p0) as (HM&_&HT&HN).
  rewrite HM, HT. cbn [m_ConcurrentThreads p0 emit set_ConcurrentThreads].
  split_and!.
  - intros -> Hc. unfold resolved. simpl. by apply Z.eqb_neq in Hc as ->.
  - by intros -> ->.
  - intros Hn. unfold resolved. by apply Z.eqb_neq in Hn as ->.
  - rewrite length_seq. lia.
  - intros tid Hin. split; [|apply HN; by rewrite HT].
    apply elem_of_seq in Hin. simpl in Hin. lia.
  - apply NoDup_seq.
  - intros tid Hin Hne. unfold AllocThreads. apply for_int_stable.
    + apply stopped_alloc.
    + by apply (FreeThreads_stops env this p0).
Qed.

(** *** Reallocating after an abort *)

Lemma ClearTaskQueue_posted p :
  posted (ClearTaskQueue p) = posted p ++ deletions (m_TaskQueue p).
Proof.
  unfold ClearTaskQueue. cbn [posted set_TaskQueue].
  generalize (m_TaskQueue p) as l. intros l. revert p.
  induction l as [|e l IH]; intros p; simpl.
  - by rewrite app_nil_r.
  - rewrite IH. unfold deletions. simpl.
    destruct (autoDelete e); [|done]. destruct (task e); simpl; [|done].
    by rewrite <- app_assoc.
Qed.

Lemma deletions_elem t q :
  mkElement (Some t) true ∈ q → TaskDelete t ∈ deletions q.
Proof.
  intros Hin. unfold deletions. apply list_elem_of_omap.
  by exists (mkElement (Some t) true).
Qed.

Lemma stopped_AllocThreads env this tid p :
  IsRunning tid p = false → IsRunning tid (AllocThreads env this p) = false.
Proof.
  intros Hp. apply AllocThreads_stable; try done.
  - apply stopped_teardown_stable.
  - apply stopped_alloc.
Qed.

Lemma log_grows_AllocThreads env this l p :
  l `prefix_of` posted p → l `prefix_of` posted (AllocThreads env this p).
Proof.
  intros Hp. apply AllocThreads_stable; try done.
  - apply worker_teardown_stable; [apply log_grows_stable_from|].
    intros q tid Hq. by apply prefix_app_r.
  - intros q Hq. by apply prefix_app_r.
Qed.

Lemma log_grows_FreeThreads env this l p :
  l `prefix_of` posted p → l `prefix_of` posted (FreeThreads env this p).
Proof.
  intros Hp. apply FreeThreads_stable; try done.
  apply worker_teardown_stable; [apply log_grows_stable_from|].
  intros q tid Hq. by apply prefix_app_r.
Qed.

(** *** Waking the workers *)

Lemma Run_lookup tid' q tid :
  heap (wxThread_Run tid' q) !! tid =
  if decide (tid' = tid) then start <$> heap q !! tid' else heap q !! tid.
Proof. unfold wxThread_Run, upd_thread. simpl. apply list_lookup_alter. Qed.

Lemma Run_running tid tid' q :
  IsRunning tid q = true → IsRunning tid (wxThread_Run tid' q) = true.
Proof.
  unfold IsRunning. rewrite Run_lookup. case_decide; [subst|done].
  destruct (heap q !! tid) as [th|]; [|done]. simpl.
  intros Hr%bool_decide_eq_true. unfold start. rewrite Hr. simpl.
  by apply bool_decide_eq_true.
Qed.

Lemma Run_other tid tid' q :
  tid' ≠ tid → IsRunning tid (wxThread_Run tid' q) = IsRunning tid q.
Proof. intros Hne. unfold IsRunning. rewrite Run_lookup. by rewrite decide_False. Qed.

Lemma RunThreads_fold_wakes this l q tid th :
  m_Aborting q = false → tid ∈ l → this ≠ Some tid →
  heap q !! tid = Some th → th_state th = Created →
  IsRunning tid
    (foldl (fun q tid =>
              if negb (m_Aborting q) && negb (IsRunning tid q) && negb (is_This this tid)
              then wxThread_Run tid q else q) q l) = true.
Proof.
  intros Ha Hin Hne Hth Hst. revert q Ha Hth Hin.
  induction l as [|x l IH]; intros q Ha Hth Hin; [by apply elem_of_nil in Hin|].
  simpl. rewrite Ha. simpl.
  destruct (decide (tid = x)) as [->|Hx].
  - unfold is_This. rewrite (bool_decide_eq_false_2 (this = Some x)) by done.
    assert (IsRunning x q = false) as ->.
    { unfold IsRunning. rewrite Hth, Hst. done. }
    simpl. apply foldl_stable.
    + unfold IsRunning. rewrite Run_lookup, decide_True, Hth by done. simpl.
      unfold start. rewrite Hst. done.
    + intros b y _ Hb. case_match; [by apply Run_running|done].
  - apply elem_of_cons in Hin as [?|Hin]; [done|].
    case_match; [|by apply IH]. apply IH; [done| |done].
    by rewrite Run_lookup, decide_False.
Qed.

Lemma RunThreads_fold_log this l q :
  NoDup l → m_Aborting q = false →
  posted
    (foldl (fun q tid =>
              if negb (m_Aborting q) && negb (IsRunning tid q) && negb (is_This this tid)
              then wxThread_Run tid q else q) q l) =
  posted q ++ map ThreadRun (List.filter (eligible this q) l).
Proof.
  intros Hnd. revert q. induction Hnd as [|x l Hx Hnd IH]; intros q Ha.
  - simpl. by rewrite app_nil_r.
  - cbn [foldl List.filter]. rewrite Ha. cbn [negb andb].
    change (negb (IsRunning x q) && negb (is_This this x)) with (eligible this q x).
    destruct (eligible this q x) eqn:E.
    + rewrite IH by done. cbn [posted wxThread_Run upd_thread set_heap emit map].
      rewrite <- app_assoc. cbn [app]. do 3 f_equal.
      apply List.filter_ext_in. intros y Hy%list_elem_of_In.
      unfold eligible. rewrite Run_other; [done|]. by intros ->.
    + by rewrite IH.
Qed.

Lemma RunThreads_not_restarted this p tid th :
  heap p !! tid = Some th → th_state th ≠ Created → th_state th ≠ Running →
  IsRunning tid (RunThreads this p) = false.
Proof.
  intros Hth Hc Hr.
  assert (∃ th', heap (RunThreads this p) !! tid = Some th' ∧
                 th_state th' = th_state th) as (th'&Hth'&Hst).
  { unfold RunThreads. apply foldl_stable; [by exists th|].
    intros b x _ (th'&Hth'&Hst). case_match; [|by exists th'].
    rewrite Run_lookup. case_decide as E; [subst|by exists th'].
    rewrite Hth'. simpl. exists (start th'). split; [done|].
    unfold start. destruct (th_state th') eqn:E; simpl; congruence. }
  unfold IsRunning. rewrite Hth', Hst. by apply bool_decide_eq_false_2.
Qed.

Lemma run_all_stopped sched p :
  Forall (fun th => th_state th ≠ Running) (heap p) → run sched p = p.
Proof.
  intros Hp. unfold run. induction sched as [|x l IH]; [done|].
  cbn [foldl]. assert (Entry_step p x = p) as ->; [|done].
  unfold Entry_step. destruct (heap p !! x) as [th|] eqn:E; [|done].
  pose proof (Forall_lookup_1 _ _ _ _ Hp E) as Hs. simpl in Hs.
  by destruct (th_state th).
Qed.


(** *** A pool without workers *)

Lemma Entry_step_Aborting q tid : m_Aborting (Entry_step q tid) = m_Aborting q.
Proof. by apply (ws_step _ (aborting_stable (m_Aborting q))). Qed.

Lemma AddTask_Aborting this t d p :
  m_Aborting (snd (AddTask this t d p)) = m_Aborting p.
Proof.
  unfold AddTask. destruct (m_Aborting p) eqn:Ha; cbn [snd].
  - destruct d; [|done]. by destruct t.
  - case_match; [|done].
    by destruct (RunThreads_members this
      (set_Done false (set_TaskQueue (m_TaskQueue p ++ [mkElement t d]) p)))
      as ((_&_&->&_)&_).
Qed.

Lemma perform_Aborting env cpu p a :
  m_Aborting p = false → m_Aborting (perform env cpu p a) = false.
Proof.
  intros Ha. destruct a; simpl.
  - by rewrite AddTask_Aborting.
  - done.
  - unfold BatchEnd.
    by destruct (RunThreads_members this (set_Batching false p)) as ((_&_&->&_)&_).
  - done.
  - rewrite SetConcurrentThreads_config.
    by destruct (AllocThreads_spec env this
      (emit (DebugLog (resolved cpu concurrentThreads))
         (set_ConcurrentThreads (resolved cpu concurrentThreads) p))) as (_&->&_).
  - by rewrite Entry_step_Aborting.
Qed.

Lemma reachable_not_aborting env cpu p : reachable env cpu p → m_Aborting p = false.
Proof.
  induction 1 as [id n|p a _ IH]; [|by apply perform_Aborting].
  unfold cbThreadPool_new. rewrite SetConcurrentThreads_config.
  by destruct (AllocThreads_spec env None
    (emit (DebugLog (resolved cpu n))
       (set_ConcurrentThreads (resolved cpu n)
          (mkPool id true false 0 false 0 [] [] [] [] 0)))) as (_&->&_).
Qed.

Lemma dormant_RunThreads E this p : dormant E p → RunThreads this p = p.
Proof. intros (Hm&_). unfold RunThreads. by rewrite Hm. Qed.

Lemma dormant_AddTask E this t d p :
  dormant E p → dormant E (snd (AddTask this t d p)).
Proof.
  intros (Hm&Ha&He). unfold AddTask. destruct (m_Aborting p); cbn [snd].
  - destruct d; [|done]. destruct t as [a|]; [|done].
    split_and!; [done..|]. unfold delete_task.
    by rewrite executions_emit, app_nil_r.
  - case_match; [|done]. by rewrite (dormant_RunThreads E).
Qed.

Lemma dormant_perform env cpu E p a :
  ordinary a → dormant E p → dormant E (perform env cpu p a).
Proof.
  intros Ho Hp. destruct a; simpl in *; try done.
  - by apply dormant_AddTask.
  - unfold BatchEnd. by rewrite (dormant_RunThreads E).
  - destruct Hp as (Hm&Ha&He). split_and!.
    + by destruct (ws_step _ (same_config_stable p) p tid) as (_&_&_&_&->);
        [repeat split|].
    + by apply (ws_step _ all_aborted_stable).
    + by destruct (ws_step _ (no_execution_stable p) p tid) as [_ ->].
Qed.

Lemma dormant_history env cpu E acts p :
  Forall ordinary acts → dormant E p → dormant E (foldl (perform env cpu) p acts).
Proof.
  intros Ho. revert p. induction Ho as [|a acts Ha _ IH]; intros p Hp; [done|].
  simpl. apply IH. by apply dormant_perform.
Qed.

Lemma reachable_history env cpu acts p :
  reachable env cpu p → reachable env cpu (foldl (perform env cpu) p acts).
Proof.
  revert p. induction acts as [|a acts IH]; intros p Hp; [done|].
  simpl. apply IH. by constructor.
Qed.

(** C10. Only -1 stands for "auto": any other argument of
    [SetConcurrentThreads] becomes the worker count as it is.  For such an
    argument below 1 (zero, or negative), the pool is left without workers,
    and stays so whatever is submitted and however the threads are
    scheduled: every submission is accepted and appended to the queue, and
    no task is ever executed. *)
Theorem explicit_count_taken_verbatim env cpu this n p :
  reachable env cpu p → n ≠ (-1)%Z →
  m_ConcurrentThreads (SetConcurrentThreads env cpu this n p) = n ∧
  ((n < 1)%Z →
     m_Threads (SetConcurrentThreads env cpu this n p) = [] ∧
     ∀ acts, Forall ordinary acts →
       m_Threads (foldl (perform env cpu)
                    (SetConcurrentThreads env cpu this n p) acts) = [] ∧
       executions (foldl (perform env cpu)
                     (SetConcurrentThreads env cpu this n p) acts) =
         executions (SetConcurrentThreads env cpu this n p) ∧
       ∀ this' t d,
         fst (AddTask this' t d
                (foldl (perform env cpu)
                   (SetConcurrentThreads env cpu this n p) acts)) = true ∧
         m_TaskQueue (snd (AddTask this' t d
                (foldl (perform env cpu)
                   (SetConcurrentThreads env cpu this n p) acts))) =
           m_TaskQueue (foldl (perform env cpu)
                   (SetConcurrentThreads env cpu this n p) acts) ++ [mkElement t d] ∧
         executions (snd (AddTask this' t d
                (foldl (perform env cpu)
                   (SetConcurrentThreads env cpu this n p) acts))) =
           executions (SetConcurrentThreads env cpu this n p)).
Proof.
  intros Hr Hn.
  assert (reachable env cpu (SetConcurrentThreads env cpu this n p)) as Hr'
    by apply (reach_perform env cpu p (Do_SetConcurrentThreads this n) Hr).
  assert (resolved cpu n = n) as Hres.
  { unfold resolved. by apply Z.eqb_neq in Hn as ->. }
  destruct (reachable_inv _ _ _ Hr) as [_ Hk].
  revert Hr'. rewrite SetConcurrentThreads_config, Hres.
  set (p0 := emit (DebugLog n) (set_ConcurrentThreads n p)). intros Hr'.
  destruct (AllocThreads_spec env this p0) as (HM&_&HT&_).
  split; [by rewrite HM|]. intros Hlt.
  assert (AllocThreads env this p0 = FreeThreads env this p0) as Halloc.
  { unfold AllocThreads. rewrite for_int_iter.
    replace (Z.to_nat _) with 0; [done|].
    assert (m_ConcurrentThreads (FreeThreads env this p0) = n) as ->; [|lia].
    apply FreeThreads_stable; [|done..].
    apply worker_teardown_stable; [apply concurrency_stable|done]. }
  assert (dormant (executions (AllocThreads env this p0)) (AllocThreads env this p0))
    as Hd.
  { split_and!; [by rewrite Halloc| |done].
    rewrite Halloc. by apply FreeThreads_all_aborted. }
  split; [by destruct Hd|]. intros acts Hacts.
  pose proof (dormant_history env cpu _ acts _ Hacts Hd) as Hd'.
  pose proof (reachable_history env cpu acts _ Hr') as Hr''.
  set (p'' := foldl _ _ acts) in *.
  split_and!; [by destruct Hd'|by destruct Hd' as (_&_&?)|].
  intros this' t d.
  destruct (AddTask_accepts this' t d p'') as (q&E&Hq&_);
    [by eapply reachable_not_aborting|].
  destruct (dormant_AddTask _ this' t d p'' Hd') as (_&_&He).
  rewrite E in *. done.
Qed.

(** ** The theorems at concrete pools *)

Lemma pool_of_two_reachable : reachable quiet 4 pool_of_two.
Proof. apply reach_new. Qed.

Lemma pool_busy_reachable : reachable quiet 4 pool_busy.
Proof. apply reachable_history, reach_new. Qed.

Lemma done_flag_preservation_witness :
  done_iff pool_of_two ∧
  done_iff (snd (AddTask None (Some 5) true pool_of_two)) ∧
  done_iff (OnThreadTaskDone pool_of_two) ∧
  (m_Done (AbortAllTasks quiet None pool_pending) = m_Done pool_pending ∧
   m_Counter (AbortAllTasks quiet None pool_pending) = m_Counter pool_pending ∧
   (done_implies_idle pool_pending →
    done_implies_idle (AbortAllTasks quiet None pool_pending))).
Proof.
  pose proof (done_flag_preservation quiet 4) as (H1&H2&H3&H4).
  split; [apply H1|]. split; [apply H2, H1|]. split; [apply H3, H1|].
  exact (proj2 (H4 None pool_pending) (fun k => eq_refl)).
Defined.


Lemma AddTask_rejected_while_aborting_witness :
  m_Aborting pool_mid_abort = true ∧
  fst (AddTask None (Some 9) true pool_mid_abort) = false ∧
  m_TaskQueue (snd (AddTask None (Some 9) true pool_mid_abort)) =
    m_TaskQueue pool_mid_abort.
Proof.
  assert (m_Aborting pool_mid_abort = true) as H by reflexivity.
  split; [exact H|].
  pose proof (AddTask_rejected_while_aborting None (Some 9) true pool_mid_abort H)
    as (H1&H2&_).
  split; assumption.
Defined.

Lemma queue_is_fifo_witness :
  m_Aborting pool_of_two = false ∧
  m_TaskQueue (submit_all None two_tasks pool_of_two) =
    m_TaskQueue pool_of_two ++ map element_of two_tasks.
Proof.
  assert (m_Aborting pool_of_two = false) as H by reflexivity.
  split; [exact H|].
  pose proof (queue_is_fifo None pool_of_two H) as (_&H2&_).
  apply (H2 two_tasks).
Defined.


Lemma SetConcurrentThreads_reallocates_witness :
  m_ConcurrentThreads (SetConcurrentThreads quiet 4 None (-1) pool_of_two) = 4%Z ∧
  m_ConcurrentThreads (SetConcurrentThreads quiet (-1) None (-1) pool_of_two) = 1%Z ∧
  m_ConcurrentThreads (SetConcurrentThreads quiet 4 None 3 pool_of_two) = 3%Z.
Proof.
  pose proof (SetConcurrentThreads_reallocates quiet 4 None (-1) pool_of_two)
    as (H1&_).
  pose proof (SetConcurrentThreads_reallocates quiet (-1) None (-1) pool_of_two)
    as (_&H2&_).
  pose proof (SetConcurrentThreads_reallocates quiet 4 None 3 pool_of_two)
    as (_&_&H3&_).
  split; [apply H1; [reflexivity|lia]|].
  split; [apply H2; reflexivity|].
  apply H3. lia.
Defined.


Lemma teardown_is_bounded_witness :
  0 ∈ m_Threads pool_busy ∧
  IsRunning 0 (FreeThreads quiet None pool_busy) = false ∧
  clock (FreeThreads quiet None pool_busy) ≤
    clock pool_busy + 1 + 11 * length (m_Threads pool_busy).
Proof.
  assert (0 ∈ m_Threads pool_busy) as Hin by (vm_compute; apply list_elem_of_here).
  pose proof (teardown_is_bounded quiet None pool_busy) as (_&_&_&H4&H5&_).
  split_and!; [exact Hin| |exact H5].
  apply (H4 0 Hin). discriminate.
Defined.

Lemma explicit_count_taken_verbatim_witness :
  reachable quiet 4 pool_of_two ∧
  m_ConcurrentThreads (SetConcurrentThreads quiet 4 None 0 pool_of_two) = 0%Z ∧
  m_Threads (SetConcurrentThreads quiet 4 None 0 pool_of_two) = [].
Proof.
  assert (0 ≠ -1)%Z as Hn by lia.
  pose proof (explicit_count_taken_verbatim quiet 4 None 0 pool_of_two
                pool_of_two_reachable Hn) as (H1&H2).
  split_and!; [apply pool_of_two_reachable|exact H1|].
  apply H2. lia.
Defined.

(** ** Where the statements about the worker count fail *)

Lemma pool_negative_reachable : reachable quiet 4 pool_negative.
Proof.
  apply (reach_perform quiet 4 pool_of_two (Do_SetConcurrentThreads None (-5))).
  apply reach_new.
Qed.

(** C7 fails for a negative count, and for a call made by a worker:
    [SetConcurrentThreads(-5)] settles on -5 and leaves the pool with no
    worker, not with -5 of them; and when worker 0 reconfigures the pool
    from inside its task, worker 0 is still running afterwards. *)
Lemma SetConcurrentThreads_negative_or_from_worker :
  m_ConcurrentThreads (SetConcurrentThreads quiet 4 None (-5) pool_of_two) = (-5)%Z ∧
  m_Threads (SetConcurrentThreads quiet 4 None (-5) pool_of_two) = [] ∧
  Z.of_nat (length (m_Threads (SetConcurrentThreads quiet 4 None (-5) pool_of_two)))
    ≠ m_ConcurrentThreads (SetConcurrentThreads quiet 4 None (-5) pool_of_two) ∧
  0 ∈ m_Threads pool_in_task ∧
  IsRunning 0 (SetConcurrentThreads quiet 4 (Some 0) 2 pool_in_task) = true.
Proof.
  split_and!; try by vm_compute.
  vm_compute. apply list_elem_of_here.
Qed.

(** ** More about the code: the worker *)

Lemma occurrences_snoc e e' l :
  occurrences e (l ++ [e']) = occurrences e l + (if bool_decide (e' = e) then 1 else 0).
Proof.
  case_bool_decide as E.
  - subst. rewrite occurrences_snoc_eq. lia.
  - rewrite occurrences_snoc_ne by done. lia.
Qed.

Lemma Entry_step_detail p tid th :
  heap p !! tid = Some th → th_state th = Running →
  ∃ th', heap (Entry_step p tid) = <[tid := th']> (heap p) ∧
         step_detail p (Entry_step p tid) th th'.
Proof.
  intros Hth Hrun. unfold Entry_step. rewrite Hth, Hrun. unfold Entry_at.
  destruct th as [pt ab st de pc el dw]; simpl in *; subst st.
  destruct pc, ab, de; simpl;
    unfold break_if_Aborted, Aborted, Abort, GetNextElement, OnThreadTaskDone,
      goto, leave, upd_thread, delete_task; simpl; rewrite ?Hth; simpl.
  all: repeat case_match; simplify_eq/=.
  all: rewrite ?list_alter_alter_eq.
  all: erewrite (alter_insert _ _ _ _ Hth).
  all: eexists; split; [reflexivity|].
  all: split; simpl; try done.
  all: try match goal with H : m_TaskQueue ?p = _ |- _ => rewrite ?H end.
  all: try (by left). all: try (by right).
  all: try (intros _; right; split; [done|simpl; lia]).
  all: try (right; split; [done|]; eexists; split_and!; try done; congruence).
  all: try (unfold all_done_posts; simpl; rewrite ?List.filter_app; simpl;
            left; by rewrite ?app_nil_r).
  all: try (right; split_and!; try done; by apply Z.eqb_eq).
  all: try (intros t Hpt; unfold executed, awaiting, queued, Busy in *; simpl in *;
            rewrite ?occurrences_snoc; simpl;
            try specialize (Hpt eq_refl); simplify_eq/=;
            repeat case_bool_decide; simplify_eq/=; lia).
  all: try (intros t; unfold deleted, to_delete, owned in *; simpl in *;
            rewrite ?occurrences_snoc; simpl;
            repeat match goal with
                   | H : task _ = _ |- _ => rewrite !H; clear H
                   | H : autoDelete _ = _ |- _ => rewrite !H; clear H
                   end;
            simpl; repeat case_bool_decide; repeat case_match; simplify_eq/=; lia).
  all: try (intros t; unfold deleted, in_hand, queued in *; simpl in *;
            rewrite ?occurrences_snoc; simpl;
            repeat match goal with
                   | H : task _ = _ |- _ => rewrite !H; clear H
                   | H : autoDelete _ = _ |- _ => rewrite ?H; clear H
                   end;
            simpl; repeat case_bool_decide; repeat case_match; simplify_eq/=; lia).
  all: try (intros Ha Hd Hpt; unfold executions, fetched, Busy in *; simpl in *;
            rewrite ?List.filter_app; simpl;
            try specialize (Hpt eq_refl); try rewrite <- Hpt;
            repeat match goal with H : task _ = _ |- _ => rewrite !H; clear H end;
            simpl; rewrite ?app_nil_r, <- ?app_assoc; by split_and!).
Qed.

Lemma Entry_step_detail_cases p tid :
  Entry_step p tid = p ∨
  ∃ th th', heap p !! tid = Some th ∧ th_state th = Running ∧
            heap (Entry_step p tid) = <[tid := th']> (heap p) ∧
            step_detail p (Entry_step p tid) th th'.
Proof.
  destruct (heap p !! tid) as [th|] eqn:Hth.
  - destruct (decide (th_state th = Running)) as [Hr|Hr].
    + right. destruct (Entry_step_detail p tid th Hth Hr) as (th'&?&?). eauto 6.
    + left. unfold Entry_step. rewrite Hth. by destruct (th_state th).
  - left. unfold Entry_step. by rewrite Hth.
Qed.

Lemma Entry_step_other p tid tid' :
  tid ≠ tid' → heap (Entry_step p tid') !! tid = heap p !! tid.
Proof.
  intros Hne. destruct (Entry_step_cases p tid') as [->|(th&th'&_&_&->&_)]; [done|].
  by rewrite list_lookup_insert_ne.
Qed.

Lemma yield_other env this k q tid :
  tid ∉ env (slot (clock q) k) → heap (yield env this k q) !! tid = heap q !! tid.
Proof.
  intros Hni. unfold yield, run.
  apply (foldl_stable (fun q' => heap q' !! tid = heap q !! tid)); [done|].
  intros b x Hx Hb. rewrite Entry_step_other; [done|]. intros ->.
  by apply list_elem_of_filter in Hx as [_ Hx].
Qed.

(** X1. The workers only ever take entries from the head of the queue:
    whatever the schedule, the queue afterwards is a suffix of the queue
    before; no worker step adds an entry or reorders the queue. *)
Theorem workers_only_pop sched p :
  m_TaskQueue (run sched p) `suffix_of` m_TaskQueue p.
Proof.
  apply (run_stable (fun q => m_TaskQueue q `suffix_of` m_TaskQueue p)); [|done].
  intros q tid Hq.
  destruct (Entry_step_detail_cases q tid) as [->|(th&th'&_&_&_&Hd)]; [done|].
  destruct (sd_queue _ _ _ _ Hd) as [->|(_&e&He&_)]; [done|].
  etrans; [|done]. rewrite He. by apply suffix_cons_r.
Qed.

(** X2. A null task is accepted and queued like any other.  The worker
    that fetches it takes it for the end of the work: it leaves its loop
    (it is no longer running), reports nothing, and the entries queued
    behind the null task stay in the queue. *)
Theorem null_task_ends_worker this d p tid th rest :
  m_Aborting p = false →
  (fst (AddTask this None d p) = true ∧
   m_TaskQueue (snd (AddTask this None d p)) = m_TaskQueue p ++ [mkElement None d]) ∧
  (heap p !! tid = Some th → th_state th = Running → th_pc th = L_fetch →
   m_TaskQueue p = mkElement None d :: rest →
   IsRunning tid (Entry_step p tid) = false ∧
   m_TaskQueue (Entry_step p tid) = rest ∧
   posted (Entry_step p tid) = posted p ∧
   m_Counter (Entry_step p tid) = m_Counter p).
Proof.
  intros Ha. split.
  - by destruct (AddTask_accepts this None d p Ha) as (p'&->&Hq&_).
  - intros Hth Hrun Hpc Hq.
    unfold Entry_step, Entry_at. rewrite Hth, Hrun, Hpc.
    rewrite (GetNextElement_head _ _ _ _ Hq). simpl. split_and!; try done.
    unfold IsRunning, leave, upd_thread. simpl.
    rewrite !list_lookup_alter, !decide_True by done.
    by rewrite Hth.
Qed.

Lemma abort_rank_bounds l : 1 ≤ abort_rank l ≤ 7.
Proof. destruct l; simpl; lia. Qed.

Lemma steps_to_stop_0 tid p : steps_to_stop tid p = 0 → IsRunning tid p = false.
Proof.
  unfold steps_to_stop, IsRunning. destruct (heap p !! tid) as [th|]; [|done].
  destruct (th_state th); try done.
  pose proof (abort_rank_bounds (th_pc th)). lia.
Qed.

Lemma steps_to_stop_own tid p :
  signalled tid p →
  steps_to_stop tid (Entry_step p tid) ≤ steps_to_stop tid p - 1.
Proof.
  intros Hs. destruct (Entry_step_detail_cases p tid) as [E|(th&th'&Hth&Hr&Hh&Hd)].
  - rewrite E. unfold steps_to_stop, Entry_step in *.
    destruct (heap p !! tid) as [th|] eqn:Hth; [|lia].
    destruct (th_state th) eqn:Hr; try lia.
    destruct (Entry_step_detail p tid th Hth Hr) as (th'&Hh&Hd).
    unfold Entry_step in Hh. rewrite Hth, Hr, E in Hh.
    assert (heap p !! tid = Some th') as Hth'.
    { rewrite Hh at 1. apply list_lookup_insert_eq. by eapply lookup_lt_Some. }
    assert (th' = th) as -> by congruence.
    destruct (sd_rank _ _ _ _ Hd (Hs _ Hth)) as [?|[_ ?]]; [congruence|lia].
  - unfold steps_to_stop. rewrite Hh, Hth, Hr.
    rewrite list_lookup_insert_eq by by eapply lookup_lt_Some.
    destruct (sd_rank _ _ _ _ Hd (Hs _ Hth)) as [->|[-> ?]]; lia.
Qed.

Lemma steps_to_stop_run tid sched p :
  signalled tid p →
  steps_to_stop tid (run sched p) ≤ steps_to_stop tid p - count_occ Nat.eq_dec sched tid.
Proof.
  revert p. induction sched as [|x l IH]; intros p Hs; [simpl; lia|].
  change (run (x :: l) p) with (run l (Entry_step p x)).
  assert (signalled tid (Entry_step p x)) as Hs'
    by by apply (ws_step _ (signalled_stable tid)).
  specialize (IH _ Hs'). cbn [count_occ]. destruct (Nat.eq_dec x tid) as [->|Hx].
  - pose proof (steps_to_stop_own tid p Hs). lia.
  - assert (steps_to_stop tid (Entry_step p x) = steps_to_stop tid p) as E; [|lia].
    unfold steps_to_stop. by rewrite Entry_step_other.
Qed.


(** *** No task is executed more often than it was submitted *)

Lemma awaiting_sum_insert t h i th th' :
  h !! i = Some th →
  awaiting_sum t (<[i := th']> h) + awaiting t th = awaiting_sum t h + awaiting t th'.
Proof.
  revert i. induction h as [|x h IH]; intros [|i] Hi; simplify_eq/=; [lia|].
  specialize (IH i Hi). lia.
Qed.

Lemma awaiting_sum_alter t h i f :
  (∀ th, awaiting t (f th) = awaiting t th) →
  awaiting_sum t (alter f i h) = awaiting_sum t h.
Proof.
  intros Hf. revert i. induction h as [|x h IH]; intros [|i]; simpl; try done.
  - by rewrite Hf.
  - f_equal. apply IH.
Qed.

Lemma awaiting_sum_app t h1 h2 :
  awaiting_sum t (h1 ++ h2) = awaiting_sum t h1 + awaiting_sum t h2.
Proof. induction h1 as [|x h1 IH]; simpl; [done|]. rewrite IH. lia. Qed.

Lemma queued_app t q1 q2 : queued t (q1 ++ q2) = queued t q1 + queued t q2.
Proof. unfold queued. by rewrite List.filter_app, length_app. Qed.

Lemma executed_Abort t tid q : executed t (Abort tid q) = executed t q.
Proof.
  unfold executed. rewrite Abort_posted, occurrences_app.
  destruct (heap q !! tid) as [th|]; [destruct (m_pTask th)|];
    unfold occurrences; simpl; lia.
Qed.

Lemma executed_deletions t q : occurrences (Execute t) (deletions q) = 0.
Proof.
  unfold deletions. induction q as [|e q IH]; [done|]. simpl.
  destruct (autoDelete e); [|done]. destruct (task e); [|done]. simpl.
  apply IH.
Qed.

Lemma claims_on_stable t k :
  worker_stable (fun q => busy_consistent q ∧ claims_on t q ≤ k).
Proof.
  destruct busy_consistent_stable as [B1 B2 B3 B4].
  split.
  - intros q ms [Hb Hc]. split; [by apply B1|].
    unfold claims_on, executed in *. simpl. by rewrite occurrences_snoc_ne.
  - intros q n [Hb Hc]. split; [by apply B2|done].
  - intros q tid [Hb Hc]. split; [by apply B3|].
    destruct (Entry_step_detail_cases q tid) as [->|(th&th'&Hth&_&Hh&Hd)]; [done|].
    destruct Hb as [Hok _].
    destruct (Forall_lookup_1 _ _ _ _ Hok Hth) as (_&Hpt&_).
    pose proof (sd_once _ _ _ _ Hd t Hpt) as Ho.
    pose proof (awaiting_sum_insert t (heap q) tid th th' Hth) as Hi.
    unfold claims_on in *. rewrite Hh. lia.
  - intros q tid [Hb Hc]. split; [by apply B4|].
    unfold claims_on in *. rewrite executed_Abort, Abort_heap.
    destruct (Abort_members tid q) as (_&_&_&->&_).
    by rewrite awaiting_sum_alter.
Qed.

Lemma claims_on_Kill t k q tid :
  busy_consistent q ∧ claims_on t q ≤ k →
  busy_consistent (wxThread_Kill tid q) ∧ claims_on t (wxThread_Kill tid q) ≤ k.
Proof.
  intros [Hb Hc]. split; [by apply busy_consistent_Kill|].
  unfold claims_on, executed in *. simpl. rewrite occurrences_snoc_ne by done.
  by rewrite awaiting_sum_alter.
Qed.

Lemma claims_on_Run t q tid :
  claims_on t (wxThread_Run tid q) = claims_on t q.
Proof.
  unfold claims_on, executed. simpl. rewrite occurrences_snoc_ne by done.
  rewrite awaiting_sum_alter; [done|]. intros []; unfold start; simpl. by case_match.
Qed.

Lemma claims_on_alloc t q : claims_on t (alloc_thread q) = claims_on t q.
Proof.
  unfold claims_on, executed. simpl. rewrite occurrences_snoc_ne by done.
  rewrite awaiting_sum_app. simpl. lia.
Qed.

Lemma busy_consistent_alloc q : busy_consistent q → busy_consistent (alloc_thread q).
Proof.
  intros [Hok Hc]. split; simpl.
  - apply Forall_app. split; [done|]. apply Forall_singleton.
    unfold thread_ok, Busy, is_Some. simpl. split_and!; [|done|done].
    split; [by intros [? ?]|done].
  - rewrite busy_count_app. simpl. lia.
Qed.

Lemma claims_on_AllocThreads env this t k p :
  busy_consistent p ∧ claims_on t p ≤ k →
  busy_consistent (AllocThreads env this p) ∧ claims_on t (AllocThreads env this p) ≤ k.
Proof.
  intros Hp. apply AllocThreads_stable; try done.
  - apply worker_teardown_stable; [apply claims_on_stable|].
    intros q tid. apply claims_on_Kill.
  - intros q [Hb Hc]. split; [by apply busy_consistent_alloc|].
    by rewrite claims_on_alloc.
Qed.

Lemma claims_on_FreeThreads env this t k p :
  busy_consistent p ∧ claims_on t p ≤ k →
  busy_consistent (FreeThreads env this p) ∧ claims_on t (FreeThreads env this p) ≤ k.
Proof.
  intros Hp. apply FreeThreads_stable; try done.
  apply worker_teardown_stable; [apply claims_on_stable|].
  intros q tid. apply claims_on_Kill.
Qed.

Lemma claims_on_ClearTaskQueue t k p :
  busy_consistent p ∧ claims_on t p ≤ k →
  busy_consistent (ClearTaskQueue p) ∧ claims_on t (ClearTaskQueue p) ≤ k.
Proof.
  intros [[Hok Hcn] Hc]. destruct (ClearTaskQueue_heap p) as (Hh&Hm&_).
  split; [split; by rewrite ?Hh, ?Hm|].
  unfold claims_on, executed in *.
  rewrite ClearTaskQueue_posted, occurrences_app, executed_deletions, Hh.
  change (m_TaskQueue (ClearTaskQueue p)) with (@nil cbTaskElement).
  change (queued t []) with 0. lia.
Qed.

Lemma claims_on_RunThreads this t k p :
  busy_consistent p ∧ claims_on t p ≤ k →
  busy_consistent (RunThreads this p) ∧ claims_on t (RunThreads this p) ≤ k.
Proof.
  intros Hp. unfold RunThreads. apply foldl_stable; [done|].
  intros b x _ [Hb Hc]. case_match; [|done]. split.
  - destruct Hb as [Hok Hcn]. split; simpl.
    + apply Forall_alter; [done|]. intros [] _; unfold start; simpl. by case_match.
    + rewrite busy_count_alter; [done|]. intros []; unfold start; simpl. by case_match.
  - by rewrite claims_on_Run.
Qed.

Lemma claims_on_perform env cpu t k p a :
  busy_consistent p ∧ claims_on t p ≤ k →
  busy_consistent (perform env cpu p a) ∧
  claims_on t (perform env cpu p a) ≤ k + submitted t a.
Proof.
  intros Hp. destruct a as [this t' d| |this|this|this n|tid]; simpl.
  - unfold AddTask. destruct (m_Aborting p); cbn [snd].
    + assert (busy_consistent p ∧ claims_on t p ≤ k + submitted t (Do_AddTask this t' d))
        as Hp' by (destruct Hp; split; [done|lia]).
      destruct d; [|done]. destruct t' as [a|]; [|done]. simpl.
      destruct Hp' as [Hb Hc]. split; [done|].
      unfold claims_on, executed in *. simpl. by rewrite occurrences_snoc_ne.
    + set (p1 := set_Done false _).
      assert (busy_consistent p1 ∧
              claims_on t p1 ≤ k + submitted t (Do_AddTask this t' d)) as Hp1.
      { destruct Hp as [Hb Hc]. split; [done|].
        unfold claims_on, executed in *. simpl. rewrite queued_app.
        unfold queued at 2. simpl. destruct t' as [a|]; simpl.
        - case_bool_decide as E1; case_bool_decide as E2; simplify_eq/=; lia.
        - lia. }
      case_match; [by apply claims_on_RunThreads|done].
  - destruct Hp as [Hb Hc]. split; [done|].
    change (claims_on t (BatchBegin p)) with (claims_on t p). lia.
  - destruct (claims_on_RunThreads this t k (set_Batching false p)) as [? ?]; [done|].
    split; [done|]. unfold BatchEnd. lia.
  - unfold AbortAllTasks.
    destruct (claims_on_AllocThreads env this t k
                (FreeThreads env this
                   (yield env this 2 (ClearTaskQueue (yield env this 1 (set_Aborting true p))))))
      as [Hb Hc].
    { apply claims_on_FreeThreads.
      apply (before_teardown_stable env this
               (fun q => busy_consistent q ∧ claims_on t q ≤ k)).
      - apply (ws_step _ (claims_on_stable t k)).
      - apply claims_on_ClearTaskQueue.
      - done. }
    split; [done|]. cbn [submitted]. rewrite Nat.add_0_r. exact Hc.
  - rewrite SetConcurrentThreads_config.
    destruct (claims_on_AllocThreads env this t k
                (emit (DebugLog (resolved cpu n))
                   (set_ConcurrentThreads (resolved cpu n) p))) as [Hb Hc].
    { destruct Hp as [Hb Hc]. split; [done|].
      unfold claims_on, executed in *. simpl. by rewrite occurrences_snoc_ne. }
    split; [done|lia].
  - destruct (ws_step _ (claims_on_stable t k) p tid Hp). split; [done|lia].
Qed.

Lemma claims_on_history env cpu t acts k p :
  busy_consistent p ∧ claims_on t p ≤ k →
  busy_consistent (foldl (perform env cpu) p acts) ∧
  claims_on t (foldl (perform env cpu) p acts) ≤ k + submissions t acts.
Proof.
  revert k p. induction acts as [|a acts IH]; intros k p Hp.
  - simpl. destruct Hp. unfold submissions. simpl. split; [done|lia].
  - simpl. destruct (IH _ _ (claims_on_perform env cpu t k p a Hp)) as [Hb Hc].
    split; [done|]. unfold submissions in *. simpl. lia.
Qed.

Lemma claims_on_new env cpu t id n :
  busy_consistent (cbThreadPool_new env cpu id n) ∧
  claims_on t (cbThreadPool_new env cpu id n) ≤ 0.
Proof.
  unfold cbThreadPool_new. rewrite SetConcurrentThreads_config.
  apply claims_on_AllocThreads. split; [split; [constructor|done]|].
  unfold claims_on, executed, occurrences. simpl. lia.
Qed.

(** X4. No task is executed more often than it was submitted.  In a pool
    built by the constructor, after any history of submissions, batches,
    aborts, reconfigurations and worker steps, with any number of workers
    and any interleaving, the number of times [Execute] was entered on a
    task is at most the number of [AddTask] calls that passed it; a task
    that was never submitted is never executed. *)
Theorem executed_at_most_as_submitted env cpu id n acts t :
  executed t (foldl (perform env cpu) (cbThreadPool_new env cpu id n) acts)
  ≤ submissions t acts.
Proof.
  destruct (claims_on_history env cpu t acts 0 _ (claims_on_new env cpu t id n))
    as [_ H].
  unfold claims_on in H. lia.
Qed.

(** *** A worker killed inside a task *)

Lemma busy_count_nonneg h : (0 ≤ busy_count h)%Z.
Proof. induction h as [|x h IH]; simpl; [lia|]. destruct (Busy x); lia. Qed.

Lemma busy_count_member h i th :
  h !! i = Some th → Busy th = true → (1 ≤ busy_count h)%Z.
Proof.
  revert i. induction h as [|x h IH]; intros [|i] Hi Hb; simplify_eq/=.
  - rewrite Hb. pose proof (busy_count_nonneg h). lia.
  - specialize (IH i Hi Hb). destruct (Busy x); lia.
Qed.

Lemma stuck_Counter p : busy_consistent p → stuck p → (1 ≤ m_Counter p)%Z.
Proof.
  intros [_ ->] (tid&th&Hth&_&Hb). by eapply busy_count_member.
Qed.

Lemma stuck_alter f i q q' :
  heap q' = alter f i (heap q) →
  (∀ th, th_state th = Killed → th_state (f th) = Killed) →
  (∀ th, Busy (f th) = Busy th) →
  stuck q → stuck q'.
Proof.
  intros Hh Hs Hb (tid&th&Hth&Hk&Hbu). unfold stuck. rewrite Hh.
  destruct (decide (i = tid)) as [->|Hne].
  - exists tid, (f th). rewrite list_lookup_alter_eq, Hth. split_and!; [done|by apply Hs|].
    by rewrite Hb.
  - exists tid, th. by rewrite list_lookup_alter_ne.
Qed.

Lemma all_done_emit e p :
  is_ALLDONE e = false → all_done_posts (emit e p) = all_done_posts p.
Proof.
  intros He. unfold all_done_posts. simpl. rewrite List.filter_app. simpl.
  by rewrite He, app_nil_r.
Qed.

Lemma all_done_Abort tid q : all_done_posts (Abort tid q) = all_done_posts q.
Proof.
  unfold all_done_posts. rewrite Abort_posted, List.filter_app.
  destruct (heap q !! tid) as [th|]; [destruct (m_pTask th)|]; simpl;
    by rewrite app_nil_r.
Qed.

Lemma all_done_deletions q : List.filter is_ALLDONE (deletions q) = [].
Proof.
  unfold deletions. induction q as [|e q IH]; [done|]. simpl.
  destruct (autoDelete e); [|done]. by destruct (task e).
Qed.

Lemma all_done_snoc e l :
  is_ALLDONE e = false → List.filter is_ALLDONE (l ++ [e]) = List.filter is_ALLDONE l.
Proof. intros He. rewrite List.filter_app. simpl. by rewrite He, app_nil_r. Qed.

Lemma silenced_stable L :
  worker_stable (fun q => busy_consistent q ∧ stuck q ∧ all_done_posts q = L).
Proof.
  destruct busy_consistent_stable as [B1 B2 B3 B4].
  split.
  - intros q ms (Hb&Hs&Hl). split_and!; [by apply B1|done|by rewrite all_done_emit].
  - intros q n (Hb&Hs&Hl). by split_and!.
  - intros q tid (Hb&Hs&Hl). split; [by apply B3|].
    destruct (Entry_step_detail_cases q tid) as [->|(th&th'&Hth&Hr&Hh&Hd)]; [done|].
    split.
    + destruct Hs as (k&thk&Hk&Hst&Hbu). exists k, thk. split_and!; try done.
      rewrite Hh, list_lookup_insert_ne; [done|]. intros ->. congruence.
    + destruct (sd_alldone _ _ _ _ Hd) as [->|(Hc&_)]; [done|].
      pose proof (stuck_Counter q Hb Hs). lia.
  - intros q tid (Hb&Hs&Hl). split_and!; [by apply B4| |by rewrite all_done_Abort].
    eapply (stuck_alter _ tid q); [apply Abort_heap| | |done]; by intros [].
Qed.

Lemma silenced_Kill L q tid :
  busy_consistent q ∧ stuck q ∧ all_done_posts q = L →
  busy_consistent (wxThread_Kill tid q) ∧ stuck (wxThread_Kill tid q) ∧
  all_done_posts (wxThread_Kill tid q) = L.
Proof.
  intros (Hb&Hs&Hl). split_and!; [by apply busy_consistent_Kill| |].
  - eapply (stuck_alter _ tid q); [apply Kill_heap| | |done]; by intros [].
  - unfold all_done_posts in *. simpl. by rewrite all_done_snoc.
Qed.

Lemma silenced_alloc L q :
  busy_consistent q ∧ stuck q ∧ all_done_posts q = L →
  busy_consistent (alloc_thread q) ∧ stuck (alloc_thread q) ∧
  all_done_posts (alloc_thread q) = L.
Proof.
  intros (Hb&(tid&th&Hth&Hk&Hbu)&Hl).
  split_and!; [by apply busy_consistent_alloc| |].
  - exists tid, th. split_and!; try done. simpl. by apply lookup_app_l_Some.
  - unfold all_done_posts in *. simpl. by rewrite all_done_snoc.
Qed.

Lemma silenced_RunThreads L this p :
  busy_consistent p ∧ stuck p ∧ all_done_posts p = L →
  busy_consistent (RunThreads this p) ∧ stuck (RunThreads this p) ∧
  all_done_posts (RunThreads this p) = L.
Proof.
  intros Hp. split; [by apply (claims_on_RunThreads this 0 (claims_on 0 p)); destruct Hp|].
  destruct Hp as (_&Hs&Hl). unfold RunThreads.
  apply (foldl_stable (fun q => stuck q ∧ all_done_posts q = L)); [done|].
  intros b x _ [Hsb Hlb]. case_match; [|done]. split.
  - eapply (stuck_alter start x b); [done| | |done]; intros []; unfold start; simpl;
      intros; by case_match.
  - unfold all_done_posts in *. simpl. by rewrite all_done_snoc.
Qed.

Lemma silenced_perform env cpu L p a :
  busy_consistent p ∧ stuck p ∧ all_done_posts p = L →
  busy_consistent (perform env cpu p a) ∧ stuck (perform env cpu p a) ∧
  all_done_posts (perform env cpu p a) = L.
Proof.
  intros Hp.
  assert (∀ this q, busy_consistent q ∧ stuck q ∧ all_done_posts q = L →
            busy_consistent (FreeThreads env this q) ∧ stuck (FreeThreads env this q) ∧
            all_done_posts (FreeThreads env this q) = L) as HF.
  { intros this q Hq. apply FreeThreads_stable; try done.
    apply worker_teardown_stable; [apply silenced_stable|].
    intros q' tid. apply silenced_Kill. }
  assert (∀ this q, busy_consistent q ∧ stuck q ∧ all_done_posts q = L →
            busy_consistent (AllocThreads env this q) ∧ stuck (AllocThreads env this q) ∧
            all_done_posts (AllocThreads env this q) = L) as HA.
  { intros this q Hq. apply AllocThreads_stable; try done.
    - apply worker_teardown_stable; [apply silenced_stable|].
      intros q' tid. apply silenced_Kill.
    - apply silenced_alloc. }
  destruct a as [this t' d| |this|this|this n|tid]; simpl.
  - unfold AddTask. destruct (m_Aborting p); cbn [snd].
    + destruct d; [|done]. destruct t' as [a|]; [|done]. simpl.
      destruct Hp as (Hb&Hs&Hl). split_and!; [done|done|by rewrite all_done_emit].
    + case_match; [|done]. by apply silenced_RunThreads.
  - done.
  - by apply silenced_RunThreads.
  - unfold AbortAllTasks.
    destruct (HA this (FreeThreads env this
                         (yield env this 2 (ClearTaskQueue (yield env this 1 (set_Aborting true p))))))
      as (Hb&Hs&Hl); [|done].
    apply HF.
    apply (before_teardown_stable env this
             (fun q => busy_consistent q ∧ stuck q ∧ all_done_posts q = L)).
    + apply (ws_step _ (silenced_stable L)).
    + intros q ([Hok Hc]&(tid&th&Hs)&Hl).
      destruct (ClearTaskQueue_heap q) as (Hh&Hm&_).
      split_and!.
      * split; by rewrite ?Hh, ?Hm.
      * exists tid, th. by rewrite Hh.
      * unfold all_done_posts.
        by rewrite ClearTaskQueue_posted, List.filter_app, all_done_deletions, app_nil_r.
    + done.
  - rewrite SetConcurrentThreads_config. apply HA.
    destruct Hp as (Hb&Hs&Hl). split_and!; [done|done|by rewrite all_done_emit].
  - apply (ws_step _ (silenced_stable L) p tid Hp).
Qed.

(** X5. A worker killed inside a task silences the pool.  [FreeThreads]
    kills a worker that is still running after the eleventh round; the
    decrement of the busy counter (line 92) is then never reached.  From a
    pool that holds such a thread object on, whatever happens afterwards
    (submissions, batches, aborts, reconfigurations, steps of the other
    workers), the busy counter stays at 1 or more, and the all-done
    notification is never posted again. *)
Theorem killed_in_task_silences_pool env cpu p acts :
  busy_consistent p → stuck p →
  (1 ≤ m_Counter (foldl (perform env cpu) p acts))%Z ∧
  all_done_posts (foldl (perform env cpu) p acts) = all_done_posts p.
Proof.
  intros Hb Hs.
  assert (busy_consistent (foldl (perform env cpu) p acts) ∧
          stuck (foldl (perform env cpu) p acts) ∧
          all_done_posts (foldl (perform env cpu) p acts) = all_done_posts p)
    as (Hb'&Hs'&Hl).
  { apply (foldl_stable (fun q => busy_consistent q ∧ stuck q ∧
                                    all_done_posts q = all_done_posts p)); [done|].
    intros b a _. apply silenced_perform. }
  split; [by apply stuck_Counter|done].
Qed.

Lemma in_task_teardown_stable env this tid pt :
  (∀ k, tid ∉ env k) →
  teardown_stable env this
    (fun q => ∃ th, heap q !! tid = Some th ∧ th_pc th = L_running ∧
                    m_pTask th = pt ∧ (th_state th = Running ∨ th_state th = Killed)).
Proof.
  intros Henv.
  assert (∀ f i q q',
            heap q' = alter f i (heap q) →
            (∀ th, th_pc (f th) = th_pc th ∧ m_pTask (f th) = m_pTask th ∧
                   (th_state (f th) = th_state th ∨ th_state (f th) = Killed)) →
            (∃ th, heap q !! tid = Some th ∧ th_pc th = L_running ∧ m_pTask th = pt ∧
                   (th_state th = Running ∨ th_state th = Killed)) →
            ∃ th, heap q' !! tid = Some th ∧ th_pc th = L_running ∧ m_pTask th = pt ∧
                  (th_state th = Running ∨ th_state th = Killed)) as Halter.
  { intros f i q q' Hh Hf (th&Hth&Hpc&Hpt&Hst). rewrite Hh.
    destruct (decide (i = tid)) as [->|Hne].
    - exists (f th). rewrite list_lookup_alter_eq, Hth.
      destruct (Hf th) as (->&->&[->| ->]); split_and!; auto.
    - exists th. by rewrite list_lookup_alter_ne. }
  split.
  - intros q tid'. apply (Halter (th_set_Abort true) tid'); [apply Abort_heap|].
    intros []; simpl; auto.
  - intros q ms Hq. unfold wxMilliSleep, run. apply foldl_stable; [done|].
    intros b x Hx (th&Hth&Hrest). exists th. split; [|done].
    rewrite Entry_step_other; [done|]. intros ->.
    apply list_elem_of_filter in Hx as [_ Hx]. by apply Henv in Hx.
  - intros q tid'. apply (Halter (th_set_state Killed) tid'); [apply Kill_heap|].
    intros []; simpl; auto.
  - intros q k (th&Hth&Hrest). exists th. split; [|done].
    by rewrite yield_other.
Qed.

(** X6. A task that outlasts the teardown is killed inside [Execute].  If a
    worker of the set is inside [Execute] and the task does not return
    while [FreeThreads] runs (the worker takes no step during any of its
    sleeps), then on return the worker's thread has been killed where it
    stood: it never left [Execute], it still holds its task reference, and
    the busy counter was never decremented for it. *)
Theorem task_outlasting_teardown_is_killed env this p tid th :
  tid ∈ m_Threads p → this ≠ Some tid →
  heap p !! tid = Some th → th_state th = Running → th_pc th = L_running →
  (∀ k, tid ∉ env k) →
  (∃ th', heap (FreeThreads env this p) !! tid = Some th' ∧
          th_state th' = Killed ∧ th_pc th' = L_running ∧
          m_pTask th' = m_pTask th) ∧
  stuck (FreeThreads env this p).
Proof.
  intros Hin Hne Hth Hrun Hpc Henv.
  pose proof (FreeThreads_stops env this p tid Hin Hne) as Hstop.
  destruct (FreeThreads_stable env this _ p
              (in_task_teardown_stable env this tid (m_pTask th) Henv))
    as (th'&Hth'&Hpc'&Hpt'&Hst); [done|by eauto 6|].
  unfold IsRunning in Hstop. rewrite Hth' in Hstop.
  apply bool_decide_eq_false in Hstop.
  destruct Hst as [?|Hk]; [done|].
  split; [by eauto 6|]. exists tid, th'. split_and!; [done|done|].
  unfold Busy. by rewrite Hpc'.
Qed.

(** *** Shutting the workers down: lines 251-253 and 130-132 *)

Lemma occurrences_deletions e q :
  (∀ t, e ≠ TaskDelete t) → occurrences e (deletions q) = 0.
Proof.
  intros He. unfold occurrences. apply count_occ_not_In.
  intros Hin%list_elem_of_In. unfold deletions in Hin.
  apply list_elem_of_omap in Hin as (x&_&Hx).
  destruct (autoDelete x); [|done]. destruct (task x) as [t|]; [|done].
  simplify_eq/=. by destruct (He t).
Qed.

Lemma run_queue_suffix sched p : m_TaskQueue (run sched p) `suffix_of` m_TaskQueue p.
Proof.
  apply (run_stable (fun q => m_TaskQueue q `suffix_of` m_TaskQueue p)); [|done].
  intros q tid Hq.
  destruct (Entry_step_detail_cases q tid) as [->|(th&th'&_&_&_&Hd)]; [done|].
  destruct (sd_queue _ _ _ _ Hd) as [->|(_&e&He&_)]; [done|].
  etrans; [|done]. rewrite He. by apply suffix_cons_r.
Qed.

Lemma at_the_clear_suffix env this p :
  m_TaskQueue (at_the_clear env this p) `suffix_of` m_TaskQueue p.
Proof. exact (run_queue_suffix _ (set_Aborting true p)). Qed.

Lemma log_grows_yield env this k q : posted q `prefix_of` posted (yield env this k q).
Proof. apply yield_stable; [apply (ws_step _ (log_grows_stable q))|done]. Qed.

Lemma creates_stable tid c :
  worker_stable (fun q => occurrences (ThreadCreate tid) (posted q) = c).
Proof.
  split; try done.
  - intros q ms Hq. simpl. by rewrite occurrences_snoc_ne.
  - intros q tid' Hq.
    destruct (Entry_step_cases q tid') as [->|(th&th'&_&_&_&He)]; [done|].
    destruct (se_posted _ _ _ _ He) as (evs&->&Hev).
    rewrite occurrences_app, Hq.
    assert (occurrences (ThreadCreate tid) evs = 0) as ->; [|lia].
    induction Hev as [|e evs He' _ IH]; [done|].
    unfold occurrences in *. simpl. destruct (event_eq_dec e (ThreadCreate tid));
      [by subst|done].
  - intros q tid' Hq. rewrite Abort_posted, occurrences_app, Hq.
    destruct (heap q !! tid') as [th|]; [destruct (m_pTask th)|];
      unfold occurrences; simpl; lia.
Qed.

(** What lines 251-252 (130-131) and the workers that run meanwhile leave
    alone. *)
Lemma before_teardown_frame env this p :
  m_Threads (yield env this 2 (ClearTaskQueue (at_the_clear env this p))) = m_Threads p ∧
  m_ConcurrentThreads (yield env this 2 (ClearTaskQueue (at_the_clear env this p)))
    = m_ConcurrentThreads p ∧
  m_Aborting (yield env this 2 (ClearTaskQueue (at_the_clear env this p))) = true ∧
  length (heap (yield env this 2 (ClearTaskQueue (at_the_clear env this p))))
    = length (heap p) ∧
  clock (yield env this 2 (ClearTaskQueue (at_the_clear env this p))) = clock p ∧
  m_TaskQueue (yield env this 2 (ClearTaskQueue (at_the_clear env this p))) = [] ∧
  clock (at_the_clear env this p) = clock p ∧
  m_Threads (at_the_clear env this p) = m_Threads p.
Proof.
  unfold at_the_clear.
  assert ((m_Threads (yield env this 1 (set_Aborting true p)) = m_Threads p ∧
           clock (yield env this 1 (set_Aborting true p)) = clock p)) as [HT1 HC1].
  { apply (yield_stable env this
             (fun q => m_Threads q = m_Threads p ∧ clock q = clock p)); [|done].
    intros q tid [H1 H2]. rewrite clock_step. split; [|done].
    destruct (ws_step _ (same_config_stable q) q tid) as (_&_&_&_&->); [|done].
    by repeat split. }
  split_and!; try done.
  - apply (before_teardown_stable env this (fun q => m_Threads q = m_Threads p)).
    + intros q tid H1.
      destruct (ws_step _ (same_config_stable q) q tid) as (_&_&_&_&->); [|done].
      by repeat split.
    + intros q H1. by destruct (ClearTaskQueue_heap q) as (_&_&(_&_&_&_&->)&_).
    + done.
  - apply (before_teardown_stable env this
             (fun q => m_ConcurrentThreads q = m_ConcurrentThreads p)).
    + apply (ws_step _ (concurrency_stable _)).
    + intros q H1. by destruct (ClearTaskQueue_heap q) as (_&_&(_&_&_&->&_)&_).
    + done.
  - apply (before_teardown_stable env this (fun q => m_Aborting q = true)).
    + apply (ws_step _ (aborting_stable _)).
    + intros q H1. by destruct (ClearTaskQueue_heap q) as (_&_&(_&_&->&_)&_).
    + done.
  - apply (before_teardown_stable env this
             (fun q => length (heap q) = length (heap p))).
    + apply (ws_step _ (heap_length_stable _)).
    + intros q H1. by destruct (ClearTaskQueue_heap q) as (->&_).
    + done.
  - apply (before_teardown_stable env this (fun q => clock q = clock p)).
    + intros q tid H1. by rewrite clock_step.
    + intros q H1. by destruct (ClearTaskQueue_heap q) as (_&_&_&_&->).
    + done.
  - apply yield_stable; [apply (ws_step _ queue_empty_stable)|done].
Qed.

Lemma claims_on_ClearTaskQueue_eq t p :
  claims_on t (ClearTaskQueue p) + queued t (m_TaskQueue p) = claims_on t p.
Proof.
  destruct (ClearTaskQueue_heap p) as (Hh&_). unfold claims_on, executed.
  rewrite ClearTaskQueue_posted, occurrences_app, executed_deletions, Hh.
  change (m_TaskQueue (ClearTaskQueue p)) with (@nil cbTaskElement).
  change (queued t []) with 0. lia.
Qed.

(** What is executed from the first line of the shutdown on was fetched
    before the queue was cleared. *)
Lemma delete_claims env this t p :
  busy_consistent p →
  busy_consistent (cbThreadPool_delete env this p) ∧
  claims_on t (cbThreadPool_delete env this p)
    + queued t (m_TaskQueue (at_the_clear env this p)) ≤ claims_on t p.
Proof.
  intros Hb.
  change (cbThreadPool_delete env this p)
    with (FreeThreads env this
            (yield env this 2 (ClearTaskQueue (at_the_clear env this p)))).
  set (p1 := at_the_clear env this p).
  assert (busy_consistent p1 ∧ claims_on t p1 ≤ claims_on t p) as Hp1.
  { unfold p1, at_the_clear.
    apply (yield_stable env this
             (fun q => busy_consistent q ∧ claims_on t q ≤ claims_on t p));
      [apply (ws_step _ (claims_on_stable t _))|].
    split; [done|]. apply Nat.le_refl. }
  pose proof (claims_on_ClearTaskQueue_eq t p1) as He.
  assert (busy_consistent (ClearTaskQueue p1) ∧
          claims_on t (ClearTaskQueue p1) ≤ claims_on t (ClearTaskQueue p1)) as Hpc.
  { split; [|done].
    by destruct (claims_on_ClearTaskQueue t (claims_on t p1) p1) as [? _];
      [destruct Hp1|]. }
  destruct (claims_on_FreeThreads env this t (claims_on t (ClearTaskQueue p1))
              (yield env this 2 (ClearTaskQueue p1))) as [Hbd Hcd].
  { apply (yield_stable env this
             (fun q => busy_consistent q ∧
                       claims_on t q ≤ claims_on t (ClearTaskQueue p1)));
      [apply (ws_step _ (claims_on_stable t _))|done]. }
  split; [done|]. destruct Hp1. lia.
Qed.

(** The log of the shutdown: what the workers did before the queue was
    cleared, then the deletions, then the rest. *)
Lemma delete_log env this p :
  ∃ k, posted (at_the_clear env this p) = posted p ++ k ∧
       (posted p ++ k ++ deletions (m_TaskQueue (at_the_clear env this p)))
         `prefix_of` posted (cbThreadPool_delete env this p).
Proof.
  destruct (log_grows_yield env this 1 (set_Aborting true p)) as [k Hk].
  exists k. split; [exact Hk|].
  change (cbThreadPool_delete env this p)
    with (FreeThreads env this
            (yield env this 2 (ClearTaskQueue (at_the_clear env this p)))).
  apply log_grows_FreeThreads.
  apply yield_stable; [apply (ws_step _ (log_grows_stable_from _))|].
  rewrite ClearTaskQueue_posted. unfold at_the_clear at 2. rewrite Hk.
  by rewrite <- app_assoc.
Qed.

Lemma abort_each_log env this k l q tid th t :
  tid ∈ l → heap q !! tid = Some th → m_pTask th = Some t →
  (∀ j, tid ∉ env (slot (clock q) (S j))) →
  ∃ evs, posted (abort_each env this (S k) l q) = posted q ++ evs ∧ TaskAbort t ∈ evs.
Proof.
  revert k q. induction l as [|x l IH]; intros k q Hin Hth Ht Hni;
    [by apply elem_of_nil in Hin|].
  cbn [abort_each]. destruct (decide (tid = x)) as [->|Hne].
  - destruct (abort_each_worker_stable env this
                (fun q' => posted (Abort x q) `prefix_of` posted q')
                (S (S k)) l (yield env this (S k) (Abort x q))) as [evs Hk].
    { apply log_grows_stable_from. }
    { apply log_grows_yield. }
    rewrite Hk, Abort_posted, Hth, Ht, <- app_assoc.
    eexists. split; [done|]. apply list_elem_of_here.
  - apply elem_of_cons in Hin as [?|Hin]; [done|].
    set (q' := yield env this (S k) (Abort x q)).
    assert (clock q' = clock q) as Hc.
    { unfold q'. by rewrite clock_yield, clock_Abort. }
    destruct (IH (S k) q') as (evs&Hk&Hink); [done| |done| |].
    { unfold q'. rewrite yield_other by (rewrite clock_Abort; apply Hni).
      by rewrite Abort_heap, list_lookup_alter_ne. }
    { intros j. rewrite Hc. apply Hni. }
    assert (posted q `prefix_of` posted q') as [k0 Hk0].
    { unfold q'. apply yield_stable; [apply (ws_step _ (log_grows_stable q))|].
      rewrite Abort_posted. by apply prefix_app_r. }
    rewrite Hk, Hk0, <- app_assoc.
    eexists. split; [done|]. apply elem_of_app. by right.
Qed.

(** A task in flight on a worker of the set gets its [Abort()], if the
    worker does not move on before it is told to stop. *)
Lemma delete_aborts env this p tid th t :
  tid ∈ m_Threads p → heap p !! tid = Some th → m_pTask th = Some t →
  (∀ j, tid ∉ env (slot (clock p) (S j))) →
  TaskAbort t ∈ new_events p (cbThreadPool_delete env this p).
Proof.
  intros Hin Hth Ht Hni.
  destruct (before_teardown_frame env this p) as (HT2&_&_&_&HC2&_&HC1&_).
  set (p1 := at_the_clear env this p) in *.
  set (p2 := yield env this 2 (ClearTaskQueue p1)) in *.
  assert (heap p1 !! tid = Some th) as Hth1.
  { unfold p1, at_the_clear. rewrite yield_other; [done|]. apply Hni. }
  assert (heap p2 !! tid = Some th) as Hth2.
  { unfold p2. rewrite yield_other.
    - by destruct (ClearTaskQueue_heap p1) as (->&_).
    - destruct (ClearTaskQueue_heap p1) as (_&_&_&_&->). rewrite HC1. apply Hni. }
  assert (posted p `prefix_of` posted p2) as [k Hk].
  { unfold p2, p1, at_the_clear.
    apply (before_teardown_stable env this (fun q => posted p `prefix_of` posted q)).
    - apply (ws_step _ (log_grows_stable p)).
    - intros q Hq. rewrite ClearTaskQueue_posted. by apply prefix_app_r.
    - done. }
  destruct (abort_each_log env this 2 (m_Threads p2) p2 tid th t) as (evs&Hev&Hinev);
    [by rewrite HT2|done|done|by intros j; rewrite HC2|].
  apply (new_events_prefix p _ (k ++ evs)); [|apply elem_of_app; by right].
  change (cbThreadPool_delete env this p) with (FreeThreads env this p2).
  unfold FreeThreads. cbn [posted set_Threads].
  apply wait_each_stable.
  { apply worker_teardown_stable; [apply log_grows_stable_from|].
    intros q tid' Hq. by apply prefix_app_r. }
  unfold wxMilliSleep. apply run_stable.
  { apply (ws_step _ (log_grows_stable_from _)). }
  cbn [posted set_clock emit]. rewrite Hev, Hk.
  exists [MilliSleep 21]. by rewrite <- !app_assoc.
Qed.

(** *** The destructor *)

(** X7. The destructor shuts the pool down.  On a pool that exists,
    [~cbThreadPool] leaves the aborting flag set, the queue empty and the
    worker set empty.  The workers run on until each is told to stop: they
    may still fetch from the head of the queue before it is cleared, and
    execute what they fetched.  Every task that is in the queue with
    auto-delete when it is cleared is deleted, and what is cleared is not
    executed: each [Execute] entered up to the return is on an entry
    fetched before the clear.  Every worker of the set other than the
    calling thread is stopped on return, and, unlike [AbortAllTasks], the
    destructor creates no thread. *)
Theorem destructor_shuts_down env cpu this p :
  reachable env cpu p →
  m_Aborting (cbThreadPool_delete env this p) = true ∧
  m_TaskQueue (cbThreadPool_delete env this p) = [] ∧
  m_Threads (cbThreadPool_delete env this p) = [] ∧
  m_TaskQueue (at_the_clear env this p) `suffix_of` m_TaskQueue p ∧
  (∀ t, mkElement (Some t) true ∈ m_TaskQueue (at_the_clear env this p) →
        TaskDelete t ∈ new_events p (cbThreadPool_delete env this p)) ∧
  (∀ t, executed t (cbThreadPool_delete env this p)
          + queued t (m_TaskQueue (at_the_clear env this p)) ≤ claims_on t p) ∧
  (∀ tid, tid ∈ m_Threads p → this ≠ Some tid →
        IsRunning tid (cbThreadPool_delete env this p) = false) ∧
  length (heap (cbThreadPool_delete env this p)) = length (heap p) ∧
  (∀ tid, occurrences (ThreadCreate tid) (posted (cbThreadPool_delete env this p)) =
          occurrences (ThreadCreate tid) (posted p)).
Proof.
  intros Hr. destruct (reachable_inv _ _ _ Hr) as [Hb Hk].
  destruct (before_teardown_frame env this p) as (HT2&_&HA2&HL2&_&HQ2&_).
  change (cbThreadPool_delete env this p)
    with (FreeThreads env this
            (yield env this 2 (ClearTaskQueue (at_the_clear env this p)))) in *.
  split_and!.
  - rewrite <- HA2. apply FreeThreads_stable; [|done..].
    apply worker_teardown_stable; [apply aborting_stable|done].
  - apply FreeThreads_stable; [|done..].
    apply worker_teardown_stable; [apply queue_empty_stable|done].
  - done.
  - apply at_the_clear_suffix.
  - intros t Hin. destruct (delete_log env this p) as (k&_&Hpre).
    apply (new_events_prefix p _ (k ++ deletions (m_TaskQueue (at_the_clear env this p))));
      [done|].
    apply elem_of_app. right. by apply deletions_elem.
  - intros t. destruct (delete_claims env this t p Hb) as [_ Hc].
    unfold claims_on at 1 in Hc.
    change (cbThreadPool_delete env this p)
      with (FreeThreads env this
              (yield env this 2 (ClearTaskQueue (at_the_clear env this p)))) in Hc.
    lia.
  - intros tid Hin Hne. apply FreeThreads_stops; [by rewrite HT2|done].
  - rewrite <- HL2. apply FreeThreads_stable; [|done..].
    apply worker_teardown_stable; [apply heap_length_stable|].
    intros q tid. apply heap_length_Kill.
  - intros tid. apply FreeThreads_stable; [|done|].
    + apply worker_teardown_stable; [apply creates_stable|].
      intros q tid' Hq. simpl. by rewrite occurrences_snoc_ne.
    + unfold at_the_clear. apply before_teardown_stable.
      * apply (ws_step _ (creates_stable tid _)).
      * intros q Hq.
        rewrite ClearTaskQueue_posted, occurrences_app, occurrences_deletions by done.
        lia.
      * done.
Qed.

(** *** Global abort *)

(** C5, as the code has it.  [AbortAllTasks] on a pool that exists.  The
    workers run on until each is told to stop: before the queue is cleared
    they may still fetch from its head, and a worker that has fetched may
    still enter [Execute].  Every task that is in the queue with
    auto-delete when it is cleared is deleted, the queue ends empty, and
    what is cleared is not executed: each [Execute] entered up to the
    return is on an entry fetched before the clear.  A task that is in
    flight on a worker of the set gets an [Abort()] call, if the worker
    does not move on before it is told to stop.  Every worker of the old
    set other than the caller is no longer running; and on return the
    aborting flag is clear and the set consists of exactly max(N, 0)
    workers for the configured count N (N itself unless N is negative),
    all of them new thread objects, created, not running, with no task. *)
Theorem AbortAllTasks_resets env cpu this p :
  reachable env cpu p →
  m_TaskQueue (at_the_clear env this p) `suffix_of` m_TaskQueue p ∧
  (∀ t, mkElement (Some t) true ∈ m_TaskQueue (at_the_clear env this p) →
        TaskDelete t ∈ new_events p (AbortAllTasks env this p)) ∧
  m_TaskQueue (AbortAllTasks env this p) = [] ∧
  (∀ t, executed t (AbortAllTasks env this p)
          + queued t (m_TaskQueue (at_the_clear env this p)) ≤ claims_on t p) ∧
  (∀ tid th t, tid ∈ m_Threads p → heap p !! tid = Some th → m_pTask th = Some t →
        (∀ j, tid ∉ env (slot (clock p) (S j))) →
        TaskAbort t ∈ new_events p (AbortAllTasks env this p)) ∧
  (∀ tid, tid ∈ m_Threads p → this ≠ Some tid →
        IsRunning tid (AbortAllTasks env this p) = false) ∧
  m_Aborting (AbortAllTasks env this p) = false ∧
  length (m_Threads (AbortAllTasks env this p)) = Z.to_nat (m_ConcurrentThreads p) ∧
  (0 ≤ m_ConcurrentThreads p →
     Z.of_nat (length (m_Threads (AbortAllTasks env this p))) = m_ConcurrentThreads p)%Z ∧
  NoDup (m_Threads (AbortAllTasks env this p)) ∧
  (∀ tid, tid ∈ m_Threads (AbortAllTasks env this p) →
        length (heap p) ≤ tid ∧
        heap (AbortAllTasks env this p) !! tid = Some new_PrivateThread).
Proof.
  intros Hr. destruct (reachable_inv _ _ _ Hr) as [Hb Hk].
  destruct (before_teardown_frame env this p) as (HT2&HM2&_&HL2&_).
  set (d := cbThreadPool_delete env this p).
  assert (AbortAllTasks env this p = set_Aborting false (AllocThreads env this d))
    as Heq by done.
  assert (d = FreeThreads env this
                (yield env this 2 (ClearTaskQueue (at_the_clear env this p))))
    as Hd by done.
  destruct (AllocThreads_spec env this d) as (HM&_&HT&HN).
  assert (m_ConcurrentThreads d = m_ConcurrentThreads p) as HMd.
  { rewrite Hd, <- HM2. apply FreeThreads_stable; [|done..].
    apply worker_teardown_stable; [apply concurrency_stable|done]. }
  assert (length (heap d) = length (heap p)) as HLd.
  { rewrite Hd, <- HL2. apply FreeThreads_stable; [|done..].
    apply worker_teardown_stable; [apply heap_length_stable|].
    intros q tid. apply heap_length_Kill. }
  rewrite Heq. cbn [m_TaskQueue m_Threads heap m_Aborting set_Aborting].
  rewrite HT, HMd, HLd in *. split_and!.
  - apply at_the_clear_suffix.
  - intros t Hin. destruct (delete_log env this p) as (k&_&Hpre).
    apply (new_events_prefix p _ (k ++ deletions (m_TaskQueue (at_the_clear env this p))));
      [|apply elem_of_app; right; by apply deletions_elem].
    cbn [posted set_Aborting]. by apply log_grows_AllocThreads.
  - exact (AbortAllTasks_queue env this p).
  - intros t. destruct (delete_claims env this t p Hb) as [Hbd Hcd]. fold d in Hbd, Hcd.
    destruct (claims_on_AllocThreads env this t (claims_on t d) d) as [_ Hca]; [done|].
    unfold claims_on at 1 in Hca.
    change (executed t (set_Aborting false (AllocThreads env this d)))
      with (executed t (AllocThreads env this d)). lia.
  - intros tid th t Hin Hth Ht Hni.
    pose proof (delete_aborts env this p tid th t Hin Hth Ht Hni) as Ha. fold d in Ha.
    unfold new_events in *. cbn [posted set_Aborting].
    destruct (log_grows_AllocThreads env this (posted d) d) as [k Hkd]; [done|].
    rewrite Hkd, drop_app_le; [apply elem_of_app; by left|].
    destruct (delete_log env this p) as (k1&_&[k2 Hk2]). fold d in Hk2.
    rewrite Hk2, !length_app. lia.
  - intros tid Hin Hne. unfold IsRunning. cbn [heap set_Aborting].
    apply (stopped_AllocThreads env this tid d).
    rewrite Hd. apply FreeThreads_stops; [by rewrite HT2|done].
  - done.
  - by rewrite length_seq.
  - intros Hpos. rewrite length_seq. lia.
  - apply NoDup_seq.
  - intros tid Hin. split; [|by apply HN].
    apply elem_of_seq in Hin. lia.
Qed.

(** *** One worker executes in the order of submission *)

Lemma lone_worker_Run L q tid : lone_worker L q → lone_worker L (wxThread_Run tid q).
Proof.
  intros (th&Hh&Ha&Hd&HL). unfold lone_worker, wxThread_Run, upd_thread, executions.
  simpl. rewrite Hh, List.filter_app. simpl. rewrite app_nil_r.
  destruct tid as [|tid]; simpl.
  - exists (start th). destruct th as [pt ab st de pc el dw]. unfold start. simpl in *.
    by destruct st.
  - by exists th.
Qed.

Lemma lone_worker_RunThreads L this q :
  lone_worker L q → lone_worker L (RunThreads this q).
Proof.
  intros Hq. unfold RunThreads. apply foldl_stable; [done|].
  intros b x _ Hb. case_match; [|done]. by apply lone_worker_Run.
Qed.

Lemma lone_worker_step L q tid :
  busy_consistent q → lone_worker L q → lone_worker L (Entry_step q tid).
Proof.
  intros [Hok _] (th&Hh&Ha&Hd&HL).
  destruct (Entry_step_detail_cases q tid) as [->|(th0&th'&Hth&_&Hh'&Hsd)];
    [by exists th|].
  rewrite Hh in Hth, Hok. destruct tid as [|tid]; simplify_eq/=.
  apply Forall_singleton in Hok as (_&Hpt&_).
  destruct (sd_order _ _ _ _ Hsd Ha Hd Hpt) as (Ha'&Hd'&HL').
  exists th'. rewrite Hh', Hh. by rewrite HL'.
Qed.

Lemma lone_worker_perform env cpu L q a :
  ordinary a → busy_consistent q → m_Aborting q = false → lone_worker L q →
  lone_worker (L ++ map Execute (tasks_of [a])) (perform env cpu q a).
Proof.
  intros Ho Hb Hab Hq. destruct a as [this t d| |this|this|this n|tid]; try done.
  - cbn [perform]. unfold AddTask. rewrite Hab. cbn [snd].
    set (q1 := set_Done false _).
    assert (lone_worker (L ++ map Execute (tasks_of [Do_AddTask this t d])) q1) as Hq1.
    { destruct Hq as (th&Hh&Ha&Hd&HL). exists th. split_and!; try done.
      unfold q1, executions in *. simpl. rewrite omap_app, app_assoc, map_app, app_assoc.
      rewrite HL. unfold tasks_of. simpl. by destruct t. }
    destruct (negb (m_Batching q1)); [by apply lone_worker_RunThreads|done].
  - unfold tasks_of. simpl. by rewrite app_nil_r.
  - unfold tasks_of. simpl. rewrite app_nil_r. by apply lone_worker_RunThreads.
  - unfold tasks_of. simpl. rewrite app_nil_r. by apply lone_worker_step.
Qed.

Lemma lone_worker_history env cpu acts L q :
  Forall ordinary acts → pool_inv q → m_Aborting q = false → lone_worker L q →
  lone_worker (L ++ map Execute (tasks_of acts)) (foldl (perform env cpu) q acts).
Proof.
  revert L q. induction acts as [|a acts IH]; intros L q Ho Hi Hab Hq.
  - unfold tasks_of. simpl. by rewrite app_nil_r.
  - apply list.Forall_cons in Ho as [Ha Ho]. cbn [foldl].
    pose proof (lone_worker_perform env cpu L q a Ha (proj1 Hi) Hab Hq) as H1.
    pose proof (IH _ _ Ho (pool_inv_perform env cpu q a Hi)
                  (perform_Aborting env cpu q a Hab) H1) as H2.
    replace (L ++ map Execute (tasks_of (a :: acts)))
      with ((L ++ map Execute (tasks_of [a])) ++ map Execute (tasks_of acts));
      [exact H2|].
    rewrite <- app_assoc, <- map_app. do 2 f_equal.
    unfold tasks_of. simpl. by destruct (submitted_task a).
Qed.

(** X8. A pool of one worker executes in the order of submission.  In a
    pool constructed with one worker, after any history of submissions,
    batches and steps, the [Execute] calls entered so far are an initial
    part of the submitted tasks, in the order in which they were
    submitted. *)
Theorem one_worker_executes_in_order env cpu id acts :
  Forall ordinary acts →
  executions (foldl (perform env cpu) (cbThreadPool_new env cpu id 1) acts)
    `prefix_of` map Execute (tasks_of acts).
Proof.
  intros Ho.
  destruct (lone_worker_history env cpu acts [] (cbThreadPool_new env cpu id 1) Ho)
    as (th&_&_&_&HL).
  - apply (reachable_inv env cpu), reach_new.
  - apply (reachable_not_aborting env cpu), reach_new.
  - rewrite cbThreadPool_new_eq. by exists new_PrivateThread.
  - simpl in HL. rewrite <- HL. by eexists.
Qed.

(** *** The all-done notification and a task not yet counted *)

(** X9. The all-done notification can precede an execution.  Between
    fetching a task (line 76) and counting itself busy (line 81) a worker
    holds a task that neither the queue nor the busy counter shows.  If
    another worker reports at that moment with the queue empty and the
    counter at zero, the pool sets the done flag and posts the all-done
    notification; the first worker then goes on to execute its task. *)
Theorem alldone_can_precede_an_execution p a b tha thb t :
  a ≠ b → heap p !! a = Some tha → heap p !! b = Some thb →
  th_state tha = Running → th_state thb = Running →
  th_pc tha = L_busy → task (elem tha) = Some t →
  m_Abort tha = false → th_delete tha = false →
  th_pc thb = L_notify → doneWork thb = true →
  m_TaskQueue p = [] → m_Counter p = 0%Z →
  m_Done (Entry_step p b) = true ∧
  posted (Entry_step p b) =
    posted p ++ [THREADTASK_ENDED (m_ID p); THREADTASK_ALLDONE (m_ID p)] ∧
  posted (run [b; a; a] p) =
    posted p ++ [THREADTASK_ENDED (m_ID p); THREADTASK_ALLDONE (m_ID p); Execute t].
Proof.
  intros Hab Ha Hb Hra Hrb Hpa Hta Haa Hda Hpb Hdb Hq Hc.
  assert (Entry_step p b =
          goto b L_while
            (emit (THREADTASK_ALLDONE (m_ID p))
               (set_Done true (emit (THREADTASK_ENDED (m_ID p)) p)))) as E1.
  { unfold Entry_step, Entry_at. rewrite Hb, Hrb, Hpb, Hdb.
    unfold OnThreadTaskDone. simpl. by rewrite Hq, Hc. }
  split_and!.
  - by rewrite E1.
  - rewrite E1. simpl. by rewrite <- app_assoc.
  - unfold run. cbn [foldl]. rewrite E1.
    remember (goto b L_while _) as p1 eqn:Ep1.
    assert (heap p1 !! a = Some tha) as Ha1.
    { rewrite Ep1. unfold goto, upd_thread. simpl. by rewrite list_lookup_alter_ne. }
    assert (posted p1 =
            posted p ++ [THREADTASK_ENDED (m_ID p); THREADTASK_ALLDONE (m_ID p)]) as Hp1.
    { rewrite Ep1. simpl. by rewrite <- app_assoc. }
    assert (Entry_step p1 a =
            goto a L_exec
              (upd_thread a (th_set_pTask (Some t))
                 (set_Counter (m_Counter p1 + 1) p1))) as E2.
    { unfold Entry_step, Entry_at. by rewrite Ha1, Hra, Hpa, Hta. }
    rewrite E2. remember (goto a L_exec _) as p2 eqn:Ep2.
    assert (heap p2 !! a = Some (th_set_pc L_exec (th_set_pTask (Some t) tha))) as Ha2.
    { rewrite Ep2. unfold goto, upd_thread. cbn [heap set_heap set_Counter].
      by rewrite !list_lookup_alter_eq, Ha1. }
    assert (posted p2 = posted p1) as Hp2 by by rewrite Ep2.
    unfold Entry_step, Entry_at, Aborted. rewrite Ha2. simpl.
    rewrite Hra, Haa, Hda. simpl.
    rewrite Hp2, Hp1. by rewrite <- !app_assoc.
Qed.

(** *** Clearing the queue *)

Lemma deletions_cons e q :
  deletions (e :: q) =
  (if autoDelete e then match task e with Some t => [TaskDelete t] | None => [] end
   else []) ++ deletions q.
Proof.
  unfold deletions. simpl. destruct (autoDelete e); [|done]. by destruct (task e).
Qed.

Lemma deletions_owned t q : occurrences (TaskDelete t) (deletions q) = owned t q.
Proof.
  induction q as [|e q IH]; [done|].
  rewrite deletions_cons, occurrences_app, IH. unfold owned. cbn [List.filter].
  destruct (autoDelete e); [|done]. destruct (task e) as [t'|]; [|done].
  change [TaskDelete t'] with ([] ++ [TaskDelete t']).
  rewrite (occurrences_snoc (TaskDelete t) (TaskDelete t') []).
  cbn [andb]. do 2 case_bool_decide; simplify_eq/=; done.
Qed.

(** X10. [ClearTaskQueue] deletes what the pool owns, and nothing else.
    It empties the queue; it deletes each task once for each queue entry
    that held it with auto-delete, and no task that was queued without (a
    null entry is skipped); it executes, aborts and reports nothing, and
    leaves the workers, the busy counter and the done flag as they were. *)
Theorem ClearTaskQueue_deletes_what_the_pool_owns p :
  m_TaskQueue (ClearTaskQueue p) = [] ∧
  (∀ t, occurrences (TaskDelete t) (posted (ClearTaskQueue p)) =
        occurrences (TaskDelete t) (posted p) + owned t (m_TaskQueue p)) ∧
  (∀ e, (∀ t, e ≠ TaskDelete t) →
        occurrences e (posted (ClearTaskQueue p)) = occurrences e (posted p)) ∧
  heap (ClearTaskQueue p) = heap p ∧
  m_Counter (ClearTaskQueue p) = m_Counter p ∧
  m_Done (ClearTaskQueue p) = m_Done p.
Proof.
  destruct (ClearTaskQueue_heap p) as (Hh&Hc&_&Hd&_).
  split_and!; try done.
  - intros t. by rewrite ClearTaskQueue_posted, occurrences_app, deletions_owned.
  - intros e He.
    rewrite ClearTaskQueue_posted, occurrences_app, occurrences_deletions by done. lia.
Qed.

(** *** The plugin hooks *)

(** X11. The hooks of a plugin library agree with each other.  The class
    [CreatePlugin] instantiates at an index is the one [PluginName] names
    there, and one of them throws exactly when the other does.  With the
    macros for two and three plugins the indices that do not throw are
    exactly those below [GetPluginsCount()]; the macros for one plugin
    ignore the index and never throw. *)
Theorem plugin_hooks_agree {class} (m : plugin_macro class) (index : N) :
  (∀ name, PluginName m index = inr name ↔ CreatePlugin m index = inr name) ∧
  (PluginName m index = inl Invalid_plugin_index_in_PluginName ↔
   CreatePlugin m index = inl Invalid_plugin_index_in_CreatePlugin) ∧
  ((∃ name, PluginName m index = inr name) ↔
   (index < GetPluginsCount m)%N ∨ exports_one m = true).
Proof.
  destruct m as [n|n|n1 n2|n1 n2 n3]; simpl.
  - split_and!; [done|done|]. split; [by right|by eexists].
  - split_and!; [done|done|]. split; [by right|by eexists].
  - destruct index as [|[[]| []|]]; simpl; split_and!; try done;
      (split; [try (intros _; left; lia); by intros [? ?]|]);
      intros [?|?]; try done; try lia; by eexists.
  - destruct index as [|[[[]|[]|]|[[]|[]|]|]]; simpl; split_and!; try done;
      (split; [try (intros _; left; lia); by intros [? ?]|]);
      intros [?|?]; try done; try lia; by eexists.
Qed.

(** *** No task is deleted more often than it was handed over *)

Lemma to_delete_sum_insert t h i th th' :
  h !! i = Some th →
  to_delete_sum t (<[i := th']> h) + to_delete t th =
  to_delete_sum t h + to_delete t th'.
Proof.
  revert i. induction h as [|x h IH]; intros [|i] Hi; simplify_eq/=; [lia|].
  specialize (IH i Hi). lia.
Qed.

Lemma to_delete_sum_alter t h i f :
  (∀ th, to_delete t (f th) = to_delete t th) →
  to_delete_sum t (alter f i h) = to_delete_sum t h.
Proof.
  intros Hf. revert i. induction h as [|x h IH]; intros [|i]; simpl; try done.
  - by rewrite Hf.
  - f_equal. apply IH.
Qed.

Lemma to_delete_sum_app t h1 h2 :
  to_delete_sum t (h1 ++ h2) = to_delete_sum t h1 + to_delete_sum t h2.
Proof. induction h1 as [|x h1 IH]; simpl; [done|]. rewrite IH. lia. Qed.

Lemma owned_app t q1 q2 : owned t (q1 ++ q2) = owned t q1 + owned t q2.
Proof. unfold owned. by rewrite List.filter_app, length_app. Qed.

Lemma deleted_Abort t tid q : deleted t (Abort tid q) = deleted t q.
Proof.
  unfold deleted. rewrite Abort_posted, occurrences_app.
  destruct (heap q !! tid) as [th|]; [destruct (m_pTask th)|];
    unfold occurrences; simpl; lia.
Qed.

Lemma deletes_due_stable t k : worker_stable (fun q => deletes_due t q ≤ k).
Proof.
  split.
  - intros q ms Hc. unfold deletes_due, deleted in *. simpl.
    by rewrite occurrences_snoc_ne.
  - done.
  - intros q tid Hc.
    destruct (Entry_step_detail_cases q tid) as [->|(th&th'&Hth&_&Hh&Hd)]; [done|].
    pose proof (sd_delete _ _ _ _ Hd t) as Ho.
    pose proof (to_delete_sum_insert t (heap q) tid th th' Hth) as Hi.
    unfold deletes_due in *. rewrite Hh. lia.
  - intros q tid Hc. unfold deletes_due in *. rewrite deleted_Abort, Abort_heap.
    destruct (Abort_members tid q) as (_&_&_&->&_).
    by rewrite to_delete_sum_alter.
Qed.

Lemma deletes_due_Kill t k q tid :
  deletes_due t q ≤ k → deletes_due t (wxThread_Kill tid q) ≤ k.
Proof.
  intros Hc. unfold deletes_due, deleted in *. simpl.
  rewrite occurrences_snoc_ne by done. by rewrite to_delete_sum_alter.
Qed.

Lemma deletes_due_alloc t q : deletes_due t (alloc_thread q) = deletes_due t q.
Proof.
  unfold deletes_due, deleted. simpl. rewrite occurrences_snoc_ne by done.
  rewrite to_delete_sum_app. simpl. lia.
Qed.

Lemma deletes_due_AllocThreads env this t k p :
  deletes_due t p ≤ k → deletes_due t (AllocThreads env this p) ≤ k.
Proof.
  intros Hp. apply AllocThreads_stable; try done.
  - apply worker_teardown_stable; [apply deletes_due_stable|].
    intros q tid. apply deletes_due_Kill.
  - intros q Hc. by rewrite deletes_due_alloc.
Qed.

Lemma deletes_due_FreeThreads env this t k p :
  deletes_due t p ≤ k → deletes_due t (FreeThreads env this p) ≤ k.
Proof.
  intros Hp. apply FreeThreads_stable; try done.
  apply worker_teardown_stable; [apply deletes_due_stable|].
  intros q tid. apply deletes_due_Kill.
Qed.

Lemma deletes_due_ClearTaskQueue t p :
  deletes_due t (ClearTaskQueue p) = deletes_due t p.
Proof.
  destruct (ClearTaskQueue_heap p) as (Hh&_).
  unfold deletes_due, deleted.
  rewrite ClearTaskQueue_posted, occurrences_app, deletions_owned, Hh.
  change (m_TaskQueue (ClearTaskQueue p)) with (@nil cbTaskElement).
  change (owned t []) with 0. lia.
Qed.

Lemma deletes_due_RunThreads this t k p :
  deletes_due t p ≤ k → deletes_due t (RunThreads this p) ≤ k.
Proof.
  intros Hp. unfold RunThreads. apply foldl_stable; [done|].
  intros b x _ Hc. case_match; [|done].
  unfold deletes_due, deleted in *. simpl. rewrite occurrences_snoc_ne by done.
  rewrite to_delete_sum_alter; [done|]. intros []; unfold start; simpl. by case_match.
Qed.

Lemma deletes_due_perform env cpu t k p a :
  deletes_due t p ≤ k →
  deletes_due t (perform env cpu p a) ≤ k + handed_over t a.
Proof.
  intros Hp. destruct a as [this t' d| |this|this|this n|tid]; cbn [perform].
  - unfold AddTask. destruct (m_Aborting p); cbn [snd].
    + destruct d; [|simpl; lia]. destruct t' as [a|]; [|simpl; lia].
      unfold deletes_due, deleted in *. cbn [handed_over]. simpl.
      rewrite occurrences_snoc. repeat case_bool_decide; simplify_eq/=; lia.
    + set (p1 := set_Done false _).
      assert (deletes_due t p1 ≤ k + handed_over t (Do_AddTask this t' d)) as Hp1.
      { unfold deletes_due, deleted in *. simpl. rewrite owned_app.
        unfold owned at 2. simpl. destruct d, t' as [a|]; simpl; try lia.
        repeat case_bool_decide; simplify_eq/=; lia. }
      destruct (negb (m_Batching p1)); [by apply deletes_due_RunThreads|done].
  - change (deletes_due t (BatchBegin p)) with (deletes_due t p). simpl. lia.
  - pose proof (deletes_due_RunThreads this t k (set_Batching false p) Hp).
    unfold BatchEnd. simpl. lia.
  - unfold AbortAllTasks.
    assert (deletes_due t (AllocThreads env this
              (FreeThreads env this
                 (yield env this 2 (ClearTaskQueue (yield env this 1 (set_Aborting true p)))))) ≤ k) as H.
    { apply deletes_due_AllocThreads, deletes_due_FreeThreads.
      apply (before_teardown_stable env this (fun q => deletes_due t q ≤ k)).
      - apply (ws_step _ (deletes_due_stable t k)).
      - intros q Hq. by rewrite deletes_due_ClearTaskQueue.
      - exact Hp. }
    cbn [handed_over]. rewrite Nat.add_0_r. exact H.
  - rewrite SetConcurrentThreads_config.
    pose proof (deletes_due_AllocThreads env this t k
                  (emit (DebugLog (resolved cpu n))
                     (set_ConcurrentThreads (resolved cpu n) p))) as H.
    simpl. rewrite Nat.add_0_r. apply H.
    unfold deletes_due, deleted in *. simpl. by rewrite occurrences_snoc_ne.
  - pose proof (ws_step _ (deletes_due_stable t k) p tid Hp). simpl in *. lia.
Qed.

(** X12. No task is deleted more often than it was handed over.  In a
    pool built by the constructor, after any history of submissions,
    batches, aborts, reconfigurations and worker steps, with any number of
    workers and any interleaving, the number of [delete] calls on a task is
    at most the number of [AddTask] calls that passed it with auto-delete;
    a task that was only ever submitted without auto-delete is never
    deleted by the pool. *)
Theorem deleted_at_most_as_handed_over env cpu id n acts t :
  deleted t (foldl (perform env cpu) (cbThreadPool_new env cpu id n) acts)
  ≤ hand_overs t acts.
Proof.
  assert (∀ acts k p, deletes_due t p ≤ k →
            deletes_due t (foldl (perform env cpu) p acts) ≤ k + hand_overs t acts) as H.
  { clear acts. induction acts as [|a acts IH]; intros k p Hp.
    - unfold hand_overs. simpl. lia.
    - cbn [foldl]. pose proof (IH _ _ (deletes_due_perform env cpu t k p a Hp)) as H.
      unfold hand_overs in *. simpl. lia. }
  specialize (H acts 0 (cbThreadPool_new env cpu id n)).
  assert (deletes_due t (cbThreadPool_new env cpu id n) ≤ 0) as H0.
  { unfold cbThreadPool_new. rewrite SetConcurrentThreads_config.
    apply deletes_due_AllocThreads. unfold deletes_due, deleted, occurrences. simpl. lia. }
  specialize (H H0). unfold deletes_due in H. lia.
Qed.

(** *** The done flag and the queue *)

Lemma done_queue_stable :
  worker_stable (fun q => m_Done q = true → m_TaskQueue q = []).
Proof.
  split; try done.
  - intros q tid Hq Hd.
    destruct (Entry_step_detail_cases q tid) as [E|(th&th'&_&_&_&Hsd)];
      [rewrite E in *; by apply Hq|].
    destruct (sd_done _ _ _ _ Hsd Hd) as [Hd0|Hq0]; [|done].
    destruct (sd_queue _ _ _ _ Hsd) as [->|(_&e&He&_)]; [by apply Hq|].
    rewrite (Hq Hd0) in He. done.
  - intros q tid Hq. destruct (Abort_members tid q) as (_&->&_&->&_). done.
Qed.

Lemma done_queue_perform env cpu p a :
  (m_Done p = true → m_TaskQueue p = []) →
  m_Done (perform env cpu p a) = true → m_TaskQueue (perform env cpu p a) = [].
Proof.
  intros Hp.
  assert (∀ this q, (m_Done q = true → m_TaskQueue q = []) →
            m_Done (AllocThreads env this q) = true →
            m_TaskQueue (AllocThreads env this q) = []) as HA.
  { intros this q Hq. apply AllocThreads_stable; try done.
    apply worker_teardown_stable; [apply done_queue_stable|done]. }
  destruct a as [this t d| |this|this|this n|tid]; cbn [perform].
  - destruct (m_Aborting p) eqn:Hab.
    + unfold AddTask. rewrite Hab. cbn [snd]. destruct d; [|done]. by destruct t.
    + destruct (AddTask_accepts this t d p Hab) as (p'&->&_&Hd&_). cbn [snd].
      by rewrite Hd.
  - done.
  - unfold BatchEnd.
    destruct (RunThreads_members this (set_Batching false p)) as (_&->&_&->&_). done.
  - intros _. apply AbortAllTasks_queue.
  - rewrite SetConcurrentThreads_config. by apply HA.
  - by apply (ws_step _ done_queue_stable).
Qed.

(** X13. The done flag is never set while tasks are queued.  In every pool
    that exists (built by the constructor and driven by any history of
    submissions, batches, aborts, reconfigurations and worker steps), if
    the done flag is set then the queue is empty. *)
Theorem done_implies_queue_empty env cpu p :
  reachable env cpu p → m_Done p = true → m_TaskQueue p = [].
Proof.
  induction 1 as [id n|p a _ IH].
  - intros _. apply cbThreadPool_new_idle.
  - by apply done_queue_perform.
Qed.

(** *** No task is executed after the pool deleted it *)

Lemma in_hand_sum_insert t h i th th' :
  h !! i = Some th →
  in_hand_sum t (<[i := th']> h) + in_hand t th = in_hand_sum t h + in_hand t th'.
Proof.
  revert i. induction h as [|x h IH]; intros [|i] Hi; simplify_eq/=; [lia|].
  specialize (IH i Hi). lia.
Qed.

Lemma in_hand_sum_alter t h i f :
  (∀ th, in_hand t (f th) = in_hand t th) →
  in_hand_sum t (alter f i h) = in_hand_sum t h.
Proof.
  intros Hf. revert i. induction h as [|x h IH]; intros [|i]; simpl; try done.
  - by rewrite Hf.
  - f_equal. apply IH.
Qed.

Lemma in_hand_sum_app t h1 h2 :
  in_hand_sum t (h1 ++ h2) = in_hand_sum t h1 + in_hand_sum t h2.
Proof. induction h1 as [|x h1 IH]; simpl; [done|]. rewrite IH. lia. Qed.

Lemma awaiting_in_hand t h : awaiting_sum t h ≤ in_hand_sum t h.
Proof.
  induction h as [|th h IH]; simpl; [lia|].
  assert (awaiting t th ≤ in_hand t th); [|lia].
  unfold awaiting, in_hand. destruct (th_pc th); try lia; by case_bool_decide.
Qed.

Lemma owned_queued t q : owned t q ≤ queued t q.
Proof.
  unfold owned, queued. induction q as [|e q IH]; simpl; [lia|].
  destruct (autoDelete e); simpl; case_bool_decide; simpl; lia.
Qed.

Lemma accounted_stable t k : worker_stable (fun q => accounted t q ≤ k).
Proof.
  split.
  - intros q ms Hc. unfold accounted, deleted in *. simpl.
    by rewrite occurrences_snoc_ne.
  - done.
  - intros q tid Hc.
    destruct (Entry_step_detail_cases q tid) as [->|(th&th'&Hth&_&Hh&Hd)]; [done|].
    pose proof (sd_accounted _ _ _ _ Hd t) as Ho.
    pose proof (in_hand_sum_insert t (heap q) tid th th' Hth) as Hi.
    unfold accounted in *. rewrite Hh. lia.
  - intros q tid Hc. unfold accounted in *. rewrite deleted_Abort, Abort_heap.
    destruct (Abort_members tid q) as (_&_&_&->&_).
    by rewrite in_hand_sum_alter.
Qed.

Lemma accounted_Kill t k q tid :
  accounted t q ≤ k → accounted t (wxThread_Kill tid q) ≤ k.
Proof.
  intros Hc. unfold accounted, deleted in *. simpl.
  rewrite occurrences_snoc_ne by done. by rewrite in_hand_sum_alter.
Qed.

Lemma accounted_alloc t q : accounted t (alloc_thread q) = accounted t q.
Proof.
  unfold accounted, deleted. simpl. rewrite occurrences_snoc_ne by done.
  rewrite in_hand_sum_app. simpl. lia.
Qed.

Lemma accounted_AllocThreads env this t k p :
  accounted t p ≤ k → accounted t (AllocThreads env this p) ≤ k.
Proof.
  intros Hp. apply AllocThreads_stable; try done.
  - apply worker_teardown_stable; [apply accounted_stable|].
    intros q tid. apply accounted_Kill.
  - intros q Hc. by rewrite accounted_alloc.
Qed.

Lemma accounted_FreeThreads env this t k p :
  accounted t p ≤ k → accounted t (FreeThreads env this p) ≤ k.
Proof.
  intros Hp. apply FreeThreads_stable; try done.
  apply worker_teardown_stable; [apply accounted_stable|].
  intros q tid. apply accounted_Kill.
Qed.

Lemma accounted_ClearTaskQueue t p :
  accounted t (ClearTaskQueue p) ≤ accounted t p.
Proof.
  destruct (ClearTaskQueue_heap p) as (Hh&_).
  unfold accounted, deleted.
  rewrite ClearTaskQueue_posted, occurrences_app, deletions_owned, Hh.
  change (m_TaskQueue (ClearTaskQueue p)) with (@nil cbTaskElement).
  change (queued t []) with 0. pose proof (owned_queued t (m_TaskQueue p)). lia.
Qed.

Lemma accounted_RunThreads this t k p :
  accounted t p ≤ k → accounted t (RunThreads this p) ≤ k.
Proof.
  intros Hp. unfold RunThreads. apply foldl_stable; [done|].
  intros b x _ Hc. case_match; [|done].
  unfold accounted, deleted in *. simpl. rewrite occurrences_snoc_ne by done.
  rewrite in_hand_sum_alter; [done|]. intros []; unfold start; simpl. by case_match.
Qed.

Lemma accounted_perform env cpu t k p a :
  accounted t p ≤ k → accounted t (perform env cpu p a) ≤ k + submitted t a.
Proof.
  intros Hp. destruct a as [this t' d| |this|this|this n|tid]; cbn [perform].
  - unfold AddTask. destruct (m_Aborting p); cbn [snd].
    + destruct d; [|simpl; lia]. destruct t' as [a|]; [|simpl; lia].
      unfold accounted, deleted in *. cbn [submitted]. simpl.
      rewrite occurrences_snoc. repeat case_bool_decide; simplify_eq/=; lia.
    + set (p1 := set_Done false _).
      assert (accounted t p1 ≤ k + submitted t (Do_AddTask this t' d)) as Hp1.
      { unfold accounted, deleted in *. simpl. rewrite queued_app.
        unfold queued at 2. simpl. destruct t' as [a|]; simpl; try lia.
        repeat case_bool_decide; simplify_eq/=; lia. }
      destruct (negb (m_Batching p1)); [by apply accounted_RunThreads|done].
  - change (accounted t (BatchBegin p)) with (accounted t p). simpl. lia.
  - pose proof (accounted_RunThreads this t k (set_Batching false p) Hp).
    unfold BatchEnd. simpl. lia.
  - unfold AbortAllTasks.
    assert (accounted t (AllocThreads env this
              (FreeThreads env this
                 (yield env this 2 (ClearTaskQueue (yield env this 1 (set_Aborting true p)))))) ≤ k) as H.
    { apply accounted_AllocThreads, accounted_FreeThreads.
      apply (before_teardown_stable env this (fun q => accounted t q ≤ k)).
      - apply (ws_step _ (accounted_stable t k)).
      - intros q Hq. pose proof (accounted_ClearTaskQueue t q). lia.
      - exact Hp. }
    cbn [submitted]. rewrite Nat.add_0_r. exact H.
  - rewrite SetConcurrentThreads_config.
    pose proof (accounted_AllocThreads env this t k
                  (emit (DebugLog (resolved cpu n))
                     (set_ConcurrentThreads (resolved cpu n) p))) as H.
    simpl. rewrite Nat.add_0_r. apply H.
    unfold accounted, deleted in *. simpl. by rewrite occurrences_snoc_ne.
  - pose proof (ws_step _ (accounted_stable t k) p tid Hp). simpl in *. lia.
Qed.

Lemma accounted_history env cpu t acts k p :
  accounted t p ≤ k →
  accounted t (foldl (perform env cpu) p acts) ≤ k + submissions t acts.
Proof.
  revert k p. induction acts as [|a acts IH]; intros k p Hp.
  - unfold submissions. simpl. lia.
  - cbn [foldl]. pose proof (IH _ _ (accounted_perform env cpu t k p a Hp)) as H.
    unfold submissions in *. simpl. lia.
Qed.

Lemma log_grows_perform env cpu p a : posted p `prefix_of` posted (perform env cpu p a).
Proof.
  assert (∀ this q, posted p `prefix_of` posted q →
            posted p `prefix_of` posted (RunThreads this q)) as HR.
  { intros this q Hq. unfold RunThreads. apply foldl_stable; [done|].
    intros b x _ Hb. case_match; [|done]. by apply prefix_app_r. }
  destruct a as [this t d| |this|this|this n|tid]; cbn [perform].
  - unfold AddTask. destruct (m_Aborting p); cbn [snd].
    + destruct d; [|done]. destruct t; [|done]. by apply prefix_app_r.
    + case_match; [|done]. by apply HR.
  - done.
  - by apply HR.
  - unfold AbortAllTasks. cbn [posted set_Aborting].
    apply log_grows_AllocThreads, log_grows_FreeThreads.
    apply (before_teardown_stable env this (fun q => posted p `prefix_of` posted q)).
    + apply (ws_step _ (log_grows_stable p)).
    + intros q Hq. rewrite ClearTaskQueue_posted. by apply prefix_app_r.
    + done.
  - rewrite SetConcurrentThreads_config. apply log_grows_AllocThreads.
    by apply prefix_app_r.
  - by apply (ws_step _ (log_grows_stable p)).
Qed.

Lemma log_grows_history env cpu acts p :
  posted p `prefix_of` posted (foldl (perform env cpu) p acts).
Proof.
  revert p. induction acts as [|a acts IH]; intros p; [done|].
  cbn [foldl]. etrans; [apply (log_grows_perform env cpu p a)|apply IH].
Qed.

(** X14. No task is executed after the pool deleted it.  Take a pool built
    by the constructor and driven by any history in which a task was
    submitted at most once.  Once the pool has deleted that task, then
    whatever happens next, short of submitting the task again, [Execute]
    is never entered on it again. *)
Theorem never_executed_after_deleted env cpu id n acts acts' t :
  submissions t acts ≤ 1 →
  1 ≤ deleted t (foldl (perform env cpu) (cbThreadPool_new env cpu id n) acts) →
  submissions t acts' = 0 →
  executed t (foldl (perform env cpu)
                (foldl (perform env cpu) (cbThreadPool_new env cpu id n) acts) acts') =
  executed t (foldl (perform env cpu) (cbThreadPool_new env cpu id n) acts).
Proof.
  intros Hs Hd Hs'. set (p := foldl _ (cbThreadPool_new env cpu id n) acts) in *.
  assert (accounted t p ≤ 0 + submissions t acts) as Hacc.
  { apply accounted_history. unfold cbThreadPool_new.
    rewrite SetConcurrentThreads_config. apply accounted_AllocThreads.
    unfold accounted, deleted, occurrences. simpl. lia. }
  assert (busy_consistent p) as Hb.
  { apply (reachable_inv env cpu), reachable_history, reach_new. }
  pose proof (awaiting_in_hand t (heap p)) as Haw.
  destruct (claims_on_history env cpu t acts' (executed t p) p) as [_ Hc].
  { split; [done|]. unfold claims_on, accounted in *. lia. }
  destruct (log_grows_history env cpu acts' p) as [k Hk].
  unfold claims_on, executed in *. rewrite Hk, occurrences_app in *. lia.
Qed.

(** *** How often the caller sleeps *)

Lemma FreeThreads_clock_lower env this p :
  S (clock p) ≤ clock (FreeThreads env this p).
Proof.
  unfold FreeThreads. cbn [clock set_Threads].
  apply (wait_each_stable env this (fun q => S (clock p) ≤ clock q)).
  - split.
    + intros q tid Hq. by rewrite clock_Abort.
    + intros q ms Hq. rewrite clock_sleep. lia.
    + done.
    + intros q k Hq. by rewrite clock_yield.
  - by rewrite clock_sleep, abort_each_clock.
Qed.

Lemma AllocThreads_clock env this p :
  clock (AllocThreads env this p) = clock (FreeThreads env this p).
Proof.
  unfold AllocThreads.
  by apply (for_int_stable (fun q => clock q = clock (FreeThreads env this p))).
Qed.

(** X15. How often the caller sleeps.  [AllocThreads] begins with a
    teardown of its own, so [SetConcurrentThreads] (and with it the
    constructor) sleeps at least once, and [AbortAllTasks], which tears
    down and then allocates, at least twice, even in a pool without
    workers; with n workers in the set neither sleeps more than 11 n times
    on top of that. *)
Theorem reallocation_sleeps env cpu this n p :
  clock p + 1 ≤ clock (SetConcurrentThreads env cpu this n p)
    ≤ clock p + 1 + 11 * length (m_Threads p) ∧
  clock p + 2 ≤ clock (AbortAllTasks env this p)
    ≤ clock p + 2 + 11 * length (m_Threads p).
Proof.
  split.
  - rewrite SetConcurrentThreads_config, AllocThreads_clock.
    set (p1 := emit _ _).
    pose proof (FreeThreads_clock_lower env this p1).
    pose proof (FreeThreads_clock env this p1).
    change (clock p1) with (clock p) in *.
    change (m_Threads p1) with (m_Threads p) in *. lia.
  - unfold AbortAllTasks. cbn [clock set_Aborting]. rewrite AllocThreads_clock.
    set (p1 := (yield env this 2 (ClearTaskQueue (yield env this 1 (set_Aborting true p))))).
    assert (m_Threads p1 = m_Threads p ∧ clock p1 = clock p) as [HT Hc].
    { apply (before_teardown_stable env this
               (fun q => m_Threads q = m_Threads p ∧ clock q = clock p)).
      - intros q tid [H1 H2]. rewrite clock_step. split; [|done].
        destruct (ws_step _ (same_config_stable q) q tid) as (_&_&_&_&->); [|done].
        by repeat split.
      - intros q [H1 H2].
        by destruct (ClearTaskQueue_heap q) as (_&_&(_&_&_&_&->)&_&->).
      - done. }
    pose proof (FreeThreads_clock_lower env this p1).
    pose proof (FreeThreads_clock env this p1).
    pose proof (FreeThreads_clock_lower env this (FreeThreads env this p1)).
    pose proof (FreeThreads_clock env this (FreeThreads env this p1)) as Hu.
    change (m_Threads (FreeThreads env this p1)) with (@nil nat) in Hu.
    cbn [length] in Hu. rewrite HT, Hc in *. lia.
Qed.

(** ** The further theorems at concrete pools *)

Lemma pool_in_task_reachable : reachable quiet 4 pool_in_task.
Proof. apply reachable_history, reach_new. Qed.

Lemma null_task_ends_worker_witness :
  m_Aborting pool_null_first = false ∧
  IsRunning 0 (Entry_step pool_null_first 0) = false ∧
  m_TaskQueue (Entry_step pool_null_first 0) = [mkElement (Some 5) false].
Proof.
  assert (m_Aborting pool_null_first = false) as Ha by reflexivity.
  pose proof (null_task_ends_worker None false pool_null_first 0
                (mkThread None false Running false L_fetch no_element false)
                [mkElement (Some 5) false] Ha) as [_ H].
  destruct H as (H1&H2&_); [reflexivity..|].
  split_and!; [exact Ha|exact H1|exact H2].
Defined.


Lemma killed_in_task_silences_pool_witness :
  busy_consistent pool_killed ∧ stuck pool_killed ∧
  (1 ≤ m_Counter (foldl (perform quiet 4) pool_killed submit_two_then_work))%Z ∧
  all_done_posts (foldl (perform quiet 4) pool_killed submit_two_then_work) =
    all_done_posts pool_killed.
Proof.
  assert (busy_consistent pool_killed) as Hb.
  { apply (reachable_inv quiet 4).
    apply (reach_perform quiet 4 pool_in_task (Do_AbortAllTasks None)).
    apply pool_in_task_reachable. }
  assert (stuck pool_killed) as Hs.
  { exists 0, (mkThread (Some 100) true Killed false L_running
                 (mkElement (Some 100) false) false).
    split_and!; reflexivity. }
  pose proof (killed_in_task_silences_pool quiet 4 pool_killed submit_two_then_work Hb Hs)
    as [H1 H2].
  split_and!; [exact Hb|exact Hs|exact H1|exact H2].
Defined.

Lemma task_outlasting_teardown_is_killed_witness :
  0 ∈ m_Threads pool_in_task ∧ stuck (FreeThreads quiet None pool_in_task).
Proof.
  assert (0 ∈ m_Threads pool_in_task) as Hin by (vm_compute; apply list_elem_of_here).
  assert (∀ k : nat, 0 ∉ quiet k) as Hq by (intros k H; by apply elem_of_nil in H).
  pose proof (task_outlasting_teardown_is_killed quiet None pool_in_task 0
                (mkThread (Some 100) false Running false L_running
                   (mkElement (Some 100) false) false) Hin) as H.
  destruct H as [_ H]; [discriminate|reflexivity|reflexivity|reflexivity|exact Hq|].
  split; [exact Hin|exact H].
Defined.

Lemma one_worker_executes_in_order_witness :
  Forall ordinary submit_two_then_work ∧
  executions (foldl (perform quiet 4) (cbThreadPool_new quiet 4 7 1) submit_two_then_work)
    `prefix_of` map Execute (tasks_of submit_two_then_work).
Proof.
  assert (Forall ordinary submit_two_then_work) as Ho
    by (unfold submit_two_then_work; simpl; repeat constructor).
  split; [exact Ho|].
  exact (one_worker_executes_in_order quiet 4 7 submit_two_then_work Ho).
Defined.

Lemma alldone_can_precede_an_execution_witness :
  reachable quiet 4 pool_race ∧
  m_TaskQueue pool_race = [] ∧ m_Counter pool_race = 0%Z ∧
  m_Done (Entry_step pool_race 1) = true ∧
  posted (run [1; 0; 0] pool_race) =
    posted pool_race ++ [THREADTASK_ENDED 7; THREADTASK_ALLDONE 7; Execute 101].
Proof.
  assert (reachable quiet 4 pool_race) as Hr by apply reachable_history, reach_new.
  assert (m_TaskQueue pool_race = []) as Hq by reflexivity.
  assert (m_Counter pool_race = 0%Z) as Hc by reflexivity.
  assert (0 ≠ 1) as Hne by lia.
  pose proof (alldone_can_precede_an_execution pool_race 0 1
                (mkThread None false Running false L_busy (mkElement (Some 101) false) false)
                (mkThread None false Running false L_notify (mkElement (Some 100) false) true)
                101 Hne) as H.
  destruct H as (H1&_&H3); [reflexivity..|exact Hq|exact Hc|].
  split_and!; [exact Hr|exact Hq|exact Hc|exact H1|exact H3].
Defined.

Lemma ClearTaskQueue_deletes_what_the_pool_owns_witness :
  occurrences (Execute 101) (posted (ClearTaskQueue pool_busy)) =
  occurrences (Execute 101) (posted pool_busy).
Proof.
  pose proof (ClearTaskQueue_deletes_what_the_pool_owns pool_busy) as (_&_&H&_).
  apply (H (Execute 101)). intros t. discriminate.
Defined.

Lemma done_implies_queue_empty_witness :
  reachable quiet 4 pool_of_two ∧ m_Done pool_of_two = true ∧
  m_TaskQueue pool_of_two = [].
Proof.
  assert (m_Done pool_of_two = true) as Hd by reflexivity.
  split_and!; [apply pool_of_two_reachable|exact Hd|].
  exact (done_implies_queue_empty quiet 4 pool_of_two pool_of_two_reachable Hd).
Defined.

Lemma never_executed_after_deleted_witness :
  submissions 101 hand_over_and_work ≤ 1 ∧
  1 ≤ deleted 101 (foldl (perform quiet 4) (cbThreadPool_new quiet 4 7 2)
                     hand_over_and_work) ∧
  submissions 101 carry_on = 0 ∧
  executed 101 (foldl (perform quiet 4)
                  (foldl (perform quiet 4) (cbThreadPool_new quiet 4 7 2)
                     hand_over_and_work) carry_on) =
  executed 101 (foldl (perform quiet 4) (cbThreadPool_new quiet 4 7 2)
                  hand_over_and_work).
Proof.
  assert (submissions 101 hand_over_and_work ≤ 1) as H1 by (vm_compute; lia).
  assert (1 ≤ deleted 101 (foldl (perform quiet 4) (cbThreadPool_new quiet 4 7 2)
                             hand_over_and_work)) as H2 by (vm_compute; lia).
  assert (submissions 101 carry_on = 0) as H3 by reflexivity.
  split_and!; [exact H1|exact H2|exact H3|].
  exact (never_executed_after_deleted quiet 4 7 2 hand_over_and_work carry_on 101
           H1 H2 H3).
Defined.

Lemma pool_busy_reachable_eager : reachable eager 4 pool_busy.
Proof.
  assert (pool_busy =
          foldl (perform eager 4) (cbThreadPool_new eager 4 7 2)
            ([Do_AddTask None (Some 100) false; Do_AddTask None (Some 101) true]
             ++ map Do_step (replicate 6 0))) as -> by (vm_compute; reflexivity).
  apply reachable_history, reach_new.
Qed.

Lemma eager_spares_worker_0 k : 0 ∉ eager k.
Proof.
  unfold eager. destruct (k =? slot 1 1); [|apply not_elem_of_nil].
  intros H. by repeat (apply elem_of_cons in H as [H|H]; [done|]);
    apply elem_of_nil in H.
Qed.

Lemma destructor_shuts_down_witness :
  reachable eager 4 pool_busy ∧
  m_Aborting (cbThreadPool_delete eager None pool_busy) = true ∧
  m_Threads (cbThreadPool_delete eager None pool_busy) = [] ∧
  executed 101 (cbThreadPool_delete eager None pool_busy)
    + queued 101 (m_TaskQueue (at_the_clear eager None pool_busy))
    ≤ claims_on 101 pool_busy.
Proof.
  pose proof (destructor_shuts_down eager 4 None pool_busy pool_busy_reachable_eager)
    as (H1&_&H3&_&_&H6&_).
  split_and!; [apply pool_busy_reachable_eager|exact H1|exact H3|exact (H6 101)].
Defined.

Lemma AbortAllTasks_resets_witness :
  reachable quiet 4 pool_busy ∧
  mkElement (Some 101) true ∈ m_TaskQueue (at_the_clear quiet None pool_busy) ∧
  TaskDelete 101 ∈ new_events pool_busy (AbortAllTasks quiet None pool_busy) ∧
  reachable eager 4 pool_busy ∧
  0 ∈ m_Threads pool_busy ∧
  TaskAbort 100 ∈ new_events pool_busy (AbortAllTasks eager None pool_busy) ∧
  executed 101 (AbortAllTasks eager None pool_busy)
    + queued 101 (m_TaskQueue (at_the_clear eager None pool_busy))
    ≤ claims_on 101 pool_busy ∧
  m_Aborting (AbortAllTasks eager None pool_busy) = false.
Proof.
  pose proof (AbortAllTasks_resets quiet 4 None pool_busy pool_busy_reachable)
    as (_&H2&_).
  pose proof (AbortAllTasks_resets eager 4 None pool_busy pool_busy_reachable_eager)
    as (_&_&_&H4&H5&_&H7&_).
  assert (mkElement (Some 101) true ∈ m_TaskQueue (at_the_clear quiet None pool_busy))
    as Hin by (vm_compute; apply list_elem_of_here).
  assert (0 ∈ m_Threads pool_busy) as Hin0 by (vm_compute; apply list_elem_of_here).
  assert (∀ j, 0 ∉ eager (slot (clock pool_busy) (S j))) as Hsp
    by (intros j; apply eager_spares_worker_0).
  split_and!; [apply pool_busy_reachable|exact Hin|exact (H2 101 Hin)|
               apply pool_busy_reachable_eager|exact Hin0| |exact (H4 101)|exact H7].
  apply (H5 0 (mkThread (Some 100) false Running false L_exec
                 (mkElement (Some 100) false) false) 100 Hin0); [reflexivity..|exact Hsp].
Defined.

(** ** Where the statements about waking and aborting fall short *)

Lemma pool_orphan_reachable : reachable quiet 4 pool_orphan.
Proof.
  apply (reach_perform quiet 4 pool_in_task (Do_SetConcurrentThreads (Some 0) 2)).
  apply pool_in_task_reachable.
Qed.

Lemma pool_drained_reachable : reachable quiet 4 pool_drained.
Proof. apply reachable_history, reach_new. Qed.

(** C5 fails in three places.  A pool configured with a negative count
    holds no worker after [AbortAllTasks], not the configured number.  A
    task in flight on a worker that is no longer in the worker set (worker
    0, which reconfigured the pool from inside its task 100) gets no
    [Abort()] call.  And a task that is pending with auto-delete when
    [AbortAllTasks] is called can still be fetched and executed during the
    call: when worker 1 runs right after the first statement, task 101 is
    executed, and it is not deleted. *)
Lemma AbortAllTasks_negative_count_orphan_or_late :
  (reachable quiet 4 pool_negative ∧
   m_ConcurrentThreads pool_negative = (-5)%Z ∧
   m_Threads (AbortAllTasks quiet None pool_negative) = [] ∧
   Z.of_nat (length (m_Threads (AbortAllTasks quiet None pool_negative)))
     ≠ m_ConcurrentThreads pool_negative) ∧
  (reachable quiet 4 pool_orphan ∧
   IsRunning 0 pool_orphan = true ∧
   m_pTask <$> heap pool_orphan !! 0 = Some (Some 100) ∧
   occurrences (TaskAbort 100)
     (new_events pool_orphan (AbortAllTasks quiet None pool_orphan)) = 0) ∧
  (reachable eager 4 pool_busy ∧
   mkElement (Some 101) true ∈ m_TaskQueue pool_busy ∧
   executed 101 pool_busy = 0 ∧
   executed 101 (AbortAllTasks eager None pool_busy) = 1 ∧
   deleted 101 (AbortAllTasks eager None pool_busy) = 0).
Proof.
  split_and!; try by vm_compute.
  - apply pool_negative_reachable.
  - apply pool_orphan_reachable.
  - apply pool_busy_reachable_eager.
  - vm_compute. apply list_elem_of_here.
Qed.

